(** * yt_weba_download: the batch audio downloader, embedded and verified

    A shallow embedding of [src/yt_downloader.py] and
    [src/batch_download_channels.py].

    - Python [str] is a list of Unicode code points ([N]).
    - The extraction library (yt-dlp), the directory tree and the clock are an
      abstract [World] with one oracle per call the code makes; the calls
      into the library, [mkdir], the write of a metadata file and the sleep
      may answer with an exception. Two calls are taken not to raise: the
      test [Path(...).exists()] on the cookies file and the exit of the
      [with yt_dlp.YoutubeDL(...)] block.
    - The result files live in a [store] that carries the faults of the
      disk: an attempt to write may fail at [open] or part-way.
    - A Python call that may raise returns a [res]; the object state
      ([self.stats]) is threaded explicitly, so a raise keeps the mutations
      made before it.
    - Logging is kept only where a function's observable output is its log
      ([read_channel_list] warnings, [print_stats]). *)

From Stdlib Require Import Ascii String DecimalString.
From Stdlib Require Import List NArith ZArith Bool Lia.
From Stdlib Require DecimalZ DecimalPos.
Import ListNotations.

Set Implicit Arguments.

(* ------------------------------------------------------------------ *)
(** * Python strings *)

Module PyStr.

Definition char := N.
Definition str := list char.

Definition ch (a : ascii) : char := N_of_ascii a.
Definition lit (s : string) : str := map N_of_ascii (list_ascii_of_string s).

Definition LF : char := 10%N.
Definition CR : char := 13%N.
Definition QUOTE : char := 34%N.
Definition BACKSLASH : char := 92%N.
Definition HASH : char := 35%N.
Definition COMMA : char := 44%N.

Definition str_eqb (a b : str) : bool :=
  if list_eq_dec N.eq_dec a b then true else false.

(** [str.isspace] on one code point (CPython's [_PyUnicode_IsWhitespace]). *)
Definition isspace (c : char) : bool :=
  ((0x09 <=? c) && (c <=? 0x0D) || (0x1C <=? c) && (c <=? 0x20)
   || (c =? 0x85) || (c =? 0xA0) || (c =? 0x1680)
   || (0x2000 <=? c) && (c <=? 0x200A)
   || (c =? 0x2028) || (c =? 0x2029) || (c =? 0x202F) || (c =? 0x205F)
   || (c =? 0x3000))%N.

Fixpoint lstrip (s : str) : str :=
  match s with
  | c :: t => if isspace c then lstrip t else s
  | [] => []
  end.

Definition rstrip (s : str) : str := rev (lstrip (rev s)).

(** [s.strip()] *)
Definition strip (s : str) : str := rstrip (lstrip s).

(** [s.startswith(c)] for a one-character prefix *)
Definition startswith (s : str) (c : char) : bool :=
  match s with
  | x :: _ => N.eqb x c
  | [] => false
  end.

(** [c in s] for a one-character needle *)
Definition contains (c : char) (s : str) : bool := existsb (N.eqb c) s.

(** [s.partition(sep)] cut at the first [sep]; [None] when there is none *)
Fixpoint cut_first (sep : char) (s : str) : option (str * str) :=
  match s with
  | [] => None
  | c :: t =>
      if N.eqb c sep then Some ([], t)
      else match cut_first sep t with
           | Some (a, b) => Some (c :: a, b)
           | None => None
           end
  end.

(** [s.split(sep, 1)] *)
Definition split1 (sep : char) (s : str) : list str :=
  match cut_first sep s with
  | Some (a, b) => [a; b]
  | None => [s]
  end.

(** Decimal text of an integer, as [str(n)] and f-strings print it. *)
Definition str_of_nat (n : nat) : str :=
  lit (NilZero.string_of_uint (Nat.to_uint n)).

Definition str_of_Z (z : Z) : str :=
  lit (NilZero.string_of_int (Z.to_int z)).

End PyStr.
Import PyStr.

(* ------------------------------------------------------------------ *)
(** * Outcomes of Python calls *)

(** An exception (a subclass of [Exception]) carried by its [str(e)]. *)
Record exn := Exn { exn_msg : str }.

Inductive res (A : Type) :=
| Ok (a : A)
| Raise (e : exn).
Arguments Ok {A} a.
Arguments Raise {A} e.

(** A call that may end the process: through [sys.exit], or with an
    exception that nothing catches. *)
Inductive proc (A : Type) :=
| Returns (a : A)
| Exits (code : Z)
| Aborts (e : exn).
Arguments Returns {A} a.
Arguments Exits {A} code.
Arguments Aborts {A} e.

(* ------------------------------------------------------------------ *)
(** * Channel List Reader: [read_channel_list] *)

Module ChannelList.

(** What [filepath.exists()] and [open(filepath, 'r', encoding='utf-8')]
    find. *)
Inductive file :=
| Inaccessible (e : exn)  (* [filepath.exists()] raises, before the [try] *)
| Missing                 (* [filepath.exists()] is false *)
| Unreadable (e : exn)    (* [open] or the decoder raises *)
| Text (s : str).         (* the decoded text *)

(** Text-mode iteration: universal newlines, then one line per [\n],
    terminator kept. *)
Fixpoint universal_newlines (s : str) : str :=
  match s with
  | [] => []
  | c :: t =>
      if N.eqb c CR then
        match t with
        | d :: t' => if N.eqb d LF then LF :: universal_newlines t'
                     else LF :: universal_newlines t
        | [] => [LF]
        end
      else c :: universal_newlines t
  end.

Fixpoint lines_from (cur : str) (s : str) : list str :=
  match s with
  | [] => match cur with [] => [] | _ => [rev cur] end
  | c :: t =>
      if N.eqb c LF then rev (c :: cur) :: lines_from [] t
      else lines_from (c :: cur) t
  end.

Definition file_lines (s : str) : list str := lines_from [] (universal_newlines s).

Record reader := Reader {
  channels : list (str * str);
  warnings : list str
}.

(** The body of the [for line_num, line in enumerate(f, 1)] loop. *)
Definition read_line (line_num : nat) (raw : str) (acc : reader) : reader :=
  let line := strip raw in
  if match line with [] => true | _ => false end || startswith line HASH then acc
  else if contains COMMA line then
    let parts := split1 COMMA line in
    match parts with
    | [p0; p1] =>
        let channel_name := strip p0 in
        let channel_url := strip p1 in
        Reader (channels acc ++ [(channel_name, channel_url)]) (warnings acc)
    | _ =>
        Reader (channels acc)
               (warnings acc ++
                [lit "Line " ++ str_of_nat line_num ++
                 lit ": Invalid format, skipping: " ++ line])
    end
  else
    Reader (channels acc)
           (warnings acc ++
            [lit "Line " ++ str_of_nat line_num ++
             lit ": Missing comma separator, skipping: " ++ line]).

Fixpoint read_lines (line_num : nat) (ls : list str) (acc : reader) : reader :=
  match ls with
  | [] => acc
  | l :: rest => read_lines (S line_num) rest (read_line line_num l acc)
  end.

Definition read_channel_list (f : file) : proc reader :=
  match f with
  | Inaccessible e => Aborts e
  | Missing => Exits 1
  | Unreadable _ => Exits 1
  | Text s => Returns (read_lines 1 (file_lines s) (Reader [] []))
  end.

(** The entries one line contributes: none or one. *)
Definition line_entries (raw : str) : list (str * str) :=
  channels (read_line 0 raw (Reader [] [])).

(** A line the reader passes over: blank, a comment, or without a comma. *)
Definition skipped_line (raw : str) : Prop :=
  strip raw = [] \/ startswith raw HASH = true
  \/ startswith (strip raw) HASH = true \/ contains COMMA raw = false.

(** The scenario file of the specification. *)
Definition scenario : str :=
  lit "leon,https://x/channel/AAA" ++ [LF] ++ lit "# comment" ++ [LF] ++ [LF]
  ++ lit "bad-line" ++ [LF] ++ lit "foo,https://x/channel/BBB".

End ChannelList.

(* ------------------------------------------------------------------ *)
(** * Video-ID extraction: [YTDownloader._extract_video_id] *)

Module VideoId.

(** The character class [[0-9A-Za-z_-]]. *)
Definition id_char (c : char) : bool :=
  ((ch "0" <=? c) && (c <=? ch "9")
   || (ch "A" <=? c) && (c <=? ch "Z")
   || (ch "a" <=? c) && (c <=? ch "z")
   || (c =? ch "_") || (c =? ch "-"))%N.

(** [([0-9A-Za-z_-]{n})] at the head of [s]: the group and what follows. *)
Fixpoint take_id (n : nat) (s : str) : option (str * str) :=
  match n with
  | O => Some ([], s)
  | S n' =>
      match s with
      | c :: t =>
          if id_char c then
            match take_id n' t with
            | Some (g, r) => Some (c :: g, r)
            | None => None
            end
          else None
      | [] => None
      end
  end.

(** A literal at the head of [s]: what follows it. *)
Fixpoint eat (p s : str) : option str :=
  match p with
  | [] => Some s
  | a :: p' =>
      match s with
      | c :: t => if N.eqb a c then eat p' t else None
      | [] => None
      end
  end.

Definition or_else {A} (a b : option A) : option A :=
  match a with Some _ => a | None => b end.

(** [lit_then_id p s]: the literal [p], then the 11-character group. *)
Definition lit_then_id (p s : str) : option str :=
  match eat p s with
  | Some r => match take_id 11 r with
              | Some (g, _) => Some g
              | None => None
              end
  | None => None
  end.

(** [(?:v=|\/)([0-9A-Za-z_-]{11}).*] tried at the head of [s]; the
    alternatives are tried in order, and the trailing [.*] matches whatever
    follows (possibly nothing), so it decides neither success nor group 1. *)
Definition pattern1_at (s : str) : option str :=
  or_else (lit_then_id (lit "v=") s) (lit_then_id (lit "/") s).

(** [(?:embed\/)([0-9A-Za-z_-]{11})] tried at the head of [s]. *)
Definition pattern2_at (s : str) : option str := lit_then_id (lit "embed/") s.

(** [^([0-9A-Za-z_-]{11})$] : [^] holds at the start of the string only and
    [$] at its end or before a final newline (no flags are given). *)
Definition pattern3 (s : str) : option str :=
  match take_id 11 s with
  | Some (g, r) =>
      if match r with
         | [] => true
         | [c] => N.eqb c LF
         | _ => false
         end
      then Some g else None
  | None => None
  end.

(** [re.search]: the match at the leftmost start position, group 1. *)
Fixpoint search (m : str -> option str) (s : str) : option str :=
  match m s with
  | Some g => Some g
  | None => match s with
            | [] => None
            | _ :: t => search m t
            end
  end.

Definition patterns : list (str -> option str) :=
  [search pattern1_at; search pattern2_at; pattern3].

(** [for pattern in patterns: match = re.search(...); if match: return] *)
Fixpoint first_match (ps : list (str -> option str)) (url : str) : option str :=
  match ps with
  | [] => None
  | p :: rest =>
      match p url with
      | Some g => Some g
      | None => first_match rest url
      end
  end.

Definition _extract_video_id (url : str) : option str := first_match patterns url.

(** An 11-character token: eleven consecutive characters of the class. *)
Definition valid_id (vid : str) : Prop :=
  length vid = 11 /\ forallb id_char vid = true.

Definition token_at (s : str) : option str := option_map fst (take_id 11 s).

Definition has_token (url : str) : bool :=
  match search token_at url with
  | Some _ => true
  | None => false
  end.

End VideoId.

(* ------------------------------------------------------------------ *)
(** * JSON values and [json.dump(..., ensure_ascii=False, indent=2)] *)

Module Json.

#[local] Unset Elimination Schemes.
Inductive json :=
| JNull
| JBool (b : bool)
| JInt (z : Z)
| JFloat (text : str)   (* a float, carried by the text [json] emits for it *)
| JStr (s : str)
| JList (l : list json)
| JDict (kv : list (str * json)).  (* items in iteration order *)
#[local] Set Elimination Schemes.

(** Python truthiness ([if x], [a or b]). *)
Definition truthy (j : json) : bool :=
  match j with
  | JNull => false
  | JBool b => b
  | JInt z => negb (Z.eqb z 0)
  | JFloat t => negb (str_eqb t (lit "0.0") || str_eqb t (lit "-0.0"))
  | JStr s => match s with [] => false | _ => true end
  | JList l => match l with [] => false | _ => true end
  | JDict kv => match kv with [] => false | _ => true end
  end.

(** [d.get(k)] / [d.get(k, default)] on the items of a dict *)
Fixpoint dict_get (d : list (str * json)) (k : str) (default : json) : json :=
  match d with
  | [] => default
  | (k', v) :: rest => if str_eqb k' k then v else dict_get rest k default
  end.

Definition hex_digit (n : N) : char :=
  (if n <? 10 then ch "0" + n else ch "a" + (n - 10))%N.

(** One character of a string body: [ESCAPE_DCT] of [json.encoder], the
    [ensure_ascii=False] table. Only [\], the quote and the control
    characters below 0x20 are rewritten. *)
Definition escape_char (c : char) : str :=
  if N.eqb c BACKSLASH then [BACKSLASH; BACKSLASH]
  else if N.eqb c QUOTE then [BACKSLASH; QUOTE]
  else if N.eqb c 0x08 then BACKSLASH :: lit "b"
  else if N.eqb c 0x0C then BACKSLASH :: lit "f"
  else if N.eqb c 0x0A then BACKSLASH :: lit "n"
  else if N.eqb c 0x0D then BACKSLASH :: lit "r"
  else if N.eqb c 0x09 then BACKSLASH :: lit "t"
  else if (c <? 0x20)%N then
    BACKSLASH :: lit "u00" ++ [hex_digit (c / 16); hex_digit (c mod 16)]
  else [c].

Definition encode_str (s : str) : str :=
  QUOTE :: flat_map escape_char s ++ [QUOTE].

Fixpoint join (sep : str) (l : list str) : str :=
  match l with
  | [] => []
  | [x] => x
  | x :: rest => x ++ sep ++ join sep rest
  end.

Definition indent_unit : str := lit "  ".   (* indent=2 *)

Fixpoint spaces (level : nat) : str :=
  match level with
  | O => []
  | S n => indent_unit ++ spaces n
  end.

Definition newline_indent (level : nat) : str := LF :: spaces level.

(** The text [json.dumps(j, ensure_ascii=False, indent=2)] at nesting
    [level]: item separator [","], key separator [": "]. *)
Fixpoint dumps_at (level : nat) (j : json) : str :=
  match j with
  | JNull => lit "null"
  | JBool true => lit "true"
  | JBool false => lit "false"
  | JInt z => str_of_Z z
  | JFloat t => t
  | JStr s => encode_str s
  | JList [] => lit "[]"
  | JList l =>
      lit "[" ++ newline_indent (S level)
      ++ join (lit "," ++ newline_indent (S level)) (map (dumps_at (S level)) l)
      ++ newline_indent level ++ lit "]"
  | JDict [] => lit "{}"
  | JDict kv =>
      lit "{" ++ newline_indent (S level)
      ++ join (lit "," ++ newline_indent (S level))
           (map (fun item => match item with
                             | (k, v) => encode_str k ++ lit ": " ++ dumps_at (S level) v
                             end) kv)
      ++ newline_indent level ++ lit "}"
  end.

Definition dumps (j : json) : str := dumps_at 0 j.

(** The UTF-8 codec of the text handle ([encoding='utf-8'], strict):
    [None] is [UnicodeEncodeError] (a lone surrogate). *)
Definition byte_of (n : N) : Byte.byte :=
  match Byte.of_N n with Some b => b | None => Byte.x00 end.

Definition utf8_char (c : char) : option (list Byte.byte) :=
  (if c <? 0x80 then Some [byte_of c]
   else if c <? 0x800 then
     Some [byte_of (0xC0 + c / 64); byte_of (0x80 + c mod 64)]
   else if c <? 0x10000 then
     if (0xD800 <=? c) && (c <=? 0xDFFF) then None
     else Some [byte_of (0xE0 + c / 4096); byte_of (0x80 + (c / 64) mod 64);
                byte_of (0x80 + c mod 64)]
   else if c <? 0x110000 then
     Some [byte_of (0xF0 + c / 262144); byte_of (0x80 + (c / 4096) mod 64);
           byte_of (0x80 + (c / 64) mod 64); byte_of (0x80 + c mod 64)]
   else None)%N.

Fixpoint utf8_encode (s : str) : option (list Byte.byte) :=
  match s with
  | [] => Some []
  | c :: t =>
      match utf8_char c, utf8_encode t with
      | Some b, Some bs => Some (b ++ bs)
      | _, _ => None
      end
  end.

End Json.

(* ------------------------------------------------------------------ *)
(** * The world outside the program *)

Import VideoId Json.

(** One element of [result['entries']]. *)
Inductive entry :=
| EntryFalsy            (* [None] or an empty dict *)
| EntryNoId             (* a dict without the key ['id'] *)
| EntryId (id : str).   (* a dict whose ['id'] formats as [id] *)

(** What [extract_info(channel_url, download=False)] returns. *)
Inductive flat_info :=
| FlatNone                           (* [None] *)
| FlatNoEntries                      (* a dict without ['entries'] *)
| FlatEntries (entries : list entry).

(** The info dict of one video: its items. *)
Definition info := list (str * json).

(** The options of [_get_ydl_opts] that depend on the instance; the others
    (format preference, post-processors, user agent) are constants. *)
Record ydl_opts (F : Type) := YdlOpts {
  outtmpl : str;
  opt_sleep_interval : F;
  opt_max_sleep_interval : F;
  sleep_interval_requests : Z;
  ratelimit : str;
  retries : Z;
  fragment_retries : Z;
  cookiefile : option str
}.

(** The collaborators of the program. [seconds] stands for Python's float;
    [joinpath a b] is [str(Path(a) / b)]. *)
Class External := {
  World : Type;
  seconds : Type;
  joinpath : str -> str -> str;
  path_exists : str -> World -> bool;
  (* [Path(p).mkdir(parents=parents, exist_ok=True)] *)
  mkdir : bool -> str -> World -> res unit * World;
  (* [YoutubeDL(opts).extract_info(url, download=False)], flat *)
  ydl_extract_flat : option str -> str -> World -> res flat_info * World;
  (* [YoutubeDL(opts).extract_info(url, download=True)] *)
  ydl_download : ydl_opts seconds -> str -> World -> res (option info) * World;
  (* [open(path, 'w', encoding='utf-8')] and the write of the text *)
  write_text : str -> str -> World -> res unit * World;
  (* [time.strftime("%Y-%m-%d %H:%M:%S")] *)
  strftime : World -> str;
  (* [time.sleep(random.uniform(lo, hi))] *)
  random_sleep : seconds -> seconds -> World -> res unit * World
}.

(* ------------------------------------------------------------------ *)
(** * Downloader: [class YTDownloader] *)

Record Stats := MkStats {
  total_videos : nat;
  successful : nat;
  failed : nat;
  skipped : nat
}.

(** The dict a call of [download_video_audio] returns, by shape. *)
Inductive VideoResult :=
| InvalidUrl (video_url : str)
| Success (video_url video_id channel_name output_dir metadata_file : str)
          (metadata : json)
| Failure (video_url video_id channel_name error : str).

(** [r['status']] *)
Definition status (r : VideoResult) : str :=
  match r with
  | InvalidUrl _ => lit "failed"
  | Success _ _ _ _ _ _ => lit "success"
  | Failure _ _ _ _ => lit "failed"
  end.

(** [r.get('error')] *)
Definition error_of (r : VideoResult) : option str :=
  match r with
  | InvalidUrl _ => Some (lit "Invalid video URL")
  | Success _ _ _ _ _ _ => None
  | Failure _ _ _ e => Some e
  end.

Definition video_json (r : VideoResult) : json :=
  match r with
  | InvalidUrl u =>
      JDict [(lit "video_url", JStr u);
             (lit "status", JStr (lit "failed"));
             (lit "error", JStr (lit "Invalid video URL"))]
  | Success u vid cn dir mf md =>
      JDict [(lit "video_url", JStr u);
             (lit "video_id", JStr vid);
             (lit "channel_name", JStr cn);
             (lit "status", JStr (lit "success"));
             (lit "output_dir", JStr dir);
             (lit "metadata_file", JStr mf);
             (lit "metadata", md)]
  | Failure u vid cn e =>
      JDict [(lit "video_url", JStr u);
             (lit "video_id", JStr vid);
             (lit "channel_name", JStr cn);
             (lit "status", JStr (lit "failed"));
             (lit "error", JStr e)]
  end.

(** Calls into the extraction library, in order (ghost trace). *)
Inductive lib_call :=
| CallEnumerate (channel_url : str)
| CallDownload (video_url : str).

Section Downloader.
Context {E : External}.

(** The attributes set once by [__init__]. *)
Record YTDownloader := MkDownloader {
  output_base_dir : str;
  sleep_interval : seconds;
  max_sleep_interval : seconds;
  sleep_requests : Z;
  rate_limit : str;
  max_retries : Z;
  cookies_file : option str
}.

(** The mutable part: [self.stats], the world, and the trace. *)
Record state := MkState {
  stats : Stats;
  world : World;
  calls : list lib_call
}.

Definition M (A : Type) : Type := state -> res A * state.

Definition ret {A} (a : A) : M A := fun st => (Ok a, st).

Definition raise {A} (e : exn) : M A := fun st => (Raise e, st).

Definition bind {A B} (m : M A) (k : A -> M B) : M B :=
  fun st =>
    match m st with
    | (Ok a, st') => k a st'
    | (Raise e, st') => (Raise e, st')
    end.

(** [try: m  except Exception as e: h e] *)
Definition try_except {A} (m : M A) (h : exn -> M A) : M A :=
  fun st =>
    match m st with
    | (Ok a, st') => (Ok a, st')
    | (Raise e, st') => h e st'
    end.

Definition io {A} (f : World -> res A * World) : M A :=
  fun st =>
    let (r, w) := f (world st) in
    (r, MkState (stats st) w (calls st)).

Definition ask {A} (f : World -> A) : M A := fun st => (Ok (f (world st)), st).

Definition update_stats (f : Stats -> Stats) : M unit :=
  fun st => (Ok tt, MkState (f (stats st)) (world st) (calls st)).

Definition trace (c : lib_call) : M unit :=
  fun st => (Ok tt, MkState (stats st) (world st) (calls st ++ [c])).

End Downloader.

Declare Scope py_scope.
Delimit Scope py_scope with py.
Notation "x <- m ;; k" := (bind m (fun x => k))
  (at level 61, m at next level, right associativity) : py_scope.
Notation "m ;;; k" := (bind m (fun _ => k))
  (at level 61, right associativity) : py_scope.
Open Scope py_scope.

Section Methods.
Context {E : External}.

Definition init_stats : Stats := MkStats 0 0 0 0.

(** [YTDownloader.__init__]: keeps its arguments, creates the base directory
    ([mkdir(exist_ok=True)], which may raise) and zeroes the counters. *)
Definition __init__ (output_base_dir : str) (sleep_interval max_sleep_interval : seconds)
    (sleep_requests : Z) (rate_limit : str) (max_retries : Z)
    (cookies_file : option str) (w : World) : res YTDownloader * state :=
  let (r, w') := mkdir false output_base_dir w in
  (match r with
   | Ok _ => Ok (MkDownloader output_base_dir sleep_interval max_sleep_interval
                              sleep_requests rate_limit max_retries cookies_file)
   | Raise e => Raise e
   end,
   MkState init_stats w' []).

(** [self.cookies_file and Path(self.cookies_file).exists()], then the
    file name to pass on. The test is taken to answer: [path_exists] gives
    a [bool]. *)
Definition cookies_in_use (self : YTDownloader) (w : World) : option str :=
  match cookies_file self with
  | Some c =>
      match c with
      | [] => None
      | _ => if path_exists c w then Some c else None
      end
  | None => None
  end.

Definition _get_ydl_opts (self : YTDownloader) (output_dir : str) (w : World)
    : ydl_opts seconds :=
  YdlOpts (joinpath output_dir (lit "%(id)s.%(ext)s"))
          (sleep_interval self) (max_sleep_interval self)
          (sleep_requests self) (rate_limit self)
          (max_retries self) (max_retries self) (cookies_in_use self w).

(** [entry and 'id' in entry], then [entry['id']] *)
Definition entry_id (e : entry) : option str :=
  match e with
  | EntryId i => Some i
  | _ => None
  end.

(** [max_videos and len(video_urls) >= max_videos] *)
Definition limit_reached (max_videos : option Z) (video_urls : list str) : bool :=
  match max_videos with
  | None => false
  | Some m => negb (Z.eqb m 0) && (m <=? Z.of_nat (length video_urls))%Z
  end.

(** The [for entry in result['entries']] loop, [break] included. *)
Fixpoint collect_urls (max_videos : option Z) (entries : list entry)
    (video_urls : list str) : list str :=
  match entries with
  | [] => video_urls
  | e :: rest =>
      match entry_id e with
      | Some video_id =>
          let video_urls' :=
            video_urls ++ [lit "https://www.youtube.com/watch?v=" ++ video_id] in
          if limit_reached max_videos video_urls' then video_urls'
          else collect_urls max_videos rest video_urls'
      | None => collect_urls max_videos rest video_urls
      end
  end.

Definition get_channel_videos (self : YTDownloader) (channel_url : str)
    (max_videos : option Z) : M (list str) :=
  cookie <- ask (cookies_in_use self) ;;
  try_except
    (trace (CallEnumerate channel_url) ;;;
     result <- io (ydl_extract_flat cookie channel_url) ;;
     match result with
     | FlatNone =>
         (* ['entries' not in None] raises TypeError *)
         raise (Exn (lit "argument of type 'NoneType' is not iterable"))
     | FlatNoEntries => ret []
     | FlatEntries entries => ret (collect_urls max_videos entries [])
     end)
    (fun _ => ret []).

(** [a or b] *)
Definition py_or (a b : json) : json := if truthy a then a else b.

(** [info.get(k)] *)
Definition info_get (i : info) (k : string) : json := dict_get i (lit k) JNull.

Definition _extract_metadata (i : info) (channel_name video_url : str) : M json :=
  now <- ask strftime ;;
  ret (JDict
    [(lit "video_id", info_get i "id");
     (lit "title", info_get i "title");
     (lit "channel_url", JStr video_url);
     (lit "channel_name", JStr channel_name);
     (lit "upload_date", info_get i "upload_date");
     (lit "uploader", info_get i "uploader");
     (lit "duration_sec", info_get i "duration");
     (lit "view_count", info_get i "view_count");
     (lit "like_count", info_get i "like_count");
     (lit "description", info_get i "description");
     (lit "audio_metadata",
      JDict [(lit "codec", info_get i "acodec");
             (lit "sample_rate", info_get i "asr");
             (lit "bit_rate", info_get i "abr");
             (lit "channels", dict_get i (lit "audio_channels") (JInt 2));
             (lit "format", info_get i "ext");
             (lit "file_size", py_or (info_get i "filesize") (info_get i "filesize_approx"))]);
     (lit "download_timestamp", JStr now);
     (lit "original_url", JStr video_url)]).

Definition add_successful (s : Stats) : Stats :=
  MkStats (total_videos s) (S (successful s)) (failed s) (skipped s).

Definition add_failed (s : Stats) : Stats :=
  MkStats (total_videos s) (successful s) (S (failed s)) (skipped s).

Definition add_total (n : nat) (s : Stats) : Stats :=
  MkStats (total_videos s + n) (successful s) (failed s) (skipped s).

(** [self.output_base_dir / channel_name / video_id] *)
Definition video_dir (self : YTDownloader) (channel_name video_id : str) : str :=
  joinpath (joinpath (output_base_dir self) channel_name) video_id.

(** [download_video_audio]. The early return, the [mkdir] outside the [try],
    and the [try]/[except Exception] around everything else. The group of a
    match has eleven characters, so [not video_id] is the [None] case. The
    exit of the [with] block is taken not to raise. *)
Definition download_video_audio (self : YTDownloader) (video_url channel_name : str)
    : M VideoResult :=
  match _extract_video_id video_url with
  | None => ret (InvalidUrl video_url)
  | Some video_id =>
      let video_output_dir := video_dir self channel_name video_id in
      io (mkdir true video_output_dir) ;;;
      try_except
        (opts <- ask (_get_ydl_opts self video_output_dir) ;;
         trace (CallDownload video_url) ;;;
         i <- io (ydl_download opts video_url) ;;
         match i with
         | Some (item :: items) =>
             let i := item :: items in
             metadata <- _extract_metadata i channel_name video_url ;;
             let metadata_file := joinpath video_output_dir (video_id ++ lit ".json") in
             io (write_text metadata_file (dumps metadata)) ;;;
             update_stats add_successful ;;;
             ret (Success video_url video_id channel_name video_output_dir
                          metadata_file metadata)
         | _ => raise (Exn (lit "No info returned from yt-dlp"))
         end)
        (fun e =>
           update_stats add_failed ;;;
           ret (Failure video_url video_id channel_name (exn_msg e)))
  end.

(** The [for idx, video_url in enumerate(video_urls, 1)] loop of
    [download_from_channel]; [n] is [len(video_urls)]. *)
Fixpoint download_each (self : YTDownloader) (channel_name : str) (n idx : nat)
    (video_urls : list str) (results : list VideoResult) : M (list VideoResult) :=
  match video_urls with
  | [] => ret results
  | video_url :: rest =>
      result <- download_video_audio self video_url channel_name ;;
      let results' := results ++ [result] in
      (if idx <? n
       then io (random_sleep (sleep_interval self) (max_sleep_interval self))
       else ret tt) ;;;
      download_each self channel_name n (S idx) rest results'
  end.

Definition download_from_channel (self : YTDownloader) (channel_url channel_name : str)
    (max_videos : option Z) : M (list VideoResult) :=
  video_urls <- get_channel_videos self channel_url max_videos ;;
  match video_urls with
  | [] => ret []
  | _ =>
      update_stats (add_total (length video_urls)) ;;;
      download_each self channel_name (length video_urls) 1 video_urls []
  end.

Definition rule (n : nat) : str := repeat (ch "=") n.

(** [print_stats]: the lines it logs. *)
Definition print_stats (s : Stats) : list str :=
  [LF :: rule 60;
   lit "DOWNLOAD STATISTICS";
   rule 60;
   lit "Total videos: " ++ str_of_nat (total_videos s);
   lit "Successful: " ++ str_of_nat (successful s);
   lit "Failed: " ++ str_of_nat (failed s);
   lit "Skipped: " ++ str_of_nat (skipped s);
   rule 60].

End Methods.

(* ------------------------------------------------------------------ *)
(** * Result Persister and Batch Orchestrator: [batch_download_channels.py] *)

(** The value stored under a channel name in [all_results]. *)
Inductive ChannelResult :=
| ChannelOk (channel_url : str) (n_total n_successful n_failed : nat)
            (videos : list VideoResult)
| ChannelError (channel_url error : str).

Definition channel_json (c : ChannelResult) : json :=
  match c with
  | ChannelOk url t s f videos =>
      JDict [(lit "channel_url", JStr url);
             (lit "total_videos", JInt (Z.of_nat t));
             (lit "successful", JInt (Z.of_nat s));
             (lit "failed", JInt (Z.of_nat f));
             (lit "videos", JList (map video_json videos))]
  | ChannelError url e =>
      JDict [(lit "channel_url", JStr url);
             (lit "status", JStr (lit "error"));
             (lit "error", JStr e)]
  end.

(** A Python dict keyed by [str]: its items in insertion order. *)
Definition dict (V : Type) := list (str * V).

(** [d[k] = v]: a present key keeps its place, a new key goes last. *)
Fixpoint dict_set {V} (d : dict V) (k : str) (v : V) : dict V :=
  match d with
  | [] => [(k, v)]
  | (k', v') :: rest =>
      if str_eqb k' k then (k', v) :: rest
      else (k', v') :: dict_set rest k v
  end.

Definition results_json (results : dict ChannelResult) : json :=
  JDict (map (fun item => (fst item, channel_json (snd item))) results).

(** What a result file holds. [Complete] is a finished write; [Partial text]
    is a write of [text] cut short by the codec raising (the file holds a
    prefix of the encoding); [Truncated] is a write cut short by the disk. *)
Inductive content :=
| Complete (bytes : list Byte.byte)
| Partial (text : str)
| Truncated (bytes : list Byte.byte).

(** How an attempt to write a file fails. *)
Inductive write_fault :=
| OpenFails (e : exn)
    (* [open(name, 'w')] raises: the file is as it was *)
| WriteFails (landed : nat) (e : exn).
    (* [open] emptied the file and [landed] bytes reached it before a write,
       the flush or the close raised *)

(** The result files and the disk under them: what each name holds, and how
    the coming attempts to write go, in order ([None]: the attempt succeeds;
    past the end of the list every attempt does). Only [save_batch_results]
    writes here. *)
Record store := Store {
  held :> str -> option content;
  next_writes : list (option write_fault)
}.

Definition empty_store : store := Store (fun _ => None) [].

(** How the next attempt to write goes. *)
Definition next_fault (fs : store) : option write_fault :=
  match next_writes fs with
  | f :: _ => f
  | [] => None
  end.

(** What [name] holds once the bytes of [text] were sent to it and at most
    [landed] of them arrived ([None]: all of them). *)
Definition written (text : str) (landed : option nat) : content :=
  match utf8_encode text with
  | Some bytes =>
      match landed with
      | None => Complete bytes
      | Some n => Truncated (firstn n bytes)
      end
  | None => Partial text
  end.

Definition put (fs : store) (name : str) (c : content) : str -> option content :=
  fun n => if str_eqb n name then Some c else fs n.

(** [with open(name, 'w', encoding='utf-8') as f:] and the write of [text],
    inside a [try] whose [except Exception] only logs: the call returns
    whatever happened. A failed [open] leaves the file as it was; anything
    later has already emptied it. *)
Definition write_file (fs : store) (name : str) (text : str) : store :=
  match next_fault fs with
  | Some (OpenFails _) => Store (held fs) (tl (next_writes fs))
  | Some (WriteFails landed _) =>
      Store (put fs name (written text (Some landed))) (tl (next_writes fs))
  | None => Store (put fs name (written text None)) (tl (next_writes fs))
  end.

(** [save_batch_results(results, output_file)]:
    [json.dump(results, f, ensure_ascii=False, indent=2)] in a
    [try]/[except Exception]. *)
Definition save_batch_results (results : dict ChannelResult) (output_file : str)
    (fs : store) : store :=
  write_file fs output_file (dumps (results_json results)).

Definition checkpoint_file : str := lit "batch_results_checkpoint.json".
Definition final_file : str := lit "batch_results_final.json".

(** [sum(1 for r in results if r['status'] == s)] *)
Definition count_status (s : string) (results : list VideoResult) : nat :=
  length (filter (fun r => str_eqb (status r) (lit s)) results).

(** [l[:n]] and [l[n:]] with Python's negative indices. *)
Definition slice_to {A} (n : Z) (l : list A) : list A :=
  if (0 <=? n)%Z then firstn (Z.to_nat n) l
  else firstn (length l - Z.to_nat (- n)) l.

Definition slice_from {A} (n : Z) (l : list A) : list A :=
  if (0 <=? n)%Z then skipn (Z.to_nat n) l
  else skipn (length l - Z.to_nat (- n)) l.

Section Orchestrator.
Context {E : External}.

(** The parsed command line. *)
Record Args := MkArgs {
  channels_file : str;
  output_dir : str;
  sleep_min : seconds;
  sleep_max : seconds;
  arg_rate_limit : str;
  max_videos_per_channel : option Z;
  max_channels : option Z;
  arg_cookies_file : option str;
  start_from : Z
}.

(** The locals of [main] that the channel loop updates. *)
Record batch := MkBatch {
  all_results : dict ChannelResult;
  failed_channels : list (str * str);
  files : store
}.

(** The body of [for idx, (channel_name, channel_url) in enumerate(channels, 1)]. *)
Definition process_channel (downloader : YTDownloader) (max_videos : option Z)
    (c : str * str) (bs : batch * state) : batch * state :=
  let (b, st) := bs in
  let (channel_name, channel_url) := c in
  match download_from_channel downloader channel_url channel_name max_videos st with
  | (Ok results, st') =>
      let all :=
        dict_set (all_results b) channel_name
          (ChannelOk channel_url (length results)
                     (count_status "success" results)
                     (count_status "failed" results)
                     results) in
      (MkBatch all (failed_channels b)
               (save_batch_results all checkpoint_file (files b)), st')
  | (Raise e, st') =>
      (MkBatch (dict_set (all_results b) channel_name
                         (ChannelError channel_url (exn_msg e)))
               (failed_channels b ++ [(channel_name, exn_msg e)])
               (files b), st')
  end.

Definition process_channels (downloader : YTDownloader) (max_videos : option Z)
    (channels : list (str * str)) (bs : batch * state) : batch * state :=
  fold_left (fun acc c => process_channel downloader max_videos c acc) channels bs.

(** What a finished [main] leaves behind. *)
Record run := MkRun {
  run_batch : batch;
  run_state : state;
  run_stats_log : list str
}.

(** [main]: [Exits] is [sys.exit], [Raise] an uncaught exception. The default
    of [sleep_requests] is 1 and of [max_retries] 3. *)
Definition main (args : Args) (f : ChannelList.file) (fs : store) (w : World)
    : proc (res run) :=
  match ChannelList.read_channel_list f with
  | Aborts e => Returns (Raise e)
  | Exits code => Exits code
  | Returns r =>
      let channels := ChannelList.channels r in
      match channels with
      | [] => Exits 1
      | _ =>
          let channels :=
            match max_channels args with
            | Some m => if Z.eqb m 0 then channels else slice_to m channels
            | None => channels
            end in
          let channels :=
            if (0 <? start_from args)%Z then slice_from (start_from args) channels
            else channels in
          match __init__ (output_dir args) (sleep_min args) (sleep_max args) 1
                         (arg_rate_limit args) 3 (arg_cookies_file args) w with
          | (Raise e, _) => Returns (Raise e)
          | (Ok downloader, st) =>
              let (b, st') :=
                process_channels downloader (max_videos_per_channel args) channels
                                 (MkBatch [] [] fs, st) in
              let log := print_stats (stats st') in
              Returns (Ok (MkRun (MkBatch (all_results b) (failed_channels b)
                                          (save_batch_results (all_results b) final_file
                                                              (files b)))
                                 st' log))
          end
      end
  end.

(** Any use of one instance: a sequence of method calls, whatever each
    returns or raises. *)
Inductive method_call :=
| GetChannelVideos (channel_url : str) (max_videos : option Z)
| DownloadVideoAudio (video_url channel_name : str)
| DownloadFromChannel (channel_url channel_name : str) (max_videos : option Z)
| PrintStats.

Definition call (self : YTDownloader) (c : method_call) (st : state) : state :=
  match c with
  | GetChannelVideos u m => snd (get_channel_videos self u m st)
  | DownloadVideoAudio u n => snd (download_video_audio self u n st)
  | DownloadFromChannel u n m => snd (download_from_channel self u n m st)
  | PrintStats => st
  end.

Definition calls_all (self : YTDownloader) (cs : list method_call) (st : state) : state :=
  fold_left (fun s c => call self c s) cs st.

End Orchestrator.

(* ------------------------------------------------------------------ *)
(** * Vocabulary of the statements, and small concrete worlds *)

(** No start position inside the prefix [p] of [url] matches the first
    pattern: no [v=] or [/] there is directly followed by eleven characters
    of the class. *)
Definition no_match_before (p url : str) : Prop :=
  forall i, i < length p -> pattern1_at (skipn i url) = None.

(** The counts a [ChannelOk] records agree with its list of results. *)
Definition counts_agree (c : ChannelResult) : Prop :=
  match c with
  | ChannelOk _ t s f videos => s + f = t /\ t = length videos
  | ChannelError _ _ => True
  end.

(** Every value of [all_results] that records counts records them right. *)
Definition all_agree {E : External} (b : batch) : Prop :=
  Forall (fun item => counts_agree (snd item)) (all_results b).

(** ** Reading the result files back *)

(** Readers for what [json.dump] and the codec emit, after RFC 3629 and
    RFC 8259. They serve to state what a file determines; the program
    itself never reads a result file. *)
Module JsonReader.

(** A continuation byte [10xxxxxx] and its six bits. *)
Definition continuation (b : Byte.byte) : option N :=
  let n := Byte.to_N b in
  (if (0x80 <=? n) && (n <? 0xC0) then Some (n - 0x80) else None)%N.

(** A decoded code point is kept when it needed that many bytes and is not
    a surrogate. *)
Definition scalar (lo c : N) : option N :=
  (if (lo <=? c) && (c <? 0x110000) && negb ((0xD800 <=? c) && (c <=? 0xDFFF))
   then Some c else None)%N.

Definition push (c : option N) (rest : option str) : option str :=
  match c, rest with
  | Some c, Some s => Some (c :: s)
  | _, _ => None
  end.

(** Strict UTF-8 decoding. *)
Fixpoint utf8_decode (bs : list Byte.byte) : option str :=
  match bs with
  | [] => Some []
  | b0 :: r0 =>
      let n0 := Byte.to_N b0 in
      (if n0 <? 0x80 then push (Some n0) (utf8_decode r0)
       else if n0 <? 0xC0 then None
       else if n0 <? 0xE0 then
         match r0 with
         | b1 :: r1 =>
             match continuation b1 with
             | Some c1 => push (scalar 0x80 ((n0 - 0xC0) * 64 + c1)) (utf8_decode r1)
             | None => None
             end
         | _ => None
         end
       else if n0 <? 0xF0 then
         match r0 with
         | b1 :: b2 :: r2 =>
             match continuation b1, continuation b2 with
             | Some c1, Some c2 =>
                 push (scalar 0x800 (((n0 - 0xE0) * 64 + c1) * 64 + c2))
                      (utf8_decode r2)
             | _, _ => None
             end
         | _ => None
         end
       else if n0 <? 0xF8 then
         match r0 with
         | b1 :: b2 :: b3 :: r3 =>
             match continuation b1, continuation b2, continuation b3 with
             | Some c1, Some c2, Some c3 =>
                 push (scalar 0x10000
                         ((((n0 - 0xF0) * 64 + c1) * 64 + c2) * 64 + c3))
                      (utf8_decode r3)
             | _, _, _ => None
             end
         | _ => None
         end
       else None)%N
  end.

(** JSON whitespace and the characters that end a bare literal. *)
Definition is_ws (c : char) : bool :=
  ((c =? 0x20) || (c =? 0x0A) || (c =? 0x0D) || (c =? 0x09))%N.

Definition is_structural (c : char) : bool :=
  (N.eqb c (ch "[") || N.eqb c (ch "]") || N.eqb c (ch "{") || N.eqb c (ch "}")
   || N.eqb c (ch ",") || N.eqb c (ch ":") || N.eqb c QUOTE).

Definition is_token_char (c : char) : bool := negb (is_ws c || is_structural c).

Fixpoint skip_ws (s : str) : str :=
  match s with
  | c :: t => if is_ws c then skip_ws t else s
  | [] => []
  end.

(** The longest run of literal characters at the head of [s], and the rest. *)
Fixpoint take_token (s : str) : str * str :=
  match s with
  | c :: t =>
      if is_token_char c then let (a, b) := take_token t in (c :: a, b)
      else ([], s)
  | [] => ([], [])
  end.

Definition hex_value (c : char) : option N :=
  (if (ch "0" <=? c) && (c <=? ch "9") then Some (c - ch "0")
   else if (ch "a" <=? c) && (c <=? ch "f") then Some (c - ch "a" + 10)
   else if (ch "A" <=? c) && (c <=? ch "F") then Some (c - ch "A" + 10)
   else None)%N.

(** The character a two-character escape stands for. *)
Definition unescape (c : char) : option char :=
  if N.eqb c QUOTE then Some QUOTE
  else if N.eqb c BACKSLASH then Some BACKSLASH
  else if N.eqb c (ch "/") then Some (ch "/")
  else if N.eqb c (ch "b") then Some 0x08%N
  else if N.eqb c (ch "f") then Some 0x0C%N
  else if N.eqb c (ch "n") then Some 0x0A%N
  else if N.eqb c (ch "r") then Some 0x0D%N
  else if N.eqb c (ch "t") then Some 0x09%N
  else None.

Definition grow (c : char) (r : option (str * str)) : option (str * str) :=
  match r with
  | Some (body, rest) => Some (c :: body, rest)
  | None => None
  end.

(** A string body up to its closing quote: the characters it stands for,
    and what follows the quote. A raw control character is refused. *)
Fixpoint read_body (s : str) : option (str * str) :=
  match s with
  | [] => None
  | c :: t =>
      if N.eqb c QUOTE then Some ([], t)
      else if N.eqb c BACKSLASH then
        match t with
        | [] => None
        | e :: t1 =>
            if N.eqb e (ch "u") then
              match t1 with
              | h1 :: h2 :: h3 :: h4 :: t2 =>
                  match hex_value h1, hex_value h2, hex_value h3, hex_value h4 with
                  | Some a, Some b, Some c', Some d =>
                      grow (((a * 16 + b) * 16 + c') * 16 + d)%N (read_body t2)
                  | _, _, _, _ => None
                  end
              | _ => None
              end
            else
              match unescape e with
              | Some c' => grow c' (read_body t1)
              | None => None
              end
        end
      else if (c <? 0x20)%N then None
      else grow c (read_body t)
  end.

Definition is_digit (c : char) : bool := ((ch "0" <=? c) && (c <=? ch "9"))%N.

Definition is_sign_or_digit (c : char) : bool := is_digit c || N.eqb c (ch "-").

Definition to_string (t : str) : string :=
  string_of_list_ascii (map ascii_of_N t).

(** An integer literal: an optional minus and digits. *)
Definition read_int (t : str) : option Z :=
  if forallb is_sign_or_digit t
  then option_map Z.of_int (NilZero.int_of_string (to_string t))
  else None.

Definition is_float_mark (c : char) : bool :=
  N.eqb c (ch ".") || N.eqb c (ch "e") || N.eqb c (ch "E").

(** The texts [json] emits for a float: [float.__repr__], which has a
    point or an exponent, and the three names of the non-finite values. *)
Definition float_text (t : str) : bool :=
  str_eqb t (lit "NaN") || str_eqb t (lit "Infinity")
  || str_eqb t (lit "-Infinity")
  || (match t with c :: _ => is_sign_or_digit c | [] => false end
      && forallb (fun c => is_sign_or_digit c || is_float_mark c
                           || N.eqb c (ch "+")) t
      && existsb is_float_mark t).

Definition read_literal (t : str) : option json :=
  if str_eqb t (lit "null") then Some JNull
  else if str_eqb t (lit "true") then Some (JBool true)
  else if str_eqb t (lit "false") then Some (JBool false)
  else if forallb is_sign_or_digit t then option_map JInt (read_int t)
  else if float_text t then Some (JFloat t)
  else None.

(** A JSON value at the head of [s], after any whitespace, and what
    follows it. [fuel] bounds the nesting and the number of items. *)
Fixpoint read_value (fuel : nat) (s : str) : option (json * str) :=
  match fuel with
  | O => None
  | S fuel =>
      match skip_ws s with
      | [] => None
      | c :: t =>
          if N.eqb c QUOTE then
            match read_body t with
            | Some (b, r) => Some (JStr b, r)
            | None => None
            end
          else if N.eqb c (ch "[") then
            match skip_ws t with
            | d :: t' =>
                if N.eqb d (ch "]") then Some (JList [], t')
                else read_items fuel (d :: t') []
            | [] => None
            end
          else if N.eqb c (ch "{") then
            match skip_ws t with
            | d :: t' =>
                if N.eqb d (ch "}") then Some (JDict [], t')
                else read_members fuel (d :: t') []
            | [] => None
            end
          else
            let (tok, r) := take_token (c :: t) in
            match read_literal tok with
            | Some j => Some (j, r)
            | None => None
            end
      end
  end
with read_items (fuel : nat) (s : str) (acc : list json) : option (json * str) :=
  match fuel with
  | O => None
  | S fuel =>
      match read_value fuel s with
      | Some (j, r) =>
          match skip_ws r with
          | c :: t =>
              if N.eqb c (ch ",") then read_items fuel t (j :: acc)
              else if N.eqb c (ch "]") then Some (JList (rev (j :: acc)), t)
              else None
          | [] => None
          end
      | None => None
      end
  end
with read_members (fuel : nat) (s : str) (acc : list (str * json))
    : option (json * str) :=
  match fuel with
  | O => None
  | S fuel =>
      match skip_ws s with
      | q :: t =>
          if N.eqb q QUOTE then
            match read_body t with
            | Some (k, r) =>
                match skip_ws r with
                | c :: r' =>
                    if N.eqb c (ch ":") then
                      match read_value fuel r' with
                      | Some (v, r2) =>
                          match skip_ws r2 with
                          | d :: t2 =>
                              if N.eqb d (ch ",")
                              then read_members fuel t2 ((k, v) :: acc)
                              else if N.eqb d (ch "}")
                              then Some (JDict (rev ((k, v) :: acc)), t2)
                              else None
                          | [] => None
                          end
                      | None => None
                      end
                    else None
                | [] => None
                end
            | None => None
            end
          else None
      | [] => None
      end
  end.

(** A whole text: one value and nothing but whitespace after it. *)
Definition loads (fuel : nat) (text : str) : option json :=
  match read_value fuel text with
  | Some (j, r) => match skip_ws r with [] => Some j | _ => None end
  | None => None
  end.

(** The floats of a value are carried by float texts. *)
Fixpoint well_formed (j : json) : bool :=
  match j with
  | JFloat t => float_text t
  | JList l => forallb well_formed l
  | JDict kv => forallb (fun item => well_formed (snd item)) kv
  | _ => true
  end.

(** One member of an object: the key, [": "], the value. *)
Definition member_text (level : nat) (item : str * json) : str :=
  encode_str (fst item) ++ lit ": " ++ dumps_at level (snd item).

(** A rest of text before which a bare literal ends. *)
Definition delimited (rest : str) : Prop :=
  match rest with
  | [] => True
  | c :: _ => is_token_char c = false
  end.

(** The text of [j], at any nesting and before any such rest, reads back
    as [j], given fuel enough. *)
Definition reads_back (j : json) : Prop :=
  well_formed j = true ->
  forall level rest, delimited rest ->
  exists n, forall fuel, n <= fuel ->
    read_value fuel (dumps_at level j ++ rest) = Some (j, rest).

(** A text without a line break. *)
Definition plain (s : str) : Prop :=
  forallb (fun c => negb (N.eqb c LF)) s = true.

(** [text] with every line after the first moved right by two columns. *)
Definition indent_more (text : str) : str :=
  flat_map (fun c => if N.eqb c LF then LF :: lit "  " else [c]) text.

End JsonReader.

Module Demo.

(** A world without memory: each collaborator answers by a fixed table. *)
Record script := Script {
  on_mkdir : str -> res unit;
  on_enumerate : str -> res flat_info;
  on_download : str -> res (option info);
  on_write : str -> res unit;
  on_sleep : res unit
}.

Definition scripted (sc : script) : External := {|
  World := unit;
  seconds := Z;
  joinpath := fun a b => a ++ lit "/" ++ b;
  path_exists := fun _ _ => false;
  mkdir := fun _ p w => (on_mkdir sc p, w);
  ydl_extract_flat := fun _ url w => (on_enumerate sc url, w);
  ydl_download := fun _ url w => (on_download sc url, w);
  write_text := fun p _ w => (on_write sc p, w);
  strftime := fun _ => lit "2024-01-01 00:00:00";
  random_sleep := fun _ _ w => (on_sleep sc, w)
|}.

Definition downloader (sc : script) : @YTDownloader (scripted sc) :=
  @MkDownloader (scripted sc) (lit "downloads") 5%Z 10%Z 1 (lit "500K") 3 None.

Definition start (sc : script) : @state (scripted sc) :=
  @MkState (scripted sc) init_stats tt [].

Definition vid1 : str := lit "BFudEmWtgAc".
Definition vid2 : str := lit "dQw4w9WgXcQ".
Definition watch1 : str := lit "https://www.youtube.com/watch?v=BFudEmWtgAc".

(** Everything succeeds; a channel lists [vid1] and [vid2]. *)
Definition fine : script :=
  Script (fun _ => Ok tt)
         (fun _ => Ok (FlatEntries [EntryId vid1; EntryFalsy; EntryId vid2]))
         (fun _ => Ok (Some [(lit "id", JStr vid1)]))
         (fun _ => Ok tt)
         (Ok tt).

(** The library raises on every download. *)
Definition forbidden : script :=
  Script (fun _ => Ok tt)
         (fun _ => Ok (FlatEntries [EntryId vid1; EntryId vid2]))
         (fun _ => Raise (Exn (lit "HTTP Error 403: Forbidden")))
         (fun _ => Ok tt)
         (Ok tt).

(** The video directory cannot be created. *)
Definition read_only : script :=
  Script (fun p => if str_eqb p (lit "downloads") then Ok tt
                   else Raise (Exn (lit "[Errno 13] Permission denied")))
         (fun _ => Ok (FlatEntries [EntryId vid1]))
         (fun _ => Ok (Some [(lit "id", JStr vid1)]))
         (fun _ => Ok tt)
         (Ok tt).

(** Channel [good] downloads; the directory of channel [bad] cannot be
    created, so [download_from_channel] raises for it. *)
Definition second_fails : script :=
  Script (fun p => if str_eqb p (lit "downloads/bad/BFudEmWtgAc")
                   then Raise (Exn (lit "[Errno 13] Permission denied"))
                   else Ok tt)
         (fun _ => Ok (FlatEntries [EntryId vid1]))
         (fun _ => Ok (Some [(lit "id", JStr vid1)]))
         (fun _ => Ok tt)
         (Ok tt).

(** The channel lists an entry whose id is not an 11-character ID. *)
Definition short_id : script :=
  Script (fun _ => Ok tt)
         (fun _ => Ok (FlatEntries [EntryId (lit "abc")]))
         (fun _ => Ok (Some [(lit "id", JStr (lit "abc"))]))
         (fun _ => Ok tt)
         (Ok tt).

Definition two_channels : str :=
  lit "good,https://x/channel/G" ++ [LF] ++ lit "bad,https://x/channel/B".

(** The command line with every flag at its default. *)
Definition default_args (sc : script) : @Args (scripted sc) :=
  @MkArgs (scripted sc) (lit "creative_cc_50_yt_channels.txt") (lit "downloads")
          5%Z 10%Z (lit "500K") None None None 0.

(** A string body between quotes. *)
Definition quoted (s : str) : str := QUOTE :: s ++ [QUOTE].

(** A results mapping with a non-ASCII channel name, and its JSON text. *)
Definition sample_results : dict ChannelResult :=
  [([0x8A69; 0x8A69]%N ++ lit "fly", ChannelError (lit "https://x") (lit "boom"));
   (lit "leon", ChannelOk (lit "https://y") 1 0 1 [InvalidUrl (lit "u")])].

Definition sample_text : str :=
  join [LF]
    [lit "{";
     lit "  " ++ quoted ([0x8A69; 0x8A69]%N ++ lit "fly") ++ lit ": {";
     lit "    " ++ quoted (lit "channel_url") ++ lit ": " ++ quoted (lit "https://x") ++ lit ",";
     lit "    " ++ quoted (lit "status") ++ lit ": " ++ quoted (lit "error") ++ lit ",";
     lit "    " ++ quoted (lit "error") ++ lit ": " ++ quoted (lit "boom");
     lit "  },";
     lit "  " ++ quoted (lit "leon") ++ lit ": {";
     lit "    " ++ quoted (lit "channel_url") ++ lit ": " ++ quoted (lit "https://y") ++ lit ",";
     lit "    " ++ quoted (lit "total_videos") ++ lit ": 1,";
     lit "    " ++ quoted (lit "successful") ++ lit ": 0,";
     lit "    " ++ quoted (lit "failed") ++ lit ": 1,";
     lit "    " ++ quoted (lit "videos") ++ lit ": [";
     lit "      {";
     lit "        " ++ quoted (lit "video_url") ++ lit ": " ++ quoted (lit "u") ++ lit ",";
     lit "        " ++ quoted (lit "status") ++ lit ": " ++ quoted (lit "failed") ++ lit ",";
     lit "        " ++ quoted (lit "error") ++ lit ": " ++ quoted (lit "Invalid video URL");
     lit "      }";
     lit "    ]";
     lit "  }";
     lit "}"].

End Demo.

(* ------------------------------------------------------------------ *)
(** * The test drivers, an instrumented world, and more vocabulary *)

(** [f"https://www.youtube.com/watch?v={video_id}"] *)
Definition watch_url (video_id : str) : str :=
  lit "https://www.youtube.com/watch?v=" ++ video_id.

(** The ids of the entries that have one, in order. *)
Definition entry_ids (entries : list entry) : list str :=
  flat_map (fun e => match entry_id e with Some i => [i] | None => [] end) entries.

(** What a cap of [max_videos] keeps of a list: [None] and 0 keep all of it,
    a positive cap its first elements, a negative one its first element. *)
Definition capped {A} (max_videos : option Z) (l : list A) : list A :=
  match max_videos with
  | None => l
  | Some m =>
      if (m =? 0)%Z then l
      else if (0 <? m)%Z then firstn (Z.to_nat m) l
      else firstn 1 l
  end.

(** [r['video_url']] *)
Definition result_url (r : VideoResult) : str :=
  match r with
  | InvalidUrl u => u
  | Success u _ _ _ _ _ => u
  | Failure u _ _ _ => u
  end.

(** The library call behind a result: none for the early return. *)
Definition library_calls_of (r : VideoResult) : list lib_call :=
  match r with
  | InvalidUrl _ => []
  | Success u _ _ _ _ _ => [CallDownload u]
  | Failure u _ _ _ => [CallDownload u]
  end.

Definition is_invalid (r : VideoResult) : bool :=
  match r with
  | InvalidUrl _ => true
  | _ => false
  end.

Definition count_invalid (results : list VideoResult) : nat :=
  length (filter is_invalid results).

(** The channel-level errors of a results mapping, in its order. *)
Definition errors_of (d : dict ChannelResult) : list (str * str) :=
  flat_map (fun item => match snd item with
                        | ChannelError _ e => [(fst item, e)]
                        | ChannelOk _ _ _ _ _ => []
                        end) d.

Definition within_cap (N : nat) (c : ChannelResult) : Prop :=
  match c with
  | ChannelOk _ t _ _ videos => t <= N /\ length videos <= N
  | ChannelError _ _ => True
  end.


(** [d.get(k)] on a mapping *)
Fixpoint dict_lookup {V} (d : dict V) (k : str) : option V :=
  match d with
  | [] => None
  | (k', v) :: rest => if str_eqb k' k then Some v else dict_lookup rest k
  end.

(** Any world, with a counter of the calls of [time.sleep] beside it. *)
Definition counting (E : External) : External := {|
  World := (@World E * nat)%type;
  seconds := @seconds E;
  joinpath := @joinpath E;
  path_exists := fun p w => @path_exists E p (fst w);
  mkdir := fun b p w =>
    let (r, w') := @mkdir E b p (fst w) in (r, (w', snd w));
  ydl_extract_flat := fun c u w =>
    let (r, w') := @ydl_extract_flat E c u (fst w) in (r, (w', snd w));
  ydl_download := fun o u w =>
    let (r, w') := @ydl_download E o u (fst w) in (r, (w', snd w));
  write_text := fun p t w =>
    let (r, w') := @write_text E p t (fst w) in (r, (w', snd w));
  strftime := fun w => @strftime E (fst w);
  random_sleep := fun lo hi w =>
    let (r, w') := @random_sleep E lo hi (fst w) in (r, (w', S (snd w)))
|}.

(** [p in s] for strings: [s] has [p] as a substring. *)
Fixpoint has_prefix (p s : str) : bool :=
  match p with
  | [] => true
  | a :: p' =>
      match s with
      | c :: t => N.eqb a c && has_prefix p' t
      | [] => false
      end
  end.

Fixpoint contains_sub (p s : str) : bool :=
  has_prefix p s
  || match s with
     | [] => false
     | _ :: t => contains_sub p t
     end.

Section Drivers.
Context {E : External}.

(** ** [test_sample_channels.py] *)

Definition test_channels : list (str * str) :=
  [(lit "leon", lit "https://www.youtube.com/channel/UCLFgJS-f6UKOJ3Xz0K8Kosg");
   ([0x8A69; 0x8A69]%N ++ lit "fly",
    lit "https://www.youtube.com/channel/UC9nijyKbu2cQ0lrK6RyGLsw")].

(** The body of the loop of [test_sample_channels]: as in the batch, with
    [max_videos=3] and without a checkpoint. *)
Definition test_channel (downloader : YTDownloader) (c : str * str)
    (acc : dict ChannelResult * state) : dict ChannelResult * state :=
  let (all, st) := acc in
  let (channel_name, channel_url) := c in
  match download_from_channel downloader channel_url channel_name (Some 3%Z) st with
  | (Ok results, st') =>
      (dict_set all channel_name
         (ChannelOk channel_url (length results)
                    (count_status "success" results)
                    (count_status "failed" results)
                    results), st')
  | (Raise e, st') =>
      (dict_set all channel_name (ChannelError channel_url (exn_msg e)), st')
  end.

(** [video['status'] == 'failed' and '403' in str(video.get('error', ''))] *)
Definition video_has_403 (video : VideoResult) : bool :=
  str_eqb (status video) (lit "failed")
  && contains_sub (lit "403")
       (match error_of video with Some e => e | None => [] end).

(** The [has_403] flag: only entries with a ['videos'] key are looked at. *)
Definition has_403 (all_results : dict ChannelResult) : bool :=
  existsb (fun item => match snd item with
                       | ChannelOk _ _ _ _ videos => existsb video_has_403 videos
                       | ChannelError _ _ => false
                       end) all_results.

(** [test_sample_channels()]: the mapping it returns and the flag it
    computes; [five] and [ten] are the floats 5.0 and 10.0. *)
Definition test_sample_channels (five ten : seconds) (w : World)
    : res (dict ChannelResult * bool) * state :=
  match __init__ (lit "test_downloads") five ten 1 (lit "500K") 3 None w with
  | (Raise e, st) => (Raise e, st)
  | (Ok downloader, st) =>
      let (all, st') :=
        fold_left (fun acc c => test_channel downloader c acc) test_channels
                  ([], st) in
      (Ok (all, has_403 all), st')
  end.

(** ** [main] of [yt_downloader.py] *)

Definition test_url : str := lit "https://www.youtube.com/watch?v=BFudEmWtgAc".

(** One download of [test_url]: what it prints and what [print_stats] logs. *)
Definition downloader_main (five ten : seconds) (w : World)
    : res (str * list str) * state :=
  match __init__ (lit "downloads") five ten 1 (lit "500K") 3 None w with
  | (Raise e, st) => (Raise e, st)
  | (Ok downloader, st) =>
      match download_video_audio downloader test_url (lit "test_channel") st with
      | (Raise e, st') => (Raise e, st')
      | (Ok result, st') =>
          (Ok (LF :: lit "Result: " ++ dumps (video_json result),
               print_stats (stats st')), st')
      end
  end.

End Drivers.

Module Demo2.
Import Demo.

(** The enumeration raises. *)
Definition unlisted : script :=
  Script (fun _ => Ok tt)
         (fun _ => Raise (Exn (lit "HTTP Error 404: Not Found")))
         (fun _ => Ok (Some [(lit "id", JStr vid1)]))
         (fun _ => Ok tt)
         (Ok tt).

(** The download works and the metadata file cannot be written. *)
Definition disk_full : script :=
  Script (fun _ => Ok tt)
         (fun _ => Ok (FlatEntries [EntryId vid1]))
         (fun _ => Ok (Some [(lit "id", JStr vid1)]))
         (fun _ => Raise (Exn (lit "[Errno 28] No space left on device")))
         (Ok tt).

(** The library answers with an empty info dict. *)
Definition no_info : script :=
  Script (fun _ => Ok tt)
         (fun _ => Ok (FlatEntries [EntryId vid1]))
         (fun _ => Ok (Some []))
         (fun _ => Ok tt)
         (Ok tt).

Definition counted (sc : script) : External := counting (scripted sc).

Definition counted_downloader (sc : script) : @YTDownloader (counted sc) :=
  @MkDownloader (counted sc) (lit "downloads") 5%Z 10%Z 1 (lit "500K") 3 None.

Definition counted_start (sc : script) : @state (counted sc) :=
  @MkState (counted sc) init_stats (tt, 0) [].

(** The command line with [--start-from n]. *)
Definition args_from (sc : script) (n : Z) : @Args (scripted sc) :=
  @MkArgs (scripted sc) (lit "creative_cc_50_yt_channels.txt") (lit "downloads")
          5%Z 10%Z (lit "500K") None None None n.

(** The command line with [--max-videos-per-channel n]. *)
Definition args_cap (sc : script) (n : Z) : @Args (scripted sc) :=
  @MkArgs (scripted sc) (lit "creative_cc_50_yt_channels.txt") (lit "downloads")
          5%Z 10%Z (lit "500K") (Some n) None None 0.

(** The metadata of the one video the world [fine] downloads. *)
Definition fine_metadata : json :=
  match fst (_extract_metadata [(lit "id", JStr vid1)] (lit "leon") watch1
                               (start fine)) with
  | Ok m => m
  | Raise _ => JNull
  end.

(** One channel call in the world [fine], and what it leaves. *)
Definition fine_channel_run :=
  download_from_channel (downloader fine) (lit "https://x/channel/A")
                        (lit "leon") None (start fine).

Definition fine_results : list VideoResult :=
  match fst fine_channel_run with Ok rs => rs | Raise _ => [] end.

Definition fine_state : @state (scripted fine) := snd fine_channel_run.

(** The same in the world [short_id]. *)
Definition short_channel_run :=
  download_from_channel (downloader short_id) (lit "https://x/channel/A")
                        (lit "leon") None (start short_id).

Definition short_state : @state (scripted short_id) := snd short_channel_run.

(** The same in the world [fine] with its sleeps counted. *)
Definition counted_channel_run :=
  download_from_channel (counted_downloader fine) (lit "https://x/channel/A")
                        (lit "leon") None (counted_start fine).

Definition counted_results : list VideoResult :=
  match fst counted_channel_run with Ok rs => rs | Raise _ => [] end.

Definition counted_state : @state (counted fine) := snd counted_channel_run.

End Demo2.

(* ================================================================== *)
(** * Properties *)

Unset Implicit Arguments.

(** ** Strings *)

Section StringFacts.

Lemma str_eqb_eq (a b : str) : str_eqb a b = true <-> a = b.
Proof.
  unfold str_eqb. destruct (list_eq_dec N.eq_dec a b); split; congruence.
Qed.

Lemma lstrip_snoc (l : str) (c : char) :
  isspace c = false -> lstrip (l ++ [c]) = lstrip l ++ [c].
Proof.
  intros Hc. induction l as [|x l IH]; simpl.
  - now rewrite Hc.
  - destruct (isspace x); [exact IH | reflexivity].
Qed.

Lemma rstrip_cons (c : char) (t : str) :
  isspace c = false -> rstrip (c :: t) = c :: rstrip t.
Proof.
  intros Hc. unfold rstrip. simpl rev at 2.
  rewrite lstrip_snoc by exact Hc.
  rewrite rev_app_distr. reflexivity.
Qed.

Lemma lstrip_keeps (x : char) (s : str) :
  isspace x = false -> In x s -> In x (lstrip s).
Proof.
  intros Hx. induction s as [|c s IH]; simpl; [tauto|].
  intros [->|Hin].
  - rewrite Hx. now left.
  - destruct (isspace c); [auto | now right].
Qed.

Lemma lstrip_incl (s : str) : incl (lstrip s) s.
Proof.
  induction s as [|c s IH]; simpl; [apply incl_refl|].
  destruct (isspace c); [now apply incl_tl | apply incl_refl].
Qed.

Lemma strip_keeps (x : char) (s : str) :
  isspace x = false -> In x s -> In x (strip s).
Proof.
  intros Hx Hin. unfold strip, rstrip.
  rewrite <- in_rev. apply lstrip_keeps; [exact Hx|].
  rewrite <- in_rev. now apply lstrip_keeps.
Qed.

Lemma strip_incl (s : str) : incl (strip s) s.
Proof.
  unfold strip, rstrip. intros x Hx.
  rewrite <- in_rev in Hx. apply lstrip_incl in Hx.
  rewrite <- in_rev in Hx. now apply lstrip_incl.
Qed.

Lemma contains_In (c : char) (s : str) : contains c s = true <-> In c s.
Proof.
  unfold contains. rewrite existsb_exists. split.
  - intros (x & Hin & Heq). apply N.eqb_eq in Heq. now subst.
  - intros Hin. exists c. split; [exact Hin | apply N.eqb_refl].
Qed.

Lemma contains_strip (c : char) (s : str) :
  isspace c = false -> contains c (strip s) = contains c s.
Proof.
  intros Hc. apply eq_true_iff_eq. rewrite !contains_In. split.
  - apply strip_incl.
  - now apply strip_keeps.
Qed.

Lemma strip_startswith (c : char) (s : str) :
  isspace c = false -> startswith s c = true -> startswith (strip s) c = true.
Proof.
  intros Hc. destruct s as [|x t]; simpl; [discriminate|].
  intros Hx. apply N.eqb_eq in Hx. subst x.
  unfold strip. simpl. rewrite Hc. rewrite rstrip_cons by exact Hc.
  simpl. apply N.eqb_refl.
Qed.

Lemma cut_first_spec (sep : char) (s : str) :
  contains sep s = true ->
  exists a b, cut_first sep s = Some (a, b)
              /\ s = a ++ sep :: b /\ contains sep a = false.
Proof.
  induction s as [|c t IH]; simpl; [discriminate|].
  destruct (N.eqb_spec c sep) as [->|Hne].
  - intros _. exists [], t. auto.
  - assert (Hsc : N.eqb sep c = false)
      by (apply N.eqb_neq; congruence).
    rewrite Hsc. simpl. intros Hin.
    destruct (IH Hin) as (a & b & Hcut & Heq & Hno).
    exists (c :: a), b. rewrite Hcut. simpl. rewrite Hsc, Hno.
    repeat split. now rewrite Heq.
Qed.

Lemma cut_first_none (sep : char) (s : str) :
  contains sep s = false -> cut_first sep s = None.
Proof.
  induction s as [|c t IH]; simpl; [reflexivity|].
  destruct (N.eqb_spec sep c) as [->|Hne]; simpl; [discriminate|].
  intros Hno. rewrite (IH Hno).
  destruct (N.eqb_spec c sep); [congruence | reflexivity].
Qed.

End StringFacts.

(** ** Channel List Reader *)

Module ChannelListFacts.
Import ChannelList.

Lemma read_line_channels (n : nat) (raw : str) (acc : reader) :
  channels (read_line n raw acc) = channels acc ++ line_entries raw.
Proof.
  unfold line_entries, read_line.
  set (line := strip raw).
  destruct (_ || startswith line HASH); cbn [channels];
    [now rewrite app_nil_r|].
  destruct (contains COMMA line); cbn [channels]; [|now rewrite app_nil_r].
  destruct (split1 COMMA line) as [|p0 [|p1 [|p2 ps]]];
    cbn [channels app]; now rewrite ?app_nil_r.
Qed.

Lemma read_lines_channels (ls : list str) (n : nat) (acc : reader) :
  channels (read_lines n ls acc) = channels acc ++ flat_map line_entries ls.
Proof.
  revert n acc. induction ls as [|l ls IH]; intros n acc; simpl.
  - now rewrite app_nil_r.
  - rewrite IH, read_line_channels, <- app_assoc. reflexivity.
Qed.

Lemma skipped_line_entries (raw : str) :
  skipped_line raw -> line_entries raw = [].
Proof.
  unfold line_entries, read_line.
  set (line := strip raw).
  assert (Hcomma : contains COMMA line = contains COMMA raw)
    by (apply contains_strip; reflexivity).
  intros [H | [H | [H | H]]].
  - fold line in H. rewrite H. reflexivity.
  - apply strip_startswith in H; [|reflexivity]. fold line in H.
    rewrite H, orb_true_r. reflexivity.
  - fold line in H. rewrite H, orb_true_r. reflexivity.
  - rewrite Hcomma, H. destruct (_ || _); reflexivity.
Qed.

End ChannelListFacts.

Module ChannelListProps.
Import ChannelList ChannelListFacts.

(** C7 fails as stated: a comment line may contain a comma, and the reader
    passes over it before it looks for the separator. *)
Lemma comment_line_with_comma_yields_no_entry :
  contains COMMA (lit "#A,B") = true
  /\ read_channel_list (Text (lit "#A,B")) = Returns (Reader [] []).
Proof. split; reflexivity. Qed.

(** C7 (amended): a line that contains a comma and, once stripped, does not
    start with [#] is cut at its first comma and both parts are stripped;
    the line [A,B,C] gives exactly the entry (A, "B,C"). *)
Theorem read_line_splits_on_first_comma
    (line_num : nat) (raw : str) (acc : reader) :
  contains COMMA raw = true ->
  startswith (strip raw) HASH = false ->
  (exists name url,
      strip raw = name ++ COMMA :: url
      /\ contains COMMA name = false
      /\ channels (read_line line_num raw acc)
         = channels acc ++ [(strip name, strip url)])
  /\ read_channel_list (Text (lit "A,B,C"))
     = Returns (Reader [(lit "A", lit "B,C")] []).
Proof.
  intros Hcomma Hhash. split; [|reflexivity].
  rewrite <- (contains_strip COMMA raw) in Hcomma by reflexivity.
  destruct (cut_first_spec _ _ Hcomma) as (a & b & Hcut & Heq & Hno).
  exists a, b. repeat split; try assumption.
  unfold read_line. set (line := strip raw) in *.
  rewrite Hhash, Hcomma, orb_false_r.
  destruct line as [|c t] eqn:Hline.
  - destruct a; discriminate.
  - unfold split1. rewrite Hcut. reflexivity.
Qed.

Lemma read_line_splits_on_first_comma_witness :
  (exists name url,
      strip (lit " A , B,C ") = name ++ COMMA :: url
      /\ contains COMMA name = false
      /\ channels (read_line 1 (lit " A , B,C ") (Reader [] []))
         = [] ++ [(strip name, strip url)])
  /\ read_channel_list (Text (lit "A,B,C"))
     = Returns (Reader [(lit "A", lit "B,C")] []).
Proof.
  apply (read_line_splits_on_first_comma 1 (lit " A , B,C ") (Reader [] []));
    reflexivity.
Defined.

Lemma read_channel_list_all_skipped (text : str) :
  Forall skipped_line (file_lines text) ->
  exists r, read_channel_list (Text text) = Returns r /\ channels r = [].
Proof.
  intros Hall. eexists. split; [reflexivity|].
  rewrite read_lines_channels. cbn [channels app].
  induction Hall as [|l ls Hl _ IH]; [reflexivity|].
  cbn [flat_map]. now rewrite (skipped_line_entries _ Hl), IH.
Qed.

(** C8: a line that is blank once stripped, starts with [#], or has no
    comma adds no entry; reading any text returns (it neither raises nor
    exits); and the scenario file gives exactly its two entries, in order. *)
Theorem read_line_skips_blank_comment_commaless
    (line_num : nat) (raw : str) (acc : reader) (text : str) :
  skipped_line raw ->
  channels (read_line line_num raw acc) = channels acc
  /\ (exists r, read_channel_list (Text text) = Returns r)
  /\ (exists r, read_channel_list (Text scenario) = Returns r
                /\ channels r = [(lit "leon", lit "https://x/channel/AAA");
                                 (lit "foo", lit "https://x/channel/BBB")]).
Proof.
  intros Hskip. repeat split.
  - rewrite read_line_channels, (skipped_line_entries _ Hskip).
    apply app_nil_r.
  - eexists. reflexivity.
  - eexists. split; reflexivity.
Qed.

Lemma read_line_skips_blank_comment_commaless_witness :
  channels (read_line 4 (lit "bad-line") (Reader [(lit "leon", lit "u")] []))
  = [(lit "leon", lit "u")]
  /\ (exists r, read_channel_list (Text (lit "# only a comment")) = Returns r)
  /\ (exists r, read_channel_list (Text scenario) = Returns r
                /\ channels r = [(lit "leon", lit "https://x/channel/AAA");
                                 (lit "foo", lit "https://x/channel/BBB")]).
Proof.
  apply (read_line_skips_blank_comment_commaless 4 (lit "bad-line")
           (Reader [(lit "leon", lit "u")] []) (lit "# only a comment")).
  right. right. right. reflexivity.
Defined.

End ChannelListProps.

(** ** Video-ID extraction *)

Module VideoIdFacts.

Lemma take_id_app (vid rest : str) (n : nat) :
  length vid = n -> forallb id_char vid = true ->
  take_id n (vid ++ rest) = Some (vid, rest).
Proof.
  revert n. induction vid as [|c vid IH]; intros n Hlen Hall; simpl in *.
  - subst n. reflexivity.
  - destruct n as [|n]; [discriminate|].
    apply andb_prop in Hall. destruct Hall as [Hc Hall].
    simpl. rewrite Hc, (IH n); [reflexivity | lia | exact Hall].
Qed.

Lemma search_hit (m : str -> option str) (s g : str) :
  m s = Some g -> search m s = Some g.
Proof. intros H. destruct s; simpl; now rewrite H. Qed.

Lemma search_miss (m : str -> option str) (c : char) (s : str) :
  m (c :: s) = None -> search m (c :: s) = search m s.
Proof. intros H. simpl. now rewrite H. Qed.

(** [search] walks over a prefix in which no start position matches. *)
Lemma search_prefix (m : str -> option str) (p s : str) :
  (forall i, i < length p -> m (skipn i (p ++ s)) = None) ->
  search m (p ++ s) = search m s.
Proof.
  induction p as [|c p IH]; intros H; [reflexivity|].
  change ((c :: p) ++ s) with (c :: (p ++ s)).
  rewrite search_miss.
  - apply IH. intros i Hi. apply (H (S i)). simpl. lia.
  - apply (H 0). simpl. lia.
Qed.

Lemma search_none_everywhere (m : str -> option str) (s : str) :
  search m s = None -> forall k, m (skipn k s) = None.
Proof.
  induction s as [|c s IH]; simpl; intros H k.
  - destruct (m []) eqn:Hm; [discriminate|]. now destruct k.
  - destruct (m (c :: s)) eqn:Hm; [discriminate|].
    destruct k; simpl; [exact Hm | now apply IH].
Qed.

Lemma nowhere_search_none (m : str -> option str) (s : str) :
  (forall k, m (skipn k s) = None) -> search m s = None.
Proof.
  induction s as [|c s IH]; intros H.
  - pose proof (H 0) as H0. simpl in *. now rewrite H0.
  - rewrite search_miss; [|exact (H 0)].
    apply IH. intros k. exact (H (S k)).
Qed.

Lemma eat_skipn (p s r : str) : eat p s = Some r -> r = skipn (length p) s.
Proof.
  revert s. induction p as [|a p IH]; intros s; simpl.
  - congruence.
  - destruct s as [|c t]; [discriminate|].
    destruct (N.eqb a c); [apply IH | discriminate].
Qed.

Lemma lit_then_id_no_token (p s : str) :
  (forall k, token_at (skipn k s) = None) -> lit_then_id p s = None.
Proof.
  intros H. unfold lit_then_id.
  destruct (eat p s) as [r|] eqn:He; [|reflexivity].
  apply eat_skipn in He. subst r.
  specialize (H (length p)). unfold token_at in H.
  destruct (take_id 11 _) as [[g r]|]; [discriminate | reflexivity].
Qed.

Lemma no_token_tail (s : str) (j : nat) :
  (forall k, token_at (skipn k s) = None) ->
  forall k, token_at (skipn k (skipn j s)) = None.
Proof. intros H k. rewrite skipn_skipn. apply H. Qed.

(** Without eleven consecutive characters of the class no pattern matches. *)
Lemma no_token_no_id (url : str) :
  has_token url = false -> _extract_video_id url = None.
Proof.
  unfold has_token.
  destruct (search token_at url) eqn:Hs; [discriminate|]. intros _.
  pose proof (search_none_everywhere _ _ Hs) as Hall.
  unfold _extract_video_id, patterns, first_match.
  rewrite (nowhere_search_none pattern1_at).
  2:{ intros k. unfold pattern1_at.
      now rewrite !lit_then_id_no_token by (apply no_token_tail, Hall). }
  rewrite (nowhere_search_none pattern2_at).
  2:{ intros k. unfold pattern2_at.
      now rewrite lit_then_id_no_token by (apply no_token_tail, Hall). }
  unfold pattern3. specialize (Hall 0). unfold token_at in Hall.
  simpl skipn in Hall.
  destruct (take_id 11 url) as [[g r]|]; [discriminate | reflexivity].
Qed.

Lemma pattern1_at_v (vid rest : str) :
  valid_id vid -> pattern1_at (lit "v=" ++ vid ++ rest) = Some vid.
Proof.
  intros [Hlen Hall]. unfold pattern1_at, lit_then_id. cbn -[take_id].
  now rewrite (take_id_app vid rest 11 Hlen Hall).
Qed.

Lemma pattern1_at_slash (vid rest : str) :
  valid_id vid -> pattern1_at (lit "/" ++ vid ++ rest) = Some vid.
Proof.
  intros [Hlen Hall]. unfold pattern1_at, lit_then_id. cbn -[take_id].
  now rewrite (take_id_app vid rest 11 Hlen Hall).
Qed.

(** Checks the start positions of a literal prefix one by one. *)
Ltac each_position i Hi :=
  repeat (destruct i as [|i]; [reflexivity|]);
  exfalso; simpl in Hi; lia.

Lemma search_watch (vid rest : str) :
  valid_id vid ->
  search pattern1_at (lit "/watch?v=" ++ vid ++ rest) = Some vid.
Proof.
  intros Hv.
  change (lit "/watch?v=" ++ vid ++ rest)
    with (lit "/watch?" ++ (lit "v=" ++ vid ++ rest)).
  rewrite search_prefix.
  - apply search_hit, pattern1_at_v, Hv.
  - intros i Hi. each_position i Hi.
Qed.

Lemma extract_after_prefix (P vid rest : str) :
  valid_id vid ->
  no_match_before P (P ++ lit "/watch?v=" ++ vid ++ rest) ->
  _extract_video_id (P ++ lit "/watch?v=" ++ vid ++ rest) = Some vid.
Proof.
  intros Hv Hno. unfold _extract_video_id, patterns, first_match.
  rewrite (search_prefix pattern1_at P _ Hno).
  now rewrite (search_watch vid rest Hv).
Qed.

Lemma canonical_prefix_clear (tail : str) :
  no_match_before (lit "https://www.youtube.com")
                  (lit "https://www.youtube.com" ++ lit "/watch?v=" ++ tail).
Proof. intros i Hi. each_position i Hi. Qed.

Lemma extract_canonical (vid : str) :
  valid_id vid ->
  _extract_video_id (lit "https://www.youtube.com/watch?v=" ++ vid) = Some vid.
Proof.
  intros Hv.
  pose proof (extract_after_prefix (lit "https://www.youtube.com") vid [] Hv
                (canonical_prefix_clear _)) as H.
  rewrite app_nil_r in H. exact H.
Qed.

Lemma extract_short_link (vid : str) :
  valid_id vid ->
  _extract_video_id (lit "https://youtu.be/" ++ vid) = Some vid.
Proof.
  intros Hv. unfold _extract_video_id, patterns, first_match.
  change (lit "https://youtu.be/" ++ vid)
    with (lit "https://youtu.be" ++ (lit "/" ++ vid)).
  rewrite search_prefix.
  - rewrite <- (app_nil_r vid) at 1.
    now rewrite (search_hit _ _ _ (pattern1_at_slash vid [] Hv)).
  - intros i Hi. each_position i Hi.
Qed.

End VideoIdFacts.

(** ** Downloader *)

Section DownloaderFacts.
Context {E : External}.

Ltac run :=
  unfold bind, try_except, io, ask, update_stats, trace, ret, raise in *;
  cbn [fst snd stats world calls] in *.

Ltac split_match :=
  match goal with
  | |- context [match ?x with _ => _ end] => destruct x eqn:?
  end.

Lemma download_invalid (self : YTDownloader) (url channel_name : str) (st : state) :
  _extract_video_id url = None ->
  download_video_audio self url channel_name st = (Ok (InvalidUrl url), st).
Proof. intros H. unfold download_video_audio. now rewrite H. Qed.

(** The library raising: the [except] branch counts and reports it. *)
Lemma download_library_raises (self : YTDownloader) (url channel_name vid : str)
    (st : state) (e : exn) (w1 w2 : World) :
  _extract_video_id url = Some vid ->
  mkdir true (video_dir self channel_name vid) (world st) = (Ok tt, w1) ->
  ydl_download (_get_ydl_opts self (video_dir self channel_name vid) w1) url w1
  = (Raise e, w2) ->
  download_video_audio self url channel_name st
  = (Ok (Failure url vid channel_name (exn_msg e)),
     MkState (add_failed (stats st)) w2 (calls st ++ [CallDownload url])).
Proof.
  intros Hid Hmk Hlib. unfold download_video_audio. rewrite Hid. run.
  rewrite Hmk. run. rewrite Hlib. reflexivity.
Qed.

(** An exception leaves [download_video_audio] only from the [mkdir]. *)
Lemma download_raises_only_from_mkdir (self : YTDownloader)
    (url channel_name : str) (st st' : state) (e : exn) :
  download_video_audio self url channel_name st = (Raise e, st') ->
  exists vid w',
    _extract_video_id url = Some vid
    /\ mkdir true (video_dir self channel_name vid) (world st) = (Raise e, w').
Proof.
  unfold download_video_audio.
  destruct (_extract_video_id url) as [vid|]; [|discriminate].
  run.
  destruct (mkdir true _ (world st)) as [[[]|e0] w1] eqn:Hmk.
  - run. repeat split_match; discriminate.
  - intros H. inversion H; subst. now exists vid, w1.
Qed.

(** What one call of [download_video_audio] does to the counters, by the
    shape of what it returns. *)
Lemma download_outcome (self : YTDownloader) (url channel_name : str) (st : state) :
  match download_video_audio self url channel_name st with
  | (Raise _, st') => stats st' = stats st
  | (Ok (InvalidUrl _), st') => st' = st /\ _extract_video_id url = None
  | (Ok (Success _ _ _ _ _ _), st') =>
      stats st' = add_successful (stats st) /\ _extract_video_id url <> None
  | (Ok (Failure _ _ _ _), st') =>
      stats st' = add_failed (stats st) /\ _extract_video_id url <> None
  end.
Proof.
  unfold download_video_audio.
  destruct (_extract_video_id url) as [vid|] eqn:Hid; [|now split].
  run.
  destruct (mkdir true _ (world st)) as [[[]|e0] w1]; [|reflexivity].
  run.
  destruct (ydl_download _ url w1) as [[[[|item items]|]|e1] w2]; run;
    try (split; [reflexivity | discriminate]).
  unfold _extract_metadata. run.
  destruct (write_text _ _ w2) as [[[]|e2] w3]; run;
    (split; [reflexivity | discriminate]).
Qed.

Lemma download_keeps_skipped (self : YTDownloader) (url channel_name : str)
    (st : state) :
  skipped (stats (snd (download_video_audio self url channel_name st)))
  = skipped (stats st).
Proof.
  pose proof (download_outcome self url channel_name st) as H.
  destruct (download_video_audio self url channel_name st)
    as [[[u|u v c d m j|u v c e]|e] st']; cbn [snd].
  - destruct H as [H _]. now rewrite H.
  - destruct H as [H _]. now rewrite H.
  - destruct H as [H _]. now rewrite H.
  - now rewrite H.
Qed.

(** [get_channel_videos] returns, and what it returns. *)
Lemma get_channel_videos_spec (self : YTDownloader) (channel_url : str)
    (max_videos : option Z) (st : state) :
  exists urls st',
    get_channel_videos self channel_url max_videos st = (Ok urls, st')
    /\ stats st' = stats st
    /\ (urls = [] \/ exists entries, urls = collect_urls max_videos entries []).
Proof.
  unfold get_channel_videos. run.
  destruct (ydl_extract_flat _ channel_url (world st)) as [[[| |entries]|e] w'];
    run; eexists; eexists; (split; [reflexivity|]); split; try reflexivity;
    try (now left).
  right. now exists entries.
Qed.

Lemma download_each_keeps_skipped (self : YTDownloader) (channel_name : str)
    (urls : list str) (n idx : nat) (results : list VideoResult) (st : state) :
  skipped (stats (snd (download_each self channel_name n idx urls results st)))
  = skipped (stats st).
Proof.
  revert idx results st.
  induction urls as [|u urls IH]; intros idx results st; [reflexivity|].
  cbn [download_each]. unfold bind at 1.
  pose proof (download_keeps_skipped self u channel_name st) as Hd.
  destruct (download_video_audio self u channel_name st) as [[r|e] st1];
    cbn [snd] in *; [|exact Hd].
  unfold bind at 1.
  destruct (idx <? n).
  - unfold io at 1.
    destruct (random_sleep _ _ (world st1)) as [[[]|e] w2]; cbn [snd].
    + rewrite IH. exact Hd.
    + exact Hd.
  - unfold ret at 1. rewrite IH. exact Hd.
Qed.

Lemma download_from_channel_keeps_skipped (self : YTDownloader)
    (channel_url channel_name : str) (max_videos : option Z) (st : state) :
  skipped (stats (snd (download_from_channel self channel_url channel_name
                                             max_videos st)))
  = skipped (stats st).
Proof.
  unfold download_from_channel. unfold bind at 1.
  destruct (get_channel_videos_spec self channel_url max_videos st)
    as (urls & st1 & Hg & Hs & _).
  rewrite Hg. destruct urls as [|u urls].
  - cbn. now rewrite Hs.
  - unfold bind at 1, update_stats at 1.
    rewrite download_each_keeps_skipped. cbn. now rewrite Hs.
Qed.

(** A channel call that returns gives one result per enumerated URL. *)
Lemma download_each_length (self : YTDownloader) (channel_name : str)
    (urls : list str) (n idx : nat) (results rs : list VideoResult)
    (st st' : state) :
  download_each self channel_name n idx urls results st = (Ok rs, st') ->
  length rs = length results + length urls.
Proof.
  revert idx results st.
  induction urls as [|u urls IH]; intros idx results st; cbn [download_each].
  - unfold ret. intros H. inversion H. simpl. lia.
  - unfold bind at 1.
    destruct (download_video_audio self u channel_name st) as [[r|e] st1];
      [|discriminate].
    unfold bind at 1.
    destruct (idx <? n).
    + unfold io at 1.
      destruct (random_sleep _ _ (world st1)) as [[[]|e] w2]; [|discriminate].
      intros H. apply IH in H. rewrite length_app in H. simpl in *. lia.
    + unfold ret at 1. intros H. apply IH in H.
      rewrite length_app in H. simpl in *. lia.
Qed.

Lemma download_from_channel_length (self : YTDownloader)
    (channel_url channel_name : str) (max_videos : option Z)
    (st st' : state) (rs : list VideoResult) :
  download_from_channel self channel_url channel_name max_videos st = (Ok rs, st') ->
  exists urls st1,
    get_channel_videos self channel_url max_videos st = (Ok urls, st1)
    /\ length rs = length urls.
Proof.
  unfold download_from_channel. unfold bind at 1.
  destruct (get_channel_videos_spec self channel_url max_videos st)
    as (urls & st1 & Hg & _ & _).
  rewrite Hg. intros H. exists urls, st1. split; [reflexivity|].
  destruct urls as [|u urls].
  - unfold ret in H. now inversion H.
  - unfold bind at 1, update_stats at 1 in H.
    apply download_each_length in H. exact H.
Qed.

End DownloaderFacts.

Section DownloaderClaims.
Context {E : External}.

(** C2 (the code departs from it): on a URL without an extractable ID
    [download_video_audio] returns a result whose status is [failed] and
    leaves both [successful] and [failed] as they were. *)
Theorem invalid_url_moves_no_counter
    (self : YTDownloader) (channel_name : str) (st : state) :
  let url := lit "https://www.youtube.com/watch?v=abc" in
  let r := download_video_audio self url channel_name st in
  fst r = Ok (InvalidUrl url)
  /\ status (InvalidUrl url) = lit "failed"
  /\ successful (stats (snd r)) = successful (stats st)
  /\ failed (stats (snd r)) = failed (stats st).
Proof.
  intros url r. subst r.
  rewrite (download_invalid self url channel_name st) by reflexivity.
  repeat split.
Qed.

(** On every other path the counters do move: a call that extracts an ID
    and returns adds one to exactly one of [successful] and [failed]. *)
Lemma download_counts_exactly_one
    (self : YTDownloader) (url channel_name : str) (st st' : state)
    (r : VideoResult) :
  _extract_video_id url <> None ->
  download_video_audio self url channel_name st = (Ok r, st') ->
  (successful (stats st') = S (successful (stats st))
   /\ failed (stats st') = failed (stats st) /\ status r = lit "success")
  \/ (successful (stats st') = successful (stats st)
      /\ failed (stats st') = S (failed (stats st)) /\ status r = lit "failed").
Proof.
  intros Hid Hrun.
  pose proof (download_outcome self url channel_name st) as H.
  rewrite Hrun in H. destruct r as [u|u v c d m j|u v c e].
  - destruct H as [_ H]. contradiction.
  - left. destruct H as [H _]. rewrite H. repeat split.
  - right. destruct H as [H _]. rewrite H. repeat split.
Qed.

Lemma collect_urls_at_most (N : nat) (entries : list entry) (acc : list str) :
  length acc < N ->
  length (collect_urls (Some (Z.of_nat N)) entries acc) <= N.
Proof.
  revert acc. induction entries as [|e entries IH]; intros acc Hacc;
    cbn [collect_urls].
  - lia.
  - destruct (entry_id e) as [video_id|]; [|now apply IH].
    set (urls := acc ++ [lit "https://www.youtube.com/watch?v=" ++ video_id]).
    assert (Hlen : length urls = S (length acc))
      by (subst urls; rewrite length_app; simpl; lia).
    destruct (limit_reached (Some (Z.of_nat N)) urls) eqn:Hl.
    + lia.
    + apply IH. unfold limit_reached in Hl.
      apply andb_false_iff in Hl. destruct Hl as [Hl | Hl].
      * apply negb_false_iff, Z.eqb_eq in Hl. lia.
      * apply Z.leb_gt in Hl. lia.
Qed.

(** With [max_videos = 0] the test of the loop is never true: it gathers
    what it gathers without a cap. *)
Lemma collect_urls_zero (entries : list entry) (acc : list str) :
  collect_urls (Some 0%Z) entries acc = collect_urls None entries acc.
Proof.
  revert acc. induction entries as [|e entries IH]; intros acc;
    cbn [collect_urls]; [reflexivity|].
  destruct (entry_id e); [|apply IH].
  cbn [limit_reached Z.eqb negb andb]. apply IH.
Qed.

(** C4 (amended): with [max_videos = N] and [N >= 1], the list that
    [get_channel_videos] returns has at most [N] URLs, however many entries
    the enumeration yields. *)
Theorem get_channel_videos_at_most
    (self : YTDownloader) (channel_url : str) (N : nat) (st st' : state)
    (urls : list str) :
  1 <= N ->
  get_channel_videos self channel_url (Some (Z.of_nat N)) st = (Ok urls, st') ->
  length urls <= N.
Proof.
  intros HN Hrun.
  destruct (get_channel_videos_spec self channel_url (Some (Z.of_nat N)) st)
    as (urls' & st1 & Hg & _ & Hu).
  rewrite Hrun in Hg. inversion Hg; subst urls' st1.
  destruct Hu as [-> | [entries ->]]; [simpl; lia|].
  apply collect_urls_at_most. simpl. lia.
Qed.

(** C5: when the library raises [e] on a download, the call returns (it
    does not raise) a result with status [failed] whose error is [str(e)],
    and [failed] grows by one while [successful] stays; and no exception
    leaves [download_video_audio] other than one raised by the [mkdir] that
    precedes the [try]. *)
Theorem download_video_audio_captures_failure
    (self : YTDownloader) (url channel_name vid : str) (st : state)
    (e : exn) (w1 w2 : World) :
  _extract_video_id url = Some vid ->
  mkdir true (video_dir self channel_name vid) (world st) = (Ok tt, w1) ->
  ydl_download (_get_ydl_opts self (video_dir self channel_name vid) w1) url w1
  = (Raise e, w2) ->
  (exists r st',
      download_video_audio self url channel_name st = (Ok r, st')
      /\ r = Failure url vid channel_name (exn_msg e)
      /\ status r = lit "failed"
      /\ error_of r = Some (exn_msg e)
      /\ failed (stats st') = S (failed (stats st))
      /\ successful (stats st') = successful (stats st))
  /\ (forall u c s0 s1 e0,
         download_video_audio self u c s0 = (Raise e0, s1) ->
         exists v w',
           _extract_video_id u = Some v
           /\ mkdir true (video_dir self c v) (world s0) = (Raise e0, w')).
Proof.
  intros Hid Hmk Hlib. split.
  - eexists. eexists. split.
    + apply (download_library_raises self url channel_name vid st e w1 w2);
        assumption.
    + repeat split.
  - intros u c s0 s1 e0. apply download_raises_only_from_mkdir.
Qed.

(** A falsy answer of the library is captured the same way. *)
Lemma download_no_info (self : YTDownloader) (url channel_name vid : str)
    (st : state) (w1 w2 : World) :
  _extract_video_id url = Some vid ->
  mkdir true (video_dir self channel_name vid) (world st) = (Ok tt, w1) ->
  ydl_download (_get_ydl_opts self (video_dir self channel_name vid) w1) url w1
  = (Ok None, w2) ->
  download_video_audio self url channel_name st
  = (Ok (Failure url vid channel_name (lit "No info returned from yt-dlp")),
     MkState (add_failed (stats st)) w2 (calls st ++ [CallDownload url])).
Proof.
  intros Hid Hmk Hlib. unfold download_video_audio. rewrite Hid.
  unfold bind, try_except, io, ask, update_stats, trace, ret, raise.
  cbn [world stats calls]. rewrite Hmk. cbn [world stats calls].
  rewrite Hlib. reflexivity.
Qed.

(** C6 (amended): extraction returns the ID of a watch URL when no [v=] or
    [/] earlier in the URL is directly followed by eleven characters of the
    class, as in the canonical [https://www.youtube.com/watch?v=<id>]; it
    returns the ID of [https://youtu.be/<id>]; and on a URL without eleven
    consecutive characters of the class it returns no ID, and
    [download_video_audio] returns a failure result with the state, trace of
    library calls included, untouched. *)
Theorem extract_video_id_forms
    (self : YTDownloader) (P vid rest url channel_name : str) (st : state) :
  valid_id vid ->
  no_match_before P (P ++ lit "/watch?v=" ++ vid ++ rest) ->
  has_token url = false ->
  _extract_video_id (P ++ lit "/watch?v=" ++ vid ++ rest) = Some vid
  /\ _extract_video_id (lit "https://www.youtube.com/watch?v=" ++ vid) = Some vid
  /\ _extract_video_id (lit "https://youtu.be/" ++ vid) = Some vid
  /\ _extract_video_id url = None
  /\ download_video_audio self url channel_name st = (Ok (InvalidUrl url), st)
  /\ status (InvalidUrl url) = lit "failed".
Proof.
  intros Hv Hno Htok.
  pose proof (VideoIdFacts.no_token_no_id url Htok) as Hnone.
  repeat split.
  - now apply VideoIdFacts.extract_after_prefix.
  - now apply VideoIdFacts.extract_canonical.
  - now apply VideoIdFacts.extract_short_link.
  - exact Hnone.
  - now apply download_invalid.
Qed.

Lemma calls_all_keep_skipped (self : YTDownloader) (cs : list method_call)
    (st : state) :
  skipped (stats (calls_all self cs st)) = skipped (stats st).
Proof.
  revert st. unfold calls_all.
  induction cs as [|c cs IH]; intros st; [reflexivity|].
  cbn [fold_left]. rewrite IH.
  destruct c as [u m|u n|u n m|]; cbn [call].
  - destruct (get_channel_videos_spec self u m st) as (urls & st' & Hg & Hs & _).
    rewrite Hg. cbn [snd]. now rewrite Hs.
  - apply download_keeps_skipped.
  - apply download_from_channel_keeps_skipped.
  - reflexivity.
Qed.

(** C10: [__init__] sets [skipped] to 0, no method call changes it, and
    after any sequence of calls [print_stats] logs "Skipped: 0". *)
Theorem skipped_stays_zero
    (output_base_dir : str) (lo hi : seconds) (sleep_requests : Z)
    (rate_limit : str) (max_retries : Z) (cookies : option str) (w : World)
    (self : YTDownloader) (cs : list method_call) :
  let st0 := snd (__init__ output_base_dir lo hi sleep_requests rate_limit
                           max_retries cookies w) in
  let st := calls_all self cs st0 in
  skipped (stats st0) = 0
  /\ skipped (stats st) = 0
  /\ nth_error (print_stats (stats st)) 6 = Some (lit "Skipped: 0").
Proof.
  intros st0 st.
  assert (H0 : skipped (stats st0) = 0).
  { subst st0. unfold __init__. now destruct (mkdir false output_base_dir w). }
  assert (H : skipped (stats st) = 0).
  { subst st. now rewrite calls_all_keep_skipped. }
  repeat split; try assumption.
  unfold print_stats. cbn [nth_error]. now rewrite H.
Qed.

End DownloaderClaims.

(** C4 fails as stated: with [max_videos = 0] the test
    [max_videos and ...] is false, and both enumerated videos come back. *)
Lemma max_videos_zero_is_no_cap :
  exists urls st',
    get_channel_videos (Demo.downloader Demo.fine) (lit "https://x/channel/A")
                       (Some (Z.of_nat 0)) (Demo.start Demo.fine)
    = (Ok urls, st')
    /\ length urls = 2 /\ ~ length urls <= 0.
Proof.
  eexists. eexists. split; [reflexivity|]. split; [reflexivity|].
  simpl. lia.
Qed.

Lemma get_channel_videos_at_most_witness :
  get_channel_videos (Demo.downloader Demo.fine) (lit "https://x/channel/A")
                     (Some (Z.of_nat 1)) (Demo.start Demo.fine)
  = (Ok [Demo.watch1],
     @MkState (Demo.scripted Demo.fine) init_stats tt
              [CallEnumerate (lit "https://x/channel/A")])
  /\ length [Demo.watch1] <= 1.
Proof.
  split; [reflexivity|].
  apply (@get_channel_videos_at_most (Demo.scripted Demo.fine)
           (Demo.downloader Demo.fine) (lit "https://x/channel/A") 1
           (Demo.start Demo.fine)
           (@MkState (Demo.scripted Demo.fine) init_stats tt
                     [CallEnumerate (lit "https://x/channel/A")])
           [Demo.watch1]).
  - lia.
  - reflexivity.
Defined.

Lemma download_video_audio_captures_failure_witness :
  (exists r st',
      download_video_audio (Demo.downloader Demo.forbidden) Demo.watch1
                           (lit "leon") (Demo.start Demo.forbidden)
      = (Ok r, st')
      /\ r = Failure Demo.watch1 Demo.vid1 (lit "leon")
                     (lit "HTTP Error 403: Forbidden")
      /\ status r = lit "failed"
      /\ error_of r = Some (lit "HTTP Error 403: Forbidden")
      /\ failed (stats st') = 1
      /\ successful (stats st') = 0)
  /\ (forall u c s0 s1 e0,
         download_video_audio (Demo.downloader Demo.forbidden) u c s0
         = (Raise e0, s1) ->
         exists v w',
           _extract_video_id u = Some v
           /\ mkdir true (video_dir (Demo.downloader Demo.forbidden) c v)
                    (world s0) = (Raise e0, w')).
Proof.
  apply (@download_video_audio_captures_failure (Demo.scripted Demo.forbidden)
           (Demo.downloader Demo.forbidden) Demo.watch1 (lit "leon") Demo.vid1
           (Demo.start Demo.forbidden)
           (Exn (lit "HTTP Error 403: Forbidden")) tt tt);
    reflexivity.
Defined.

(** C6 fails as stated: a watch URL whose host is eleven characters of the
    class gives the host, not the ID after [v=]. *)
Lemma watch_url_with_early_token :
  valid_id (lit "BFudEmWtgAc")
  /\ _extract_video_id (lit "https://youtubekids.com/watch?v=BFudEmWtgAc")
     = Some (lit "youtubekids")
  /\ _extract_video_id (lit "https://youtubekids.com/watch?v=BFudEmWtgAc")
     <> Some (lit "BFudEmWtgAc").
Proof.
  split; [split; reflexivity|]. split; [reflexivity|]. discriminate.
Qed.

Lemma extract_video_id_forms_witness :
  _extract_video_id (lit "https://m.youtube.com" ++ lit "/watch?v=" ++ Demo.vid1
                     ++ lit "&t=10") = Some Demo.vid1
  /\ _extract_video_id (lit "https://www.youtube.com/watch?v=" ++ Demo.vid1)
     = Some Demo.vid1
  /\ _extract_video_id (lit "https://youtu.be/" ++ Demo.vid1) = Some Demo.vid1
  /\ _extract_video_id (lit "not a video") = None
  /\ download_video_audio (Demo.downloader Demo.fine) (lit "not a video")
                          (lit "leon") (Demo.start Demo.fine)
     = (Ok (InvalidUrl (lit "not a video")), Demo.start Demo.fine)
  /\ status (InvalidUrl (lit "not a video")) = lit "failed".
Proof.
  apply (@extract_video_id_forms (Demo.scripted Demo.fine)
           (Demo.downloader Demo.fine) (lit "https://m.youtube.com") Demo.vid1
           (lit "&t=10") (lit "not a video") (lit "leon")
           (Demo.start Demo.fine)).
  - split; reflexivity.
  - intros i Hi. VideoIdFacts.each_position i Hi.
  - reflexivity.
Defined.

(** ** JSON text and UTF-8 *)

Module JsonFacts.
Import JsonReader.

Ltac divlia := zify; Z.to_euclidean_division_equations; lia.

Section Utf8Facts.

Lemma byte_of_to_N (n : N) : (n < 256)%N -> Byte.to_N (byte_of n) = n.
Proof.
  intros H. unfold byte_of. destruct (Byte.of_N n) as [b|] eqn:Hb.
  - now apply Byte.to_of_N.
  - apply Byte.of_N_None_iff in Hb. lia.
Qed.

Lemma continuation_byte (n : N) :
  (n < 64)%N -> continuation (byte_of (0x80 + n)) = Some n.
Proof.
  intros H. unfold continuation. rewrite byte_of_to_N by lia.
  destruct (N.leb_spec 0x80 (0x80 + n)); [|lia].
  destruct (N.ltb_spec (0x80 + n) 0xC0); [|lia].
  cbn [andb]. f_equal. lia.
Qed.

Lemma scalar_keeps (lo c : N) :
  (lo <= c)%N -> (c < 0x110000)%N -> ~ (0xD800 <= c <= 0xDFFF)%N ->
  scalar lo c = Some c.
Proof.
  intros H1 H2 H3. unfold scalar.
  destruct (N.leb_spec lo c); [|lia].
  destruct (N.ltb_spec c 0x110000); [|lia].
  destruct (N.leb_spec 0xD800 c); destruct (N.leb_spec c 0xDFFF);
    cbn [andb negb]; try reflexivity.
  lia.
Qed.

(** The bytes of one character decode to it. *)
Lemma utf8_decode_char_match (c : char) (rest : list Byte.byte) :
  match utf8_char c with
  | Some b => utf8_decode (b ++ rest) = push (Some c) (utf8_decode rest)
  | None => True
  end.
Proof.
  unfold utf8_char.
  destruct (N.ltb_spec c 0x80) as [H1|H1].
  { cbn [app utf8_decode].
    rewrite byte_of_to_N by lia.
    destruct (N.ltb_spec c 0x80); [reflexivity | lia]. }
  destruct (N.ltb_spec c 0x800) as [H2|H2].
  { cbn [app utf8_decode].
    rewrite byte_of_to_N by divlia.
    destruct (N.ltb_spec (0xC0 + c / 64) 0x80); [divlia|].
    destruct (N.ltb_spec (0xC0 + c / 64) 0xC0); [divlia|].
    destruct (N.ltb_spec (0xC0 + c / 64) 0xE0); [|divlia].
    rewrite continuation_byte by divlia.
    replace ((0xC0 + c / 64 - 0xC0) * 64 + c mod 64)%N with c by divlia.
    rewrite scalar_keeps by lia. reflexivity. }
  destruct (N.ltb_spec c 0x10000) as [H3|H3].
  { destruct (N.leb_spec 0xD800 c) as [H4|H4];
      destruct (N.leb_spec c 0xDFFF) as [H5|H5]; cbn [andb];
      try exact I;
      cbn [app utf8_decode];
      rewrite byte_of_to_N by divlia;
      (destruct (N.ltb_spec (0xE0 + c / 4096) 0x80); [divlia|]);
      (destruct (N.ltb_spec (0xE0 + c / 4096) 0xC0); [divlia|]);
      (destruct (N.ltb_spec (0xE0 + c / 4096) 0xE0); [divlia|]);
      (destruct (N.ltb_spec (0xE0 + c / 4096) 0xF0); [|divlia]);
      rewrite !continuation_byte by divlia;
      replace (((0xE0 + c / 4096 - 0xE0) * 64 + (c / 64) mod 64) * 64
               + c mod 64)%N with c by divlia;
      rewrite scalar_keeps by lia; reflexivity. }
  destruct (N.ltb_spec c 0x110000) as [H4|H4]; [|exact I].
  cbn [app utf8_decode].
  rewrite byte_of_to_N by divlia.
  destruct (N.ltb_spec (0xF0 + c / 262144) 0x80); [divlia|].
  destruct (N.ltb_spec (0xF0 + c / 262144) 0xC0); [divlia|].
  destruct (N.ltb_spec (0xF0 + c / 262144) 0xE0); [divlia|].
  destruct (N.ltb_spec (0xF0 + c / 262144) 0xF0); [divlia|].
  destruct (N.ltb_spec (0xF0 + c / 262144) 0xF8); [|divlia].
  rewrite !continuation_byte by divlia.
  replace ((((0xF0 + c / 262144 - 0xF0) * 64 + (c / 4096) mod 64) * 64
            + (c / 64) mod 64) * 64 + c mod 64)%N with c by divlia.
  rewrite scalar_keeps by lia. reflexivity.
Qed.

Lemma utf8_decode_char (c : char) (b : list Byte.byte) (rest : list Byte.byte) :
  utf8_char c = Some b ->
  utf8_decode (b ++ rest) = push (Some c) (utf8_decode rest).
Proof.
  intros H. pose proof (utf8_decode_char_match c rest) as Hm.
  now rewrite H in Hm.
Qed.

(** Decoding undoes encoding. *)
Lemma utf8_decode_encode (s : str) (bytes : list Byte.byte) :
  utf8_encode s = Some bytes -> utf8_decode bytes = Some s.
Proof.
  revert bytes. induction s as [|c s IH]; intros bytes; cbn [utf8_encode].
  - intros H. inversion H. reflexivity.
  - destruct (utf8_char c) as [b|] eqn:Hc; [|discriminate].
    destruct (utf8_encode s) as [bs|]; [|discriminate].
    intros [= <-].
    rewrite (utf8_decode_char c b bs Hc), (IH bs eq_refl). reflexivity.
Qed.

(** The codec refuses a text exactly when it holds a surrogate or a number
    that is no code point. *)
Lemma utf8_encode_refuses (s : str) :
  utf8_encode s = None
  <-> exists c, In c s /\ ((0xD800 <= c <= 0xDFFF)%N \/ (0x110000 <= c)%N).
Proof.
  induction s as [|c s IH]; cbn [utf8_encode].
  - split; [discriminate | intros (c & [] & _)].
  - assert (Hc : utf8_char c = None
                 <-> ((0xD800 <= c <= 0xDFFF)%N \/ (0x110000 <= c)%N)).
    { unfold utf8_char.
      destruct (N.ltb_spec c 0x80); [split; [discriminate | lia]|].
      destruct (N.ltb_spec c 0x800); [split; [discriminate | lia]|].
      destruct (N.ltb_spec c 0x10000).
      - destruct (N.leb_spec 0xD800 c); destruct (N.leb_spec c 0xDFFF);
          cbn [andb]; split; try discriminate; try lia; auto.
      - destruct (N.ltb_spec c 0x110000); split; try discriminate; try lia; auto. }
    destruct (utf8_char c) as [b|].
    + destruct (utf8_encode s) as [bs|].
      * split; [discriminate|]. intros (x & [<- | Hx] & Hbad).
        -- apply Hc in Hbad. discriminate.
        -- assert (H : @None (list Byte.byte) = None) by reflexivity.
           exfalso. assert (Hs : exists c0, In c0 s /\ ((0xD800 <= c0 <= 0xDFFF)%N \/ (0x110000 <= c0)%N))
             by (exists x; auto).
           apply IH in Hs. discriminate.
      * split; [|reflexivity]. intros _.
        destruct (proj1 IH eq_refl) as (x & Hx & Hbad).
        exists x. split; [now right | exact Hbad].
    + split; [|reflexivity]. intros _. exists c. split; [now left|].
      now apply Hc.
Qed.

End Utf8Facts.

Section StringLiteralFacts.

(** The numbers below a bound, one by one. *)
Lemma below_in (k : nat) (c : N) :
  (c < N.of_nat k)%N -> In c (map N.of_nat (seq 0 k)).
Proof.
  intros H. apply in_map_iff. exists (N.to_nat c).
  split; [apply N2Nat.id | apply in_seq; lia].
Qed.

(** One character of a body reads back as itself. *)
Lemma read_body_char (c : char) (tail : str) :
  read_body (escape_char c ++ tail) = grow c (read_body tail).
Proof.
  destruct (N.ltb_spec c 0x20) as [Hlow | Hhigh].
  - pose proof (below_in 32 c Hlow) as Hc. cbn in Hc.
    repeat (destruct Hc as [<- | Hc]; [reflexivity|]). contradiction.
  - destruct (N.eqb_spec c BACKSLASH) as [-> | Hb]; [reflexivity|].
    destruct (N.eqb_spec c QUOTE) as [-> | Hq]; [reflexivity|].
    unfold escape_char.
    destruct (N.eqb_spec c BACKSLASH); [contradiction|].
    destruct (N.eqb_spec c QUOTE); [contradiction|].
    repeat match goal with
           | |- context [N.eqb c ?k] =>
               destruct (N.eqb_spec c k); [exfalso; lia|]
           end.
    destruct (N.ltb_spec c 0x20); [exfalso; lia|].
    cbn [app read_body].
    destruct (N.eqb_spec c QUOTE); [contradiction|].
    destruct (N.eqb_spec c BACKSLASH); [contradiction|].
    destruct (N.ltb_spec c 0x20); [exfalso; lia|]. reflexivity.
Qed.

(** A string literal reads back as the string it was written from. *)
Lemma read_body_escaped (s rest : str) :
  read_body (flat_map escape_char s ++ QUOTE :: rest) = Some (s, rest).
Proof.
  induction s as [|c s IH]; [reflexivity|].
  cbn [flat_map]. rewrite <- app_assoc, read_body_char, IH. reflexivity.
Qed.

Lemma escape_char_no_newline (c : char) :
  forallb (fun x => negb (N.eqb x LF)) (escape_char c) = true.
Proof.
  destruct (N.ltb_spec c 0x20) as [Hlow | Hhigh].
  - pose proof (below_in 32 c Hlow) as Hc. cbn in Hc.
    repeat (destruct Hc as [<- | Hc]; [reflexivity|]). contradiction.
  - unfold escape_char.
    destruct (N.eqb_spec c BACKSLASH); [reflexivity|].
    destruct (N.eqb_spec c QUOTE); [reflexivity|].
    repeat match goal with
           | |- context [N.eqb c ?k] =>
               destruct (N.eqb_spec c k); [exfalso; lia|]
           end.
    destruct (N.ltb_spec c 0x20); [exfalso; lia|].
    cbn [forallb]. unfold LF. destruct (N.eqb_spec c 10); [exfalso; lia|].
    reflexivity.
Qed.

End StringLiteralFacts.

Section LiteralFacts.

Lemma lit_cons (a : ascii) (s : string) :
  lit (String a s) = N_of_ascii a :: lit s.
Proof. reflexivity. Qed.

Lemma to_string_lit (s : string) : to_string (lit s) = s.
Proof.
  unfold to_string, lit. rewrite map_map.
  rewrite (map_ext _ (fun a => a)) by (intros a; apply ascii_N_embedding).
  rewrite map_id. apply string_of_list_ascii_of_string.
Qed.

Lemma digits_of_uint (d : Decimal.uint) :
  forallb is_digit (lit (NilEmpty.string_of_uint d)) = true.
Proof.
  induction d; cbn [NilEmpty.string_of_uint]; rewrite ?lit_cons;
    cbn [forallb]; rewrite ?IHd; reflexivity.
Qed.

Lemma digits_of_uint_zero (d : Decimal.uint) :
  forallb is_digit (lit (NilZero.string_of_uint d)) = true
  /\ exists c t, lit (NilZero.string_of_uint d) = c :: t.
Proof.
  destruct d; cbn [NilZero.string_of_uint];
    try (split; [apply digits_of_uint
                | cbn [NilEmpty.string_of_uint]; rewrite lit_cons;
                  eexists; eexists; reflexivity]).
  split; [reflexivity | eexists; eexists; reflexivity].
Qed.

Lemma forallb_weaken {A} (p q : A -> bool) (l : list A) :
  (forall x, p x = true -> q x = true) ->
  forallb p l = true -> forallb q l = true.
Proof.
  intros H. induction l as [|x l IH]; [reflexivity|]. cbn [forallb].
  intros Hl. apply andb_prop in Hl. destruct Hl as [Hx Hl].
  now rewrite (H x Hx), (IH Hl).
Qed.

(** The decimal text of an integer: not empty, digits after an optional
    minus. *)
Lemma str_of_Z_chars (z : Z) :
  forallb is_sign_or_digit (str_of_Z z) = true
  /\ exists c t, str_of_Z z = c :: t.
Proof.
  unfold str_of_Z.
  assert (Hu : forall d,
             forallb is_sign_or_digit (lit (NilZero.string_of_uint d)) = true).
  { intros d. apply (forallb_weaken is_digit); [|apply digits_of_uint_zero].
    intros x Hx. unfold is_sign_or_digit. now rewrite Hx. }
  destruct (Z.to_int z) as [d|d]; cbn [NilZero.string_of_int].
  - split; [apply Hu | apply digits_of_uint_zero].
  - rewrite lit_cons. split; [cbn [forallb]; now rewrite Hu|].
    eexists; eexists; reflexivity.
Qed.

Lemma read_int_str_of_Z (z : Z) : read_int (str_of_Z z) = Some z.
Proof.
  unfold read_int. rewrite (proj1 (str_of_Z_chars z)).
  unfold str_of_Z. rewrite to_string_lit, NilZero.isi.
  - cbn [option_map]. now rewrite DecimalZ.of_to.
  - destruct z; cbn [Z.to_int]; try discriminate.
    intros [= H]. now apply DecimalPos.Unsigned.to_uint_nonnil in H.
  - destruct z; cbn [Z.to_int]; try discriminate.
    intros [= H]. now apply DecimalPos.Unsigned.to_uint_nonnil in H.
Qed.

Lemma str_eqb_false_head (t : str) (k : string) (p : char -> bool) :
  match t with c :: _ => p c = true | [] => False end ->
  match lit k with c :: _ => p c = false | [] => True end ->
  str_eqb t (lit k) = false.
Proof.
  intros Ht Hk. unfold str_eqb.
  destruct (list_eq_dec N.eq_dec t (lit k)) as [e|]; [|reflexivity].
  rewrite <- e in Hk. destruct t as [|c t]; [contradiction|]. congruence.
Qed.

Lemma read_literal_int (z : Z) : read_literal (str_of_Z z) = Some (JInt z).
Proof.
  destruct (str_of_Z_chars z) as (Hall & c & t & Hz).
  assert (Hhead : match str_of_Z z with
                  | c :: _ => is_sign_or_digit c = true
                  | [] => False
                  end).
  { rewrite Hz. rewrite Hz in Hall. cbn [forallb] in Hall.
    now apply andb_prop in Hall. }
  unfold read_literal.
  rewrite !(str_eqb_false_head _ _ is_sign_or_digit Hhead) by reflexivity.
  now rewrite Hall, read_int_str_of_Z.
Qed.

Lemma exists_not_forall {A} (p q : A -> bool) (l : list A) :
  (forall x, q x = true -> p x = false) ->
  existsb q l = true -> forallb p l = false.
Proof.
  intros H. induction l as [|x l IH]; [discriminate|].
  cbn [existsb forallb]. intros Hl. apply orb_prop in Hl.
  destruct Hl as [Hx | Hl].
  - now rewrite (H x Hx).
  - rewrite (IH Hl). apply andb_false_r.
Qed.

Lemma float_mark_no_digit (c : char) :
  is_float_mark c = true -> is_sign_or_digit c = false.
Proof.
  unfold is_float_mark. intros H.
  apply orb_prop in H. destruct H as [H | H];
    [apply orb_prop in H; destruct H as [H | H]|];
    apply N.eqb_eq in H; subst c; reflexivity.
Qed.

Lemma read_literal_float (t : str) :
  float_text t = true -> read_literal t = Some (JFloat t).
Proof.
  intros H. pose proof H as Hf. unfold float_text in H.
  apply orb_prop in H. destruct H as [H | H].
  - apply orb_prop in H. destruct H as [H | H];
      [apply orb_prop in H; destruct H as [H | H]|];
      apply str_eqb_eq in H; subst t; reflexivity.
  - apply andb_prop in H. destruct H as [H Hex].
    apply andb_prop in H. destruct H as [Hhead Hall].
    assert (Hh : match t with
                 | c :: _ => is_sign_or_digit c = true
                 | [] => False
                 end) by (destruct t; [discriminate | exact Hhead]).
    unfold read_literal.
    rewrite !(str_eqb_false_head _ _ is_sign_or_digit Hh) by reflexivity.
    rewrite (exists_not_forall is_sign_or_digit is_float_mark t
               float_mark_no_digit Hex).
    now rewrite Hf.
Qed.

Lemma sign_or_digit_token (c : char) :
  is_sign_or_digit c = true -> is_token_char c = true.
Proof.
  unfold is_sign_or_digit, is_digit. intros H.
  apply orb_prop in H. destruct H as [H | H].
  - apply andb_prop in H. destruct H as [H1 H2].
    apply N.leb_le in H1, H2. unfold ch in *. cbn in H1, H2.
    unfold is_token_char, is_ws, is_structural, QUOTE, ch. cbn.
    repeat match goal with
           | |- context [N.eqb c ?k] =>
               destruct (N.eqb_spec c k); [exfalso; lia|]
           end.
    reflexivity.
  - apply N.eqb_eq in H. subst c. reflexivity.
Qed.

Lemma number_char_token (c : char) :
  is_sign_or_digit c || is_float_mark c || N.eqb c (ch "+") = true ->
  is_token_char c = true.
Proof.
  intros H. apply orb_prop in H. destruct H as [H | H];
    [apply orb_prop in H; destruct H as [H | H]|].
  - now apply sign_or_digit_token.
  - unfold is_float_mark in H.
    apply orb_prop in H. destruct H as [H | H];
      [apply orb_prop in H; destruct H as [H | H]|];
      apply N.eqb_eq in H; subst c; reflexivity.
  - apply N.eqb_eq in H. subst c. reflexivity.
Qed.

Lemma float_text_token (t : str) :
  float_text t = true -> forallb is_token_char t = true /\ t <> [].
Proof.
  intros H. unfold float_text in H.
  apply orb_prop in H. destruct H as [H | H].
  - apply orb_prop in H. destruct H as [H | H];
      [apply orb_prop in H; destruct H as [H | H]|];
      apply str_eqb_eq in H; subst t; split; try reflexivity; discriminate.
  - apply andb_prop in H. destruct H as [H Hex].
    apply andb_prop in H. destruct H as [Hhead Hall].
    split; [|destruct t; discriminate].
    exact (forallb_weaken _ _ _ number_char_token Hall).
Qed.

End LiteralFacts.

Section ReaderFacts.

(** Induction on a JSON value, with the items of a list and the values of
    a dict as hypotheses. *)
Section JsonInduction.
Variable P : json -> Prop.
Hypothesis Hnull : P JNull.
Hypothesis Hbool : forall b, P (JBool b).
Hypothesis Hint : forall z, P (JInt z).
Hypothesis Hfloat : forall t, P (JFloat t).
Hypothesis Hstr : forall s, P (JStr s).
Hypothesis Hlist : forall l, Forall P l -> P (JList l).
Hypothesis Hdict : forall kv, Forall (fun item => P (snd item)) kv -> P (JDict kv).

Lemma json_induction (j : json) : P j.
Proof.
  revert j. fix IH 1. intros [|b|z|t|s|l|kv].
  - exact Hnull.
  - apply Hbool.
  - apply Hint.
  - apply Hfloat.
  - apply Hstr.
  - apply Hlist. induction l as [|x l IHl]; constructor; [apply IH | exact IHl].
  - apply Hdict. induction kv as [|item kv IHkv]; constructor;
      [apply IH | exact IHkv].
Qed.
End JsonInduction.


Lemma skip_ws_app (w s : str) :
  forallb is_ws w = true -> skip_ws (w ++ s) = skip_ws s.
Proof.
  induction w as [|c w IH]; [reflexivity|]. cbn [forallb app skip_ws].
  intros H. apply andb_prop in H. destruct H as [Hc Hw]. now rewrite Hc, IH.
Qed.

Lemma spaces_ws (n : nat) : forallb is_ws (spaces n) = true.
Proof. induction n as [|n IH]; [reflexivity|]. cbn [spaces]. now rewrite forallb_app, IH. Qed.

Lemma newline_indent_ws (n : nat) : forallb is_ws (newline_indent n) = true.
Proof. unfold newline_indent. cbn [forallb]. now rewrite spaces_ws. Qed.

Lemma skip_ws_stays (c : char) (t : str) :
  is_ws c = false -> skip_ws (c :: t) = c :: t.
Proof. intros H. cbn [skip_ws]. now rewrite H. Qed.

Lemma take_token_app (t rest : str) :
  forallb is_token_char t = true -> delimited rest ->
  take_token (t ++ rest) = (t, rest).
Proof.
  intros Ht Hr. induction t as [|c t IH].
  - destruct rest as [|d rest]; [reflexivity|]. cbn [app take_token].
    cbn [delimited] in Hr. now rewrite Hr.
  - cbn [forallb] in Ht. apply andb_prop in Ht. destruct Ht as [Hc Ht].
    cbn [app take_token]. now rewrite Hc, (IH Ht).
Qed.

Lemma token_char_plain (c : char) :
  is_token_char c = true ->
  is_ws c = false /\ N.eqb c QUOTE = false /\ N.eqb c (ch "[") = false
  /\ N.eqb c (ch "{") = false /\ N.eqb c (ch "]") = false
  /\ N.eqb c (ch "}") = false.
Proof.
  unfold is_token_char, is_structural. intros H.
  apply negb_true_iff in H. apply orb_false_elim in H. destruct H as [Hw H].
  repeat (apply orb_false_elim in H; destruct H as [H ?]).
  repeat split; assumption.
Qed.

(** The steps of the reader, one per shape of the text ahead. *)
Lemma read_value_ws (fuel : nat) (w s : str) :
  forallb is_ws w = true -> read_value fuel (w ++ s) = read_value fuel s.
Proof.
  intros H. destruct fuel as [|fuel]; [reflexivity|].
  cbn [read_value]. now rewrite (skip_ws_app w s H).
Qed.

Lemma read_items_ws (fuel : nat) (w s : str) (acc : list json) :
  forallb is_ws w = true -> read_items fuel (w ++ s) acc = read_items fuel s acc.
Proof.
  intros H. destruct fuel as [|fuel]; [reflexivity|].
  cbn [read_items]. now rewrite (read_value_ws fuel w s H).
Qed.

Lemma read_members_ws (fuel : nat) (w s : str) (acc : list (str * json)) :
  forallb is_ws w = true ->
  read_members fuel (w ++ s) acc = read_members fuel s acc.
Proof.
  intros H. destruct fuel as [|fuel]; [reflexivity|].
  cbn [read_members]. now rewrite (skip_ws_app w s H).
Qed.

Lemma read_value_literal (fuel : nat) (tok rest : str) (j : json) :
  tok <> [] -> forallb is_token_char tok = true -> delimited rest ->
  read_literal tok = Some j ->
  read_value (S fuel) (tok ++ rest) = Some (j, rest).
Proof.
  intros Hne Htok Hrest Hlit.
  pose proof (take_token_app tok rest Htok Hrest) as Htake.
  destruct tok as [|c tok]; [contradiction|].
  cbn [forallb] in Htok. apply andb_prop in Htok. destruct Htok as [Hc _].
  destruct (token_char_plain c Hc) as (Hw & Hq & Hl & Hd & _).
  cbn [read_value app]. rewrite (skip_ws_stays c _ Hw), Hq, Hl, Hd.
  cbn [app] in Htake. rewrite Htake, Hlit. reflexivity.
Qed.

Lemma read_value_string (fuel : nat) (s rest : str) :
  read_value (S fuel) (encode_str s ++ rest) = Some (JStr s, rest).
Proof.
  unfold encode_str. cbn [read_value app].
  rewrite (skip_ws_stays QUOTE _ eq_refl).
  change (N.eqb QUOTE QUOTE) with true. cbv iota.
  rewrite <- app_assoc. cbn [app]. now rewrite read_body_escaped.
Qed.

Lemma read_value_list (fuel : nat) (t t' : str) (d : char) :
  skip_ws t = d :: t' -> N.eqb d (ch "]") = false ->
  read_value (S fuel) (lit "[" ++ t) = read_items fuel (d :: t') [].
Proof.
  intros Ht Hd. change (lit "[" ++ t) with (ch "[" :: t).
  cbn [read_value]. rewrite (skip_ws_stays (ch "[") _ eq_refl).
  change (N.eqb (ch "[") QUOTE) with false.
  change (N.eqb (ch "[") (ch "[")) with true. cbv iota.
  now rewrite Ht, Hd.
Qed.

Lemma read_value_dict (fuel : nat) (t t' : str) (d : char) :
  skip_ws t = d :: t' -> N.eqb d (ch "}") = false ->
  read_value (S fuel) (lit "{" ++ t) = read_members fuel (d :: t') [].
Proof.
  intros Ht Hd. change (lit "{" ++ t) with (ch "{" :: t).
  cbn [read_value]. rewrite (skip_ws_stays (ch "{") _ eq_refl).
  change (N.eqb (ch "{") QUOTE) with false.
  change (N.eqb (ch "{") (ch "[")) with false.
  change (N.eqb (ch "{") (ch "{")) with true. cbv iota.
  now rewrite Ht, Hd.
Qed.

Lemma read_items_last (fuel : nat) (s r t : str) (j : json) (acc : list json) :
  read_value fuel s = Some (j, r) -> skip_ws r = ch "]" :: t ->
  read_items (S fuel) s acc = Some (JList (rev acc ++ [j]), t).
Proof. intros Hv Hr. cbn [read_items]. now rewrite Hv, Hr. Qed.

Lemma read_items_next (fuel : nat) (s r t : str) (j : json) (acc : list json) :
  read_value fuel s = Some (j, r) -> skip_ws r = ch "," :: t ->
  read_items (S fuel) s acc = read_items fuel t (j :: acc).
Proof. intros Hv Hr. cbn [read_items]. now rewrite Hv, Hr. Qed.

Lemma read_members_last (fuel : nat) (k r r2 t : str) (v : json)
    (acc : list (str * json)) :
  read_value fuel r = Some (v, r2) -> skip_ws r2 = ch "}" :: t ->
  read_members (S fuel) (encode_str k ++ lit ": " ++ r) acc
  = Some (JDict (rev acc ++ [(k, v)]), t).
Proof.
  intros Hv Hr. unfold encode_str. cbn [read_members app].
  rewrite (skip_ws_stays QUOTE _ eq_refl).
  change (N.eqb QUOTE QUOTE) with true. cbv iota.
  rewrite <- app_assoc. cbn [app]. rewrite read_body_escaped.
  change (lit ": " ++ r) with (ch ":" :: [32%N] ++ r).
  rewrite (skip_ws_stays (ch ":") _ eq_refl).
  change (N.eqb (ch ":") (ch ":")) with true. cbv iota.
  rewrite read_value_ws by reflexivity. now rewrite Hv, Hr.
Qed.

Lemma read_members_next (fuel : nat) (k r r2 t : str) (v : json)
    (acc : list (str * json)) :
  read_value fuel r = Some (v, r2) -> skip_ws r2 = ch "," :: t ->
  read_members (S fuel) (encode_str k ++ lit ": " ++ r) acc
  = read_members fuel t ((k, v) :: acc).
Proof.
  intros Hv Hr. unfold encode_str. cbn [read_members app].
  rewrite (skip_ws_stays QUOTE _ eq_refl).
  change (N.eqb QUOTE QUOTE) with true. cbv iota.
  rewrite <- app_assoc. cbn [app]. rewrite read_body_escaped.
  change (lit ": " ++ r) with (ch ":" :: [32%N] ++ r).
  rewrite (skip_ws_stays (ch ":") _ eq_refl).
  change (N.eqb (ch ":") (ch ":")) with true. cbv iota.
  rewrite read_value_ws by reflexivity. now rewrite Hv, Hr.
Qed.

End ReaderFacts.

Section RoundTrip.

Lemma join_cons2 (sep a b : str) (l : list str) :
  join sep (a :: b :: l) = a ++ sep ++ join sep (b :: l).
Proof. reflexivity. Qed.

Lemma dumps_list (level : nat) (x : json) (l : list json) :
  dumps_at level (JList (x :: l))
  = lit "[" ++ newline_indent (S level)
    ++ join (lit "," ++ newline_indent (S level))
            (map (dumps_at (S level)) (x :: l))
    ++ newline_indent level ++ lit "]".
Proof. reflexivity. Qed.

Lemma dumps_dict (level : nat) (item : str * json) (kv : list (str * json)) :
  dumps_at level (JDict (item :: kv))
  = lit "{" ++ newline_indent (S level)
    ++ join (lit "," ++ newline_indent (S level))
            (map (member_text (S level)) (item :: kv))
    ++ newline_indent level ++ lit "}".
Proof.
  cbn [dumps_at]. f_equal. f_equal. f_equal. f_equal.
  apply map_ext. now intros [k v].
Qed.

(** A value's text starts with a character that is neither whitespace nor
    a closing bracket. *)
Lemma dumps_head (level : nat) (j : json) :
  well_formed j = true ->
  exists c t, dumps_at level j = c :: t
              /\ is_ws c = false /\ N.eqb c (ch "]") = false.
Proof.
  intros Hwf. destruct j as [|b|z|t|s|l|kv].
  - eexists. eexists. split; [reflexivity | split; reflexivity].
  - destruct b; eexists; eexists; (split; [reflexivity | split; reflexivity]).
  - destruct (str_of_Z_chars z) as (Hall & c & t & Hz).
    exists c, t. split; [exact Hz|].
    rewrite Hz in Hall. cbn [forallb] in Hall. apply andb_prop in Hall.
    destruct (token_char_plain c (sign_or_digit_token c (proj1 Hall)))
      as (Hw & _ & _ & _ & Hb & _).
    now split.
  - cbn [well_formed] in Hwf. destruct (float_text_token t Hwf) as [Hall Hne].
    destruct t as [|c t]; [contradiction|]. exists c, t.
    split; [reflexivity|]. cbn [forallb] in Hall. apply andb_prop in Hall.
    destruct (token_char_plain c (proj1 Hall)) as (Hw & _ & _ & _ & Hb & _).
    now split.
  - eexists. eexists. split; [reflexivity | split; reflexivity].
  - destruct l; eexists; eexists; (split; [reflexivity | split; reflexivity]).
  - destruct kv; eexists; eexists; (split; [reflexivity | split; reflexivity]).
Qed.

Lemma read_items_joined (level : nat) (l : list json) (x : json) :
  Forall reads_back (x :: l) -> forallb well_formed (x :: l) = true ->
  forall acc rest,
  exists n, forall fuel, n <= fuel ->
    read_items fuel
      (join (lit "," ++ newline_indent (S level))
            (map (dumps_at (S level)) (x :: l))
       ++ newline_indent level ++ lit "]" ++ rest) acc
    = Some (JList (rev acc ++ x :: l), rest).
Proof.
  revert x. induction l as [|y l IH]; intros x Hall Hwf acc rest;
    inversion Hall as [|? ? Hx Hrest]; subst;
    cbn [forallb] in Hwf; apply andb_prop in Hwf; destruct Hwf as [Hwx Hwl].
  - destruct (Hx Hwx (S level) (newline_indent level ++ lit "]" ++ rest)
                 eq_refl) as [n Hn].
    exists (S n). intros fuel Hf. destruct fuel as [|fuel]; [lia|].
    cbn [map join].
    apply (read_items_last fuel _ (newline_indent level ++ lit "]" ++ rest)).
    + apply Hn. lia.
    + now rewrite skip_ws_app by apply newline_indent_ws.
  - cbn [map]. rewrite join_cons2, <- !app_assoc.
    match goal with
    | |- context [dumps_at (S level) x ++ ?r] =>
        destruct (Hx Hwx (S level) r eq_refl) as [n1 Hn1]
    end.
    destruct (IH y Hrest Hwl (x :: acc) rest) as [n2 Hn2].
    exists (S (Nat.max n1 n2)). intros fuel Hf. destruct fuel as [|fuel]; [lia|].
    erewrite read_items_next; [| apply Hn1; lia | reflexivity].
    rewrite read_items_ws by apply newline_indent_ws.
    cbn [map] in Hn2. rewrite Hn2 by lia.
    cbn [rev]. now rewrite <- app_assoc.
Qed.

Lemma read_members_joined (level : nat) (kv : list (str * json))
    (item : str * json) :
  Forall (fun i => reads_back (snd i)) (item :: kv) ->
  forallb (fun i => well_formed (snd i)) (item :: kv) = true ->
  forall acc rest,
  exists n, forall fuel, n <= fuel ->
    read_members fuel
      (join (lit "," ++ newline_indent (S level))
            (map (member_text (S level)) (item :: kv))
       ++ newline_indent level ++ lit "}" ++ rest) acc
    = Some (JDict (rev acc ++ item :: kv), rest).
Proof.
  revert item. induction kv as [|next kv IH]; intros [k v] Hall Hwf acc rest;
    inversion Hall as [|? ? Hx Hrest]; subst;
    cbn [forallb snd] in Hwf, Hx; apply andb_prop in Hwf;
    destruct Hwf as [Hwx Hwl].
  - destruct (Hx Hwx (S level) (newline_indent level ++ lit "}" ++ rest)
                 eq_refl) as [n Hn].
    exists (S n). intros fuel Hf. destruct fuel as [|fuel]; [lia|].
    cbn [map join]. unfold member_text. cbn [fst snd].
    rewrite <- !app_assoc.
    apply (read_members_last fuel k _ (newline_indent level ++ lit "}" ++ rest)).
    + apply Hn. lia.
    + now rewrite skip_ws_app by apply newline_indent_ws.
  - cbn [map]. rewrite join_cons2. unfold member_text at 1. cbn [fst snd].
    rewrite <- !app_assoc.
    match goal with
    | |- context [dumps_at (S level) v ++ ?r] =>
        destruct (Hx Hwx (S level) r eq_refl) as [n1 Hn1]
    end.
    destruct (IH next Hrest Hwl ((k, v) :: acc) rest) as [n2 Hn2].
    exists (S (Nat.max n1 n2)). intros fuel Hf. destruct fuel as [|fuel]; [lia|].
    erewrite read_members_next; [| apply Hn1; lia | reflexivity].
    rewrite read_members_ws by apply newline_indent_ws.
    cbn [map] in Hn2. rewrite Hn2 by lia.
    cbn [rev]. now rewrite <- app_assoc.
Qed.

(** Every value reads back from its text. *)
Lemma read_value_dumps (j : json) : reads_back j.
Proof.
  induction j using json_induction; intros Hwf level rest Hrest.
  - exists 1. intros fuel Hf. destruct fuel as [|fuel]; [lia|].
    now apply read_value_literal.
  - exists 1. intros fuel Hf. destruct fuel as [|fuel]; [lia|].
    destruct b; now apply read_value_literal.
  - exists 1. intros fuel Hf. destruct fuel as [|fuel]; [lia|].
    destruct (str_of_Z_chars z) as (Hall & c & t & Hz).
    cbn [dumps_at]. apply read_value_literal.
    + rewrite Hz. discriminate.
    + exact (forallb_weaken _ _ _ sign_or_digit_token Hall).
    + exact Hrest.
    + apply read_literal_int.
  - exists 1. intros fuel Hf. destruct fuel as [|fuel]; [lia|].
    cbn [well_formed] in Hwf. destruct (float_text_token t Hwf) as [Hall Hne].
    cbn [dumps_at]. apply read_value_literal; try assumption.
    now apply read_literal_float.
  - exists 1. intros fuel Hf. destruct fuel as [|fuel]; [lia|].
    apply read_value_string.
  - destruct l as [|x l].
    + exists 1. intros fuel Hf. destruct fuel as [|fuel]; [lia|]. reflexivity.
    + cbn [well_formed] in Hwf.
      destruct (read_items_joined level l x H Hwf [] rest) as [n Hn].
      exists (S n). intros fuel Hf. destruct fuel as [|fuel]; [lia|].
      rewrite dumps_list, <- !app_assoc.
      assert (Hx : well_formed x = true)
        by (cbn [forallb] in Hwf; now apply andb_prop in Hwf).
      destruct (dumps_head (S level) x Hx) as (c & t & Hd & Hw & Hb).
      match goal with
      | |- read_value _ (_ ++ _ ++ ?body) = _ =>
          assert (Hbody : exists t', body = c :: t')
      end.
      { destruct l; cbn [map join]; rewrite Hd; eexists; reflexivity. }
      destruct Hbody as [t' Hbody].
      erewrite read_value_list;
        [| rewrite skip_ws_app by apply newline_indent_ws;
           rewrite Hbody; apply (skip_ws_stays c t' Hw) | exact Hb].
      rewrite <- Hbody. apply Hn. lia.
  - destruct kv as [|item kv].
    + exists 1. intros fuel Hf. destruct fuel as [|fuel]; [lia|]. reflexivity.
    + cbn [well_formed] in Hwf.
      destruct (read_members_joined level kv item H Hwf [] rest) as [n Hn].
      exists (S n). intros fuel Hf. destruct fuel as [|fuel]; [lia|].
      rewrite dumps_dict, <- !app_assoc.
      match goal with
      | |- read_value _ (_ ++ _ ++ ?body) = _ =>
          assert (Hbody : exists t', body = QUOTE :: t')
      end.
      { destruct kv; cbn [map join]; unfold member_text at 1, encode_str;
          eexists; reflexivity. }
      destruct Hbody as [t' Hbody].
      erewrite read_value_dict;
        [| rewrite skip_ws_app by apply newline_indent_ws;
           rewrite Hbody; apply (skip_ws_stays QUOTE t' eq_refl)
         | reflexivity].
      rewrite <- Hbody. apply Hn. lia.
Qed.

(** [loads] undoes [dumps]. *)
Lemma loads_dumps (j : json) :
  well_formed j = true ->
  exists n, forall fuel, n <= fuel -> loads fuel (dumps j) = Some j.
Proof.
  intros Hwf. destruct (read_value_dumps j Hwf 0 [] I) as [n Hn].
  exists n. intros fuel Hf. unfold loads, dumps.
  rewrite <- (app_nil_r (dumps_at 0 j)), (Hn fuel Hf). reflexivity.
Qed.

End RoundTrip.

Section Layout.

Lemma indent_more_app (a b : str) :
  indent_more (a ++ b) = indent_more a ++ indent_more b.
Proof. apply flat_map_app. Qed.

Lemma indent_more_plain (s : str) : plain s -> indent_more s = s.
Proof.
  unfold plain, indent_more. induction s as [|c s IH]; [reflexivity|].
  cbn [forallb flat_map]. intros H. apply andb_prop in H. destruct H as [Hc Hs].
  apply negb_true_iff in Hc. now rewrite Hc, (IH Hs).
Qed.

Lemma indent_more_join (sep : str) (l : list str) :
  indent_more (join sep l) = join (indent_more sep) (map indent_more l).
Proof.
  induction l as [|a l IH]; [reflexivity|].
  destruct l as [|b l]; [reflexivity|].
  rewrite join_cons2, !indent_more_app, IH. reflexivity.
Qed.

Lemma spaces_plain (n : nat) : plain (spaces n).
Proof.
  unfold plain. induction n as [|n IH]; [reflexivity|].
  cbn [spaces]. rewrite forallb_app. apply andb_true_intro.
  split; [reflexivity | exact IH].
Qed.

Lemma indent_more_newline (n : nat) :
  indent_more (newline_indent n) = newline_indent (S n).
Proof.
  unfold newline_indent.
  change (indent_more (LF :: spaces n))
    with (LF :: lit "  " ++ indent_more (spaces n)).
  now rewrite (indent_more_plain _ (spaces_plain n)).
Qed.

Lemma token_plain (t : str) : forallb is_token_char t = true -> plain t.
Proof.
  apply forallb_weaken. intros c Hc.
  destruct (token_char_plain c Hc) as (Hw & _).
  apply negb_true_iff. destruct (N.eqb_spec c LF) as [-> |]; [discriminate|].
  reflexivity.
Qed.

Lemma encode_str_plain (s : str) : plain (encode_str s).
Proof.
  unfold plain, encode_str. cbn [forallb]. rewrite forallb_app.
  cbn [forallb andb negb]. rewrite andb_true_r.
  change (negb (N.eqb QUOTE LF)) with true. cbn [andb].
  induction s as [|c s IH]; [reflexivity|].
  cbn [flat_map]. rewrite forallb_app. apply andb_true_intro.
  split; [apply escape_char_no_newline | exact IH].
Qed.

(** One level deeper, a value's text is the same text with every line
    after the first moved right by two columns. *)
Lemma dumps_deeper (j : json) :
  well_formed j = true ->
  forall level, dumps_at (S level) j = indent_more (dumps_at level j).
Proof.
  induction j using json_induction; intros Hwf level.
  - reflexivity.
  - destruct b; reflexivity.
  - cbn [dumps_at]. symmetry. apply indent_more_plain, token_plain.
    exact (forallb_weaken _ _ _ sign_or_digit_token
             (proj1 (str_of_Z_chars z))).
  - cbn [dumps_at well_formed] in *. symmetry.
    apply indent_more_plain, token_plain. now apply float_text_token.
  - cbn [dumps_at]. symmetry. apply indent_more_plain, encode_str_plain.
  - destruct l as [|x l]; [reflexivity|].
    rewrite !dumps_list, !indent_more_app, indent_more_join, indent_more_app,
      !indent_more_newline, map_map.
    cbn [well_formed] in Hwf.
    change (indent_more (lit ",")) with (lit ",").
    change (indent_more (lit "[")) with (lit "[").
    change (indent_more (lit "]")) with (lit "]").
    f_equal. f_equal. f_equal. f_equal.
    apply map_ext_in. intros y Hy.
    rewrite Forall_forall in H. apply (H y Hy).
    rewrite forallb_forall in Hwf. now apply Hwf.
  - destruct kv as [|item kv]; [reflexivity|].
    rewrite !dumps_dict, !indent_more_app, indent_more_join, indent_more_app,
      !indent_more_newline, map_map.
    cbn [well_formed] in Hwf.
    change (indent_more (lit ",")) with (lit ",").
    change (indent_more (lit "{")) with (lit "{").
    change (indent_more (lit "}")) with (lit "}").
    f_equal. f_equal. f_equal. f_equal.
    apply map_ext_in. intros [k v] Hy. unfold member_text. cbn [fst snd].
    rewrite !indent_more_app, (indent_more_plain _ (encode_str_plain k)).
    change (indent_more (lit ": ")) with (lit ": ").
    f_equal. f_equal.
    rewrite Forall_forall in H. apply (H (k, v) Hy).
    rewrite forallb_forall in Hwf. now apply (Hwf (k, v)).
Qed.

(** The layout of an object: between the braces, its members one per line
    in their order, each followed by a comma but the last, and the whole
    moved right by two columns. *)
Lemma dumps_dict_layout (item : str * json) (kv : list (str * json)) :
  well_formed (JDict (item :: kv)) = true ->
  dumps (JDict (item :: kv))
  = lit "{"
    ++ indent_more (LF :: join (lit "," ++ [LF])
                               (map (member_text 0) (item :: kv)))
    ++ [LF] ++ lit "}".
Proof.
  intros Hwf. unfold dumps. rewrite dumps_dict.
  change (LF :: join (lit "," ++ [LF]) (map (member_text 0) (item :: kv)))
    with (newline_indent 0
          ++ join (lit "," ++ newline_indent 0)
                  (map (member_text 0) (item :: kv))).
  rewrite indent_more_app, indent_more_join, indent_more_app,
    !indent_more_newline, map_map.
  change (indent_more (lit ",")) with (lit ",").
  rewrite <- !app_assoc. f_equal. f_equal. f_equal. f_equal.
  apply map_ext_in. intros [k v] Hy. unfold member_text. cbn [fst snd].
  rewrite !indent_more_app, (indent_more_plain _ (encode_str_plain k)).
  change (indent_more (lit ": ")) with (lit ": ").
  f_equal. f_equal. apply dumps_deeper.
  cbn [well_formed] in Hwf. rewrite forallb_forall in Hwf.
  now apply (Hwf (k, v)).
Qed.

End Layout.

(** Characters outside ASCII pass through the string encoder unchanged. *)
Lemma flat_map_escape_high (s : str) :
  forallb (fun c => (0x80 <=? c)%N) s = true -> flat_map escape_char s = s.
Proof.
  intros H. induction s as [|c s IH]; [reflexivity|].
  simpl in H. apply andb_prop in H. destruct H as [Hc Hs].
  cbn [flat_map]. rewrite (IH Hs).
  apply N.leb_le in Hc. unfold escape_char, BACKSLASH, QUOTE.
  repeat match goal with
         | |- context [N.eqb c ?k] =>
             destruct (N.eqb_spec c k); [exfalso; lia|]
         end.
  destruct (N.ltb_spec c 0x20); [exfalso; lia|]. reflexivity.
Qed.

(** The readers at work: other spacing is read, a comma before the closing
    bracket and a raw line break inside a string are not; an overlong
    encoding is refused. *)
Example loads_reads_other_spacing :
  JsonReader.loads 9 (lit "[1 ,-2,  [ ] ]")
  = Some (JList [JInt 1; JInt (-2); JList []]).
Proof. reflexivity. Qed.

Example loads_refuses_trailing_comma :
  JsonReader.loads 9 (lit "[1, 2,]") = None.
Proof. reflexivity. Qed.

Example loads_refuses_raw_line_break :
  JsonReader.loads 9 (Demo.quoted (lit "a" ++ [LF] ++ lit "b")) = None
  /\ JsonReader.loads 9 (encode_str (lit "a" ++ [LF] ++ lit "b"))
     = Some (JStr (lit "a" ++ [LF] ++ lit "b")).
Proof. split; reflexivity. Qed.

Example utf8_decode_is_strict :
  JsonReader.utf8_decode [Byte.xc0; Byte.x80] = None
  /\ JsonReader.utf8_decode [Byte.xe8; Byte.xa9; Byte.xa9] = Some [0x8A69%N]
  /\ utf8_encode [0x8A69%N] = Some [Byte.xe8; Byte.xa9; Byte.xa9].
Proof. repeat split. Qed.

End JsonFacts.

(** ** Result Persister and Batch Orchestrator *)

Section BatchFacts.
Context {E : External}.



Lemma write_file_lands (fs : store) (name text : str) :
  next_fault fs = None ->
  write_file fs name text name = Some (written text None).
Proof.
  intros H. unfold write_file. rewrite H. cbn [held]. unfold put.
  now rewrite (proj2 (str_eqb_eq name name) eq_refl).
Qed.

Lemma write_file_others (fs : store) (name text other : str) :
  other <> name -> write_file fs name text other = fs other.
Proof.
  intros Hne. unfold write_file.
  assert (Hk : str_eqb other name = false).
  { destruct (str_eqb other name) eqn:Hk; [|reflexivity].
    apply str_eqb_eq in Hk. contradiction. }
  destruct (next_fault fs) as [[e|landed e]|]; cbn [held]; unfold put;
    now rewrite ?Hk.
Qed.


Lemma count_status_total (results : list VideoResult) :
  count_status "success" results + count_status "failed" results
  = length results.
Proof.
  unfold count_status.
  induction results as [|r results IH]; [reflexivity|].
  destruct r; cbn [filter status];
    change (str_eqb (lit "failed") (lit "success")) with false;
    change (str_eqb (lit "success") (lit "success")) with true;
    change (str_eqb (lit "failed") (lit "failed")) with true;
    change (str_eqb (lit "success") (lit "failed")) with false;
    cbn [length] in *; lia.
Qed.

Lemma dict_set_Forall {V} (P : str * V -> Prop) (d : dict V) (k : str) (v : V) :
  (forall k', P (k', v)) -> Forall P d -> Forall P (dict_set d k v).
Proof.
  intros Hv Hd. induction Hd as [|[k0 v0] d H0 Hd IH]; simpl.
  - constructor; [apply Hv | constructor].
  - destruct (str_eqb k0 k); constructor; auto.
Qed.

Lemma process_channel_agree (downloader : YTDownloader) (max_videos : option Z)
    (c : str * str) (b : batch) (st : state) :
  all_agree b -> all_agree (fst (process_channel downloader max_videos c (b, st))).
Proof.
  unfold all_agree, process_channel. intros Hb. destruct c as [name url].
  destruct (download_from_channel downloader url name max_videos st)
    as [[results|e] st']; cbn [fst all_results];
    apply dict_set_Forall; try exact Hb; intros k'; cbn [snd counts_agree].
  - split; [apply count_status_total | reflexivity].
  - exact I.
Qed.

Lemma process_channels_agree (downloader : YTDownloader) (max_videos : option Z)
    (channels : list (str * str)) (b : batch) (st : state) :
  all_agree b ->
  all_agree (fst (process_channels downloader max_videos channels (b, st))).
Proof.
  unfold process_channels. revert b st.
  induction channels as [|c channels IH]; intros b st Hb; [exact Hb|].
  cbn [fold_left].
  pose proof (process_channel_agree downloader max_videos c b st Hb) as H1.
  destruct (process_channel downloader max_videos c (b, st)) as [b1 st1].
  now apply IH.
Qed.

(** A channel that completes is followed by a checkpoint of everything
    accumulated so far; one that raises is not. *)
Lemma checkpoint_after_completed_channel (downloader : YTDownloader)
    (max_videos : option Z) (name url : str) (b : batch) (st st' : state)
    (results : list VideoResult) :
  download_from_channel downloader url name max_videos st = (Ok results, st') ->
  let b' := fst (process_channel downloader max_videos (name, url) (b, st)) in
  files b' checkpoint_file
  = save_batch_results (all_results b') checkpoint_file (files b) checkpoint_file.
Proof.
  intros H. unfold process_channel. rewrite H. reflexivity.
Qed.

Lemma no_checkpoint_after_failed_channel (downloader : YTDownloader)
    (max_videos : option Z) (name url : str) (b : batch) (st st' : state)
    (e : exn) :
  download_from_channel downloader url name max_videos st = (Raise e, st') ->
  let b' := fst (process_channel downloader max_videos (name, url) (b, st)) in
  files b' = files b
  /\ all_results b' = dict_set (all_results b) name (ChannelError url (exn_msg e)).
Proof.
  intros H. unfold process_channel. rewrite H. split; reflexivity.
Qed.

End BatchFacts.

Section BatchClaims.
Context {E : External}.

(** C1: after the channel loop, and so after [main], every entry of
    [all_results] that records counts has [successful + failed] equal to
    [total_videos], and [total_videos] equal to the number of results in its
    [videos] list; a channel without videos records 0, 0, 0. *)
Theorem channel_counts_agree
    (downloader : YTDownloader) (max_videos : option Z)
    (channels : list (str * str)) (fs : store) (st : state)
    (args : Args) (f : ChannelList.file) (w : World) :
  all_agree (fst (process_channels downloader max_videos channels
                                   (MkBatch [] [] fs, st)))
  /\ match main args f fs w with
     | Returns (Ok r) => all_agree (run_batch r)
     | _ => True
     end.
Proof.
  split.
  - apply process_channels_agree. constructor.
  - unfold main.
    destruct (ChannelList.read_channel_list f) as [r|code|e]; try exact I.
    destruct (ChannelList.channels r) as [|c0 cs] eqn:Hcs; [exact I|].
    set (chosen := if (0 <? start_from args)%Z then _ else _).
    destruct (__init__ _ _ _ _ _ _ _ w) as [[d|e] st0]; [|exact I].
    pose proof (process_channels_agree d (max_videos_per_channel args) chosen
                  (MkBatch [] [] fs) st0 (Forall_nil _)) as H.
    destruct (process_channels d (max_videos_per_channel args) chosen
                               (MkBatch [] [] fs, st0)) as [b st1].
    exact H.
Qed.

(** What a failed attempt leaves: a failed [open] leaves every file as it
    was, and a write cut short leaves the bytes that landed. Neither
    raises. *)
Lemma save_batch_results_open_fails
    (results : dict ChannelResult) (output_file : str) (fs : store) (e : exn)
    (name : str) :
  next_fault fs = Some (OpenFails e) ->
  save_batch_results results output_file fs name = fs name.
Proof.
  intros H. unfold save_batch_results, write_file. now rewrite H.
Qed.

Lemma save_batch_results_cut_short
    (results : dict ChannelResult) (output_file : str) (fs : store) (e : exn)
    (landed : nat) (bytes : list Byte.byte) :
  next_fault fs = Some (WriteFails landed e) ->
  utf8_encode (dumps (results_json results)) = Some bytes ->
  save_batch_results results output_file fs output_file
  = Some (Truncated (firstn landed bytes)).
Proof.
  intros H Hb. unfold save_batch_results, write_file. rewrite H.
  cbn [held]. unfold put, written, str_eqb.
  destruct (list_eq_dec N.eq_dec output_file output_file); [|contradiction].
  now rewrite Hb.
Qed.

(** C9: when the writes do not fail, saving the same mapping to the same
    file twice leaves the files as one save does, and what the file holds
    does not depend on what it held before. It holds the UTF-8 encoding of
    the JSON text: the bytes decode to the text (a text with a lone
    surrogate is refused by the codec and the write is cut short); the text
    reads back as the mapping; it lays the channels out in the order of the
    mapping, one after the other, each moved right by two columns, and at
    every depth a value nested one level deeper is moved right by two
    columns more; and the string encoder leaves characters outside ASCII as
    they are. *)
Theorem save_batch_results_idempotent
    (results : dict ChannelResult) (output_file : str) (fs fs' : store)
    (name s : str) (j : json) (level : nat) :
  let text := dumps (results_json results) in
  let once := save_batch_results results output_file fs in
  let twice := save_batch_results results output_file once in
  next_fault fs = None -> next_fault once = None -> next_fault fs' = None ->
  JsonReader.well_formed (results_json results) = true ->
  JsonReader.well_formed j = true ->
  forallb (fun c => (0x80 <=? c)%N) s = true ->
  twice name = once name
  /\ save_batch_results results output_file fs' output_file = once output_file
  /\ once output_file = Some (written text None)
  /\ match utf8_encode text with
     | Some bytes =>
         written text None = Complete bytes
         /\ JsonReader.utf8_decode bytes = Some text
     | None =>
         written text None = Partial text
         /\ exists c, In c text
                      /\ ((0xD800 <= c <= 0xDFFF)%N \/ (0x110000 <= c)%N)
     end
  /\ (exists n, forall fuel, n <= fuel ->
        JsonReader.loads fuel text = Some (results_json results))
  /\ text
     = match results with
       | [] => lit "{}"
       | _ =>
           lit "{"
           ++ JsonReader.indent_more
                (LF :: join (lit "," ++ [LF])
                         (map (fun item =>
                                 encode_str (fst item) ++ lit ": "
                                 ++ dumps (channel_json (snd item)))
                              results))
           ++ [LF] ++ lit "}"
       end
  /\ dumps_at (S level) j = JsonReader.indent_more (dumps_at level j)
  /\ encode_str s = Demo.quoted s.
Proof.
  intros text once twice Hfs Honce Hfs' Hwf Hj Hs.
  assert (Hsame : forall fs0, next_fault fs0 = None ->
            save_batch_results results output_file fs0 output_file
            = Some (written text None)).
  { intros fs0 H0. unfold save_batch_results. now apply write_file_lands. }
  split; [|split; [|split; [|split; [|split; [|split; [|split]]]]]].
  - subst twice. unfold save_batch_results at 1, write_file. rewrite Honce.
    cbn [held]. unfold put. destruct (str_eqb name output_file) eqn:Hn;
      [|reflexivity].
    apply str_eqb_eq in Hn. subst name. symmetry.
    now apply Hsame.
  - subst once. now rewrite !Hsame.
  - subst once. now apply Hsame.
  - unfold written. destruct (utf8_encode text) as [bytes|] eqn:Hb.
    + split; [reflexivity|]. now apply JsonFacts.utf8_decode_encode.
    + split; [reflexivity|]. now apply JsonFacts.utf8_encode_refuses.
  - now apply JsonFacts.loads_dumps.
  - subst text. destruct results as [|item results]; [reflexivity|].
    unfold results_json in *. cbn [map] in *.
    rewrite (JsonFacts.dumps_dict_layout _ _ Hwf). cbn [map].
    unfold JsonReader.member_text. cbn [fst snd]. f_equal. f_equal. f_equal.
    f_equal. f_equal. rewrite map_map. reflexivity.
  - now apply JsonFacts.dumps_deeper.
  - unfold encode_str, Demo.quoted. f_equal. f_equal.
    now apply JsonFacts.flat_map_escape_high.
Qed.

End BatchClaims.

Lemma save_batch_results_idempotent_witness :
  let results := Demo.sample_results in
  let text := dumps (results_json results) in
  let once := save_batch_results results final_file empty_store in
  let twice := save_batch_results results final_file once in
  (next_fault empty_store = None /\ next_fault once = None
   /\ JsonReader.well_formed (results_json results) = true
   /\ JsonReader.well_formed (JList [JFloat (lit "1.5"); JNull]) = true
   /\ forallb (fun c => (0x80 <=? c)%N) [0x8A69; 0x8A69]%N = true)
  /\ twice checkpoint_file = once checkpoint_file
  /\ save_batch_results results final_file empty_store final_file
     = once final_file
  /\ once final_file = Some (written text None)
  /\ match utf8_encode text with
     | Some bytes =>
         written text None = Complete bytes
         /\ JsonReader.utf8_decode bytes = Some text
     | None =>
         written text None = Partial text
         /\ exists c, In c text
                      /\ ((0xD800 <= c <= 0xDFFF)%N \/ (0x110000 <= c)%N)
     end
  /\ (exists n, forall fuel, n <= fuel ->
        JsonReader.loads fuel text = Some (results_json results))
  /\ text
     = match results with
       | [] => lit "{}"
       | _ =>
           lit "{"
           ++ JsonReader.indent_more
                (LF :: join (lit "," ++ [LF])
                         (map (fun item =>
                                 encode_str (fst item) ++ lit ": "
                                 ++ dumps (channel_json (snd item)))
                              results))
           ++ [LF] ++ lit "}"
       end
  /\ dumps_at 1 (JList [JFloat (lit "1.5"); JNull])
     = JsonReader.indent_more (dumps_at 0 (JList [JFloat (lit "1.5"); JNull]))
  /\ encode_str [0x8A69; 0x8A69]%N = Demo.quoted [0x8A69; 0x8A69]%N.
Proof.
  split; [repeat split|].
  apply (save_batch_results_idempotent Demo.sample_results final_file
           empty_store empty_store checkpoint_file [0x8A69; 0x8A69]%N
           (JList [JFloat (lit "1.5"); JNull]) 0);
    reflexivity.
Defined.


(** Characters outside ASCII pass through the string encoder unchanged. *)
Lemma encode_str_keeps_non_ascii (s : str) :
  forallb (fun c => (0x80 <=? c)%N) s = true ->
  encode_str s = Demo.quoted s.
Proof.
  unfold encode_str, Demo.quoted. intros H. f_equal. f_equal.
  now apply JsonFacts.flat_map_escape_high.
Qed.

(** The sample mapping and its text, line by line. *)
Example sample_text_is_dumped :
  dumps (results_json Demo.sample_results) = Demo.sample_text.
Proof. vm_compute. reflexivity. Qed.

(** The keys of the JSON object are the keys of the mapping, in its order. *)
Lemma results_json_keys (results : dict ChannelResult) :
  match results_json results with
  | JDict kv => map fst kv = map fst results
  | _ => False
  end.
Proof.
  unfold results_json. rewrite map_map. reflexivity.
Qed.

(** C3 (the code departs from it): with two channels of which the second
    raises at the top level, the run ends with both in [all_results] and in
    the final file, while the checkpoint still holds the serialization of
    the first channel alone: it was not rewritten after channel 2. *)
Theorem checkpoint_misses_failed_channel :
  exists r good,
    main (Demo.default_args Demo.second_fails)
         (ChannelList.Text Demo.two_channels) empty_store tt
    = Returns (Ok r)
    /\ all_results (run_batch r)
       = [(lit "good", good);
          (lit "bad", ChannelError (lit "https://x/channel/B")
                                   (lit "[Errno 13] Permission denied"))]
    /\ failed_channels (run_batch r)
       = [(lit "bad", lit "[Errno 13] Permission denied")]
    /\ files (run_batch r) final_file
       = save_batch_results (all_results (run_batch r)) final_file
                            empty_store final_file
    /\ files (run_batch r) checkpoint_file
       = save_batch_results [(lit "good", good)] checkpoint_file
                            empty_store checkpoint_file
    /\ files (run_batch r) checkpoint_file
       <> save_batch_results (all_results (run_batch r)) checkpoint_file
                             empty_store checkpoint_file.
Proof.
  eexists. eexists. split; [vm_compute; reflexivity|].
  split; [vm_compute; reflexivity|].
  split; [reflexivity|].
  split; [vm_compute; reflexivity|].
  split; [vm_compute; reflexivity|].
  vm_compute. discriminate.
Qed.

(** A single channel that raises leaves no checkpoint file at all. *)
Lemma no_checkpoint_when_only_channel_fails :
  exists r,
    main (Demo.default_args Demo.read_only)
         (ChannelList.Text (lit "leon,https://x/channel/A")) empty_store tt
    = Returns (Ok r)
    /\ all_results (run_batch r)
       = [(lit "leon", ChannelError (lit "https://x/channel/A")
                                    (lit "[Errno 13] Permission denied"))]
    /\ files (run_batch r) checkpoint_file = None
    /\ files (run_batch r) final_file <> None.
Proof.
  eexists. split; [vm_compute; reflexivity|].
  split; [reflexivity|]. split; [reflexivity|]. vm_compute. discriminate.
Qed.

(** The counts of a run in which the library refuses both videos of the one
    channel: two results, none successful, two failed. *)
Example counts_when_library_refuses :
  exists r videos,
    main (Demo.default_args Demo.forbidden)
         (ChannelList.Text (lit "leon,https://x/channel/A")) empty_store tt
    = Returns (Ok r)
    /\ all_results (run_batch r)
       = [(lit "leon", ChannelOk (lit "https://x/channel/A") 2 0 2 videos)]
    /\ stats (run_state r) = MkStats 2 0 2 0.
Proof.
  eexists. eexists. split; [vm_compute; reflexivity|].
  split; reflexivity.
Qed.

(** The same slip seen from a whole run: the channel records the video as
    failed, the instance counters count it in [total_videos] only. *)
Example invalid_url_in_a_run :
  exists r,
    main (Demo.default_args Demo.short_id)
         (ChannelList.Text (lit "leon,https://x/channel/A")) empty_store tt
    = Returns (Ok r)
    /\ all_results (run_batch r)
       = [(lit "leon",
           ChannelOk (lit "https://x/channel/A") 1 0 1
                     [InvalidUrl (lit "https://www.youtube.com/watch?v=abc")])]
    /\ stats (run_state r) = MkStats 1 0 0 0
    /\ calls (run_state r) = [CallEnumerate (lit "https://x/channel/A")].
Proof.
  eexists. split; [vm_compute; reflexivity|].
  repeat split.
Qed.

(* ================================================================== *)
(** * Further properties *)

(** ** Channel List Reader: what the entries and the warnings look like *)

Module ChannelListMore.
Import ChannelList ChannelListFacts.

Lemma lstrip_head (s : str) :
  match lstrip s with
  | [] => True
  | c :: _ => isspace c = false
  end.
Proof.
  induction s as [|c s IH]; simpl; [exact I|].
  destruct (isspace c) eqn:Hc; [exact IH | exact Hc].
Qed.

Lemma lstrip_fixed (s : str) :
  match s with [] => True | c :: _ => isspace c = false end -> lstrip s = s.
Proof. destruct s as [|c s]; simpl; [reflexivity|]. now intros ->. Qed.

Lemma lstrip_idem (s : str) : lstrip (lstrip s) = lstrip s.
Proof. apply lstrip_fixed, lstrip_head. Qed.

Lemma rstrip_idem (s : str) : rstrip (rstrip s) = rstrip s.
Proof. unfold rstrip. now rewrite rev_involutive, lstrip_idem. Qed.

Lemma rstrip_head (s : str) :
  match s with [] => True | c :: _ => isspace c = false end ->
  match rstrip s with [] => True | c :: _ => isspace c = false end.
Proof.
  destruct s as [|c s]; [intros _; exact I|].
  intros Hc. now rewrite (rstrip_cons c s Hc).
Qed.

Lemma strip_head (s : str) :
  match strip s with [] => True | c :: _ => isspace c = false end.
Proof. unfold strip. apply rstrip_head, lstrip_head. Qed.

Lemma strip_idem (s : str) : strip (strip s) = strip s.
Proof.
  unfold strip at 1. rewrite (lstrip_fixed _ (strip_head s)).
  unfold strip. apply rstrip_idem.
Qed.

Lemma line_entries_spec (raw : str) :
  line_entries raw = []
  \/ exists a b,
       strip raw = a ++ COMMA :: b /\ contains COMMA a = false
       /\ line_entries raw = [(strip a, strip b)].
Proof.
  unfold line_entries, read_line. set (line := strip raw).
  destruct (_ || startswith line HASH); [now left|].
  destruct (contains COMMA line) eqn:Hc; [|now left].
  destruct (cut_first_spec _ _ Hc) as (a & b & Hcut & Heq & Hno).
  right. exists a, b. unfold split1. rewrite Hcut. auto.
Qed.

(** The warnings one line contributes. *)
Lemma read_line_warnings (n : nat) (raw : str) (acc : reader) :
  warnings (read_line n raw acc) = warnings acc
  \/ (warnings (read_line n raw acc)
      = warnings acc ++ [lit "Line " ++ str_of_nat n
                         ++ lit ": Missing comma separator, skipping: "
                         ++ strip raw]
      /\ strip raw <> [] /\ startswith (strip raw) HASH = false
      /\ contains COMMA (strip raw) = false).
Proof.
  unfold read_line. set (line := strip raw).
  destruct line as [|c t] eqn:Hl; [now left|].
  cbn [orb]. destruct (startswith (c :: t) HASH) eqn:Hh; [now left|].
  destruct (contains COMMA (c :: t)) eqn:Hc.
  - destruct (cut_first_spec _ _ Hc) as (a & b & Hcut & _).
    unfold split1. rewrite Hcut. now left.
  - right. repeat split. discriminate.
Qed.

Lemma read_lines_warnings (ls : list str) (n : nat) (acc : reader) (w : str) :
  In w (warnings (read_lines n ls acc)) ->
  In w (warnings acc)
  \/ exists i raw,
       nth_error ls i = Some raw
       /\ w = lit "Line " ++ str_of_nat (n + i)
              ++ lit ": Missing comma separator, skipping: " ++ strip raw
       /\ strip raw <> [] /\ startswith (strip raw) HASH = false
       /\ contains COMMA (strip raw) = false.
Proof.
  revert n acc. induction ls as [|l ls IH]; intros n acc Hin; [now left|].
  cbn [read_lines] in Hin. apply IH in Hin.
  destruct Hin as [Hin | (i & raw & Hnth & Hw & Hrest)].
  - destruct (read_line_warnings n l acc) as [Heq | [Heq Hrest]];
      rewrite Heq in Hin; [now left|].
    apply in_app_or in Hin. destruct Hin as [Hin | [Hin | []]]; [now left|].
    right. exists 0, l. rewrite Nat.add_0_r. now split.
  - right. exists (S i), raw. split; [exact Hnth|].
    replace (n + S i) with (S n + i) by lia. now split.
Qed.

(** X1: every entry the reader returns has a name and a URL without
    surrounding whitespace, and a name without a comma. *)
Theorem entries_are_trimmed (text : str) (r : reader) (name url : str) :
  read_channel_list (Text text) = Returns r ->
  In (name, url) (channels r) ->
  strip name = name /\ strip url = url /\ contains COMMA name = false.
Proof.
  intros Hr Hin. inversion Hr; subst r. clear Hr.
  rewrite read_lines_channels in Hin. cbn [channels app] in Hin.
  apply in_flat_map in Hin. destruct Hin as (raw & _ & Hin).
  destruct (line_entries_spec raw) as [He | (a & b & _ & Hno & He)];
    rewrite He in Hin; [contradiction|].
  destruct Hin as [Hin | []]. inversion Hin; subst.
  rewrite !strip_idem. repeat split.
  now rewrite contains_strip.
Qed.

Lemma entries_are_trimmed_witness :
  strip (lit "A") = lit "A" /\ strip (lit "B,C") = lit "B,C"
  /\ contains COMMA (lit "A") = false.
Proof.
  apply (entries_are_trimmed (lit "  A ,  B,C  ")
           (Reader [(lit "A", lit "B,C")] []) (lit "A") (lit "B,C")).
  - reflexivity.
  - left. reflexivity.
Defined.

(** X2: every warning of the reader is a missing-comma warning: it names
    the 1-based number of a line of the file and repeats that line
    stripped, and the line is neither blank, nor a comment, nor has a comma.
    The "Invalid format" warning is never emitted. *)
Theorem warnings_name_commaless_lines (text : str) (r : reader) (w : str) :
  read_channel_list (Text text) = Returns r ->
  In w (warnings r) ->
  exists n raw,
    1 <= n <= length (file_lines text)
    /\ nth_error (file_lines text) (n - 1) = Some raw
    /\ w = lit "Line " ++ str_of_nat n
           ++ lit ": Missing comma separator, skipping: " ++ strip raw
    /\ strip raw <> [] /\ startswith (strip raw) HASH = false
    /\ contains COMMA raw = false.
Proof.
  intros Hr Hin. inversion Hr; subst r. clear Hr.
  apply read_lines_warnings in Hin.
  destruct Hin as [[] | (i & raw & Hnth & Hw & Hne & Hh & Hc)].
  exists (S i), raw.
  assert (Hlt : i < length (file_lines text))
    by (apply nth_error_Some; congruence).
  replace (S i - 1) with i by lia.
  rewrite contains_strip in Hc by reflexivity.
  repeat split; try assumption; lia.
Qed.

Lemma warnings_name_commaless_lines_witness :
  exists n raw,
    1 <= n <= length (file_lines scenario)
    /\ nth_error (file_lines scenario) (n - 1) = Some raw
    /\ lit "Line 4: Missing comma separator, skipping: bad-line"
       = lit "Line " ++ str_of_nat n
         ++ lit ": Missing comma separator, skipping: " ++ strip raw
    /\ strip raw <> [] /\ startswith (strip raw) HASH = false
    /\ contains COMMA raw = false.
Proof.
  apply (warnings_name_commaless_lines scenario
           (Reader [(lit "leon", lit "https://x/channel/AAA");
                    (lit "foo", lit "https://x/channel/BBB")]
                   [lit "Line 4: Missing comma separator, skipping: bad-line"])).
  - reflexivity.
  - left. reflexivity.
Defined.

End ChannelListMore.

(** ** Channel List Reader: joining two files *)

Module ChannelListJoin.
Import ChannelList ChannelListFacts.











End ChannelListJoin.

(** ** Video-ID extraction: what an extracted ID is *)

Module VideoIdMore.
Import VideoIdFacts.

Lemma take_id_spec (n : nat) (s g r : str) :
  take_id n s = Some (g, r) ->
  length g = n /\ forallb id_char g = true /\ s = g ++ r.
Proof.
  revert s g r. induction n as [|n IH]; intros s g r; simpl.
  - intros H. inversion H; subst. auto.
  - destruct s as [|c t]; [discriminate|].
    destruct (id_char c) eqn:Hc; [|discriminate].
    destruct (take_id n t) as [[g' r']|] eqn:Ht; [|discriminate].
    intros H. inversion H; subst.
    destruct (IH _ _ _ Ht) as (Hl & Ha & Hs).
    simpl. rewrite Hc, Ha, Hl, Hs. auto.
Qed.

Lemma eat_spec (p s r : str) : eat p s = Some r -> s = p ++ r.
Proof.
  revert s. induction p as [|a p IH]; intros s; simpl.
  - congruence.
  - destruct s as [|c t]; [discriminate|].
    destruct (N.eqb_spec a c) as [->|]; [|discriminate].
    intros H. now rewrite (IH _ H).
Qed.

Lemma lit_then_id_spec (p s g : str) :
  lit_then_id p s = Some g ->
  valid_id g /\ exists r, s = p ++ g ++ r.
Proof.
  unfold lit_then_id.
  destruct (eat p s) as [t|] eqn:He; [|discriminate].
  destruct (take_id 11 t) as [[g' r]|] eqn:Ht; [|discriminate].
  intros H. inversion H; subst g'.
  destruct (take_id_spec _ _ _ _ Ht) as (Hl & Ha & Hs).
  split; [now split|]. exists r. rewrite (eat_spec _ _ _ He). now rewrite Hs.
Qed.

Lemma search_found (m : str -> option str) (s g : str) :
  search m s = Some g -> exists k, m (skipn k s) = Some g.
Proof.
  induction s as [|c s IH]; simpl.
  - destruct (m []) eqn:Hm; [|discriminate]. intros H. exists 0. now rewrite <- H.
  - destruct (m (c :: s)) eqn:Hm.
    + intros H. exists 0. simpl. now rewrite <- H.
    + intros H. destruct (IH H) as [k Hk]. now exists (S k).
Qed.

Lemma at_position (s t : str) (k : nat) (p g r : str) :
  skipn k s = p ++ g ++ r -> exists a b, s = a ++ g ++ b.
Proof.
  intros H. exists (firstn k s ++ p), r.
  rewrite <- (firstn_skipn k s) at 1. rewrite H, <- app_assoc. reflexivity.
Qed.

(** X4: an extracted ID is eleven characters of the class [[0-9A-Za-z_-]]
    and occurs in the URL as it stands. *)
Theorem extracted_id_is_a_token_of_the_url (url g : str) :
  _extract_video_id url = Some g ->
  valid_id g /\ exists a b, url = a ++ g ++ b.
Proof.
  unfold _extract_video_id, patterns, first_match.
  destruct (search pattern1_at url) as [g1|] eqn:H1.
  - intros H. inversion H; subst g1. clear H.
    apply search_found in H1. destruct H1 as [k Hk].
    unfold pattern1_at, or_else in Hk.
    destruct (lit_then_id (lit "v=") (skipn k url)) as [g'|] eqn:Hv.
    + inversion Hk; subst g'.
      destruct (lit_then_id_spec _ _ _ Hv) as (Hval & r & Hs).
      split; [exact Hval | exact (at_position url [] k _ _ _ Hs)].
    + destruct (lit_then_id_spec _ _ _ Hk) as (Hval & r & Hs).
      split; [exact Hval | exact (at_position url [] k _ _ _ Hs)].
  - destruct (search pattern2_at url) as [g2|] eqn:H2.
    + intros H. inversion H; subst g2. clear H.
      apply search_found in H2. destruct H2 as [k Hk].
      destruct (lit_then_id_spec _ _ _ Hk) as (Hval & r & Hs).
      split; [exact Hval | exact (at_position url [] k _ _ _ Hs)].
    + unfold pattern3.
      destruct (take_id 11 url) as [[g3 r]|] eqn:H3; [|discriminate].
      destruct (take_id_spec _ _ _ _ H3) as (Hl & Ha & Hs).
      destruct (match r with [] => true | [c] => N.eqb c LF | _ => false end);
        [|discriminate].
      intros H. inversion H; subst g3.
      split; [now split|]. exists [], r. exact Hs.
Qed.

Lemma extracted_id_is_a_token_of_the_url_witness :
  valid_id (lit "BFudEmWtgAc")
  /\ exists a b,
       lit "https://www.youtube.com/watch?v=BFudEmWtgAc&t=10"
       = a ++ lit "BFudEmWtgAc" ++ b.
Proof.
  apply (extracted_id_is_a_token_of_the_url
           (lit "https://www.youtube.com/watch?v=BFudEmWtgAc&t=10")
           (lit "BFudEmWtgAc")).
  reflexivity.
Defined.

Lemma embed_is_slash (s g : str) :
  pattern2_at s = Some g -> pattern1_at (skipn 5 s) = Some g.
Proof.
  unfold pattern2_at, lit_then_id.
  destruct (eat (lit "embed/") s) as [r|] eqn:He; [|discriminate].
  rewrite (eat_spec _ _ _ He). intros H.
  change (skipn 5 (lit "embed/" ++ r)) with (lit "/" ++ r).
  unfold pattern1_at, lit_then_id. cbn -[take_id].
  destruct (take_id 11 r) as [[g' r']|]; [exact H | discriminate].
Qed.

Lemma no_slash_no_embed (url : str) :
  search pattern1_at url = None -> search pattern2_at url = None.
Proof.
  intros H1. pose proof (search_none_everywhere _ _ H1) as Hall.
  apply nowhere_search_none. intros k.
  destruct (pattern2_at (skipn k url)) as [g|] eqn:H2; [|reflexivity].
  apply embed_is_slash in H2. rewrite skipn_skipn in H2.
  rewrite Hall in H2. discriminate.
Qed.

Lemma extract_two_patterns (url : str) :
  _extract_video_id url = first_match [search pattern1_at; pattern3] url.
Proof.
  unfold _extract_video_id, patterns, first_match.
  destruct (search pattern1_at url) eqn:H1; [reflexivity|].
  now rewrite (no_slash_no_embed url H1).
Qed.

(** X5: the second pattern ([embed/]) never decides: extraction is the
    first pattern searched through the URL, and failing that the third,
    the whole string as a bare token. *)
Theorem embed_pattern_never_decides (url : str) :
  _extract_video_id url = first_match [search pattern1_at; pattern3] url
  /\ (search pattern1_at url = None -> search pattern2_at url = None).
Proof.
  split; [apply extract_two_patterns | apply no_slash_no_embed].
Qed.

Lemma pattern1_needs_separator (s g : str) :
  pattern1_at s = Some g -> In (ch "=") s \/ In (ch "/") s.
Proof.
  unfold pattern1_at, or_else.
  destruct (lit_then_id (lit "v=") s) as [g'|] eqn:Hv.
  - intros _. destruct (lit_then_id_spec _ _ _ Hv) as (_ & r & ->).
    left. simpl. auto.
  - intros Hs. destruct (lit_then_id_spec _ _ _ Hs) as (_ & r & ->).
    right. simpl. auto.
Qed.

Lemma in_skipn {A} (x : A) (k : nat) (l : list A) : In x (skipn k l) -> In x l.
Proof.
  intros H. rewrite <- (firstn_skipn k l). apply in_or_app. now right.
Qed.

Lemma no_separator_no_match (url : str) :
  ~ In (ch "=") url -> ~ In (ch "/") url -> search pattern1_at url = None.
Proof.
  intros He Hs. apply nowhere_search_none. intros k.
  destruct (pattern1_at (skipn k url)) as [g|] eqn:Hp; [|reflexivity].
  exfalso. destruct (pattern1_needs_separator _ _ Hp) as [H | H];
    apply in_skipn in H; contradiction.
Qed.

Lemma class_char_in (x : char) (s : str) :
  forallb id_char s = true -> In x s -> id_char x = true.
Proof. intros H. rewrite forallb_forall in H. apply H. Qed.

(** X6: a string made only of characters of the class is its own ID when
    it has exactly eleven of them, also with one final newline, and gives
    no ID at any other length: a bare token is never cut to size. *)
Theorem bare_token (s : str) :
  forallb id_char s = true ->
  (length s = 11 ->
   _extract_video_id s = Some s /\ _extract_video_id (s ++ [LF]) = Some s)
  /\ (length s <> 11 -> _extract_video_id s = None).
Proof.
  intros Hall.
  assert (Hsep : forall x, id_char x = false -> x <> LF -> ~ In x (s ++ [LF])).
  { intros x Hx Hn Hin. apply in_app_or in Hin. destruct Hin as [Hin | [Hin | []]].
    - rewrite (class_char_in x s Hall Hin) in Hx. discriminate.
    - congruence. }
  assert (Hsep' : forall x, id_char x = false -> ~ In x s).
  { intros x Hx Hin. rewrite (class_char_in x s Hall Hin) in Hx. discriminate. }
  assert (H1 : search pattern1_at s = None)
    by (apply no_separator_no_match; apply Hsep'; reflexivity).
  assert (H1' : search pattern1_at (s ++ [LF]) = None)
    by (apply no_separator_no_match; apply Hsep;
        (reflexivity || discriminate)).
  split.
  - intros Hlen. split.
    + rewrite extract_two_patterns. unfold first_match. rewrite H1.
      unfold pattern3. rewrite <- (app_nil_r s) at 1.
      now rewrite (take_id_app s [] 11 Hlen Hall).
    + rewrite extract_two_patterns. unfold first_match. rewrite H1'.
      unfold pattern3. now rewrite (take_id_app s [LF] 11 Hlen Hall).
  - intros Hlen. rewrite extract_two_patterns. unfold first_match.
    rewrite H1. unfold pattern3.
    destruct (take_id 11 s) as [[g r]|] eqn:Ht; [|reflexivity].
    destruct (take_id_spec _ _ _ _ Ht) as (Hl & _ & Hs).
    destruct r as [|c [|d r]].
    + exfalso. rewrite app_nil_r in Hs. subst g. contradiction.
    + subst s. rewrite forallb_app in Hall. apply andb_prop in Hall.
      destruct Hall as [_ Hc]. simpl in Hc. rewrite andb_true_r in Hc.
      destruct (N.eqb_spec c LF) as [->|]; [discriminate | reflexivity].
    + reflexivity.
Qed.

Lemma bare_token_witness :
  (length (lit "BFudEmWtgAc") = 11 ->
   _extract_video_id (lit "BFudEmWtgAc") = Some (lit "BFudEmWtgAc")
   /\ _extract_video_id (lit "BFudEmWtgAc" ++ [LF]) = Some (lit "BFudEmWtgAc"))
  /\ (length (lit "BFudEmWtgAc") <> 11 ->
      _extract_video_id (lit "BFudEmWtgAc") = None).
Proof.
  apply (bare_token (lit "BFudEmWtgAc")). reflexivity.
Defined.

End VideoIdMore.

(** ** Downloader: enumeration *)

Section EnumerationMore.
Context {E : External}.

Lemma entry_ids_cons (e : entry) (es : list entry) :
  map watch_url (entry_ids (e :: es))
  = match entry_id e with
    | Some i => watch_url i :: map watch_url (entry_ids es)
    | None => map watch_url (entry_ids es)
    end.
Proof.
  unfold entry_ids. cbn [flat_map]. destruct (entry_id e); reflexivity.
Qed.

Lemma collect_urls_uncapped (max_videos : option Z) (es : list entry)
    (acc : list str) :
  (forall l, limit_reached max_videos l = false) ->
  collect_urls max_videos es acc = acc ++ map watch_url (entry_ids es).
Proof.
  intros Hl. revert acc.
  induction es as [|e es IH]; intros acc; cbn [collect_urls].
  - now rewrite app_nil_r.
  - rewrite entry_ids_cons. destruct (entry_id e) as [i|]; [|apply IH].
    rewrite Hl, IH, <- app_assoc. reflexivity.
Qed.

Lemma collect_urls_positive (m : Z) (es : list entry) (acc : list str) :
  (Z.of_nat (length acc) < m)%Z ->
  collect_urls (Some m) es acc
  = acc ++ firstn (Z.to_nat m - length acc) (map watch_url (entry_ids es)).
Proof.
  revert acc. induction es as [|e es IH]; intros acc Hacc; cbn [collect_urls].
  - rewrite firstn_nil. now rewrite app_nil_r.
  - rewrite entry_ids_cons. destruct (entry_id e) as [i|]; [|now apply IH].
    fold (watch_url i).
    match goal with |- context [collect_urls _ _ ?u] => set (urls := u) end.
    assert (Hlen : length urls = S (length acc))
      by (subst urls; rewrite length_app; simpl; lia).
    replace (Z.to_nat m - length acc)
      with (S (Z.to_nat m - S (length acc))) by lia.
    cbn [firstn]. unfold limit_reached. rewrite Hlen.
    destruct (Z.eqb_spec m 0); [lia|]. cbn [negb andb].
    destruct (Z.leb_spec m (Z.of_nat (S (length acc)))).
    + replace (Z.to_nat m - S (length acc)) with 0 by lia. reflexivity.
    + rewrite IH by (rewrite Hlen; lia).
      rewrite Hlen. subst urls. rewrite <- app_assoc. reflexivity.
Qed.

Lemma collect_urls_negative (m : Z) (es : list entry) (acc : list str) :
  (m < 0)%Z ->
  collect_urls (Some m) es acc
  = acc ++ firstn 1 (map watch_url (entry_ids es)).
Proof.
  intros Hm. revert acc.
  induction es as [|e es IH]; intros acc; cbn [collect_urls].
  - now rewrite app_nil_r.
  - rewrite entry_ids_cons. destruct (entry_id e) as [i|]; [|apply IH].
    fold (watch_url i).
    match goal with |- context [collect_urls _ _ ?u] => set (urls := u) end.
    unfold limit_reached.
    destruct (Z.eqb_spec m 0); [lia|]. cbn [negb andb].
    destruct (Z.leb_spec m (Z.of_nat (length urls))); [reflexivity | lia].
Qed.

Lemma collect_urls_capped (max_videos : option Z) (es : list entry) :
  collect_urls max_videos es [] = capped max_videos (map watch_url (entry_ids es)).
Proof.
  unfold capped. destruct max_videos as [m|].
  - destruct (Z.eqb_spec m 0) as [->|Hm].
    + now rewrite collect_urls_uncapped.
    + destruct (Z.ltb_spec 0 m).
      * rewrite collect_urls_positive by (simpl; lia).
        simpl. now rewrite Nat.sub_0_r.
      * now rewrite collect_urls_negative by lia.
  - now rewrite collect_urls_uncapped.
Qed.

(** X7: the cap of [get_channel_videos] in closed form. The loop over the
    entries keeps the watch URLs of the entries that have an id, in order:
    the first [max_videos] of them when that is positive, all of them when
    it is 0 or [None], and one when it is negative. A call that returns a
    list that is not empty got entries from the library and returns what
    the loop keeps of them; and a call that returns has left the counters
    alone and asked the library once. *)
Theorem get_channel_videos_closed_form
    (self : YTDownloader) (channel_url : str) (max_videos : option Z)
    (st st' : state) (urls : list str) (listed : list entry) :
  get_channel_videos self channel_url max_videos st = (Ok urls, st') ->
  collect_urls max_videos listed []
  = capped max_videos (map watch_url (entry_ids listed))
  /\ (urls <> [] ->
      exists entries,
        fst (ydl_extract_flat (cookies_in_use self (world st))
                              channel_url (world st))
        = Ok (FlatEntries entries)
        /\ urls = capped max_videos (map watch_url (entry_ids entries)))
  /\ stats st' = stats st
  /\ calls st' = calls st ++ [CallEnumerate channel_url].
Proof.
  intros Hrun. split; [apply collect_urls_capped|].
  revert Hrun.
  unfold get_channel_videos, bind, try_except, io, ask, trace, ret, raise.
  cbn [world stats calls].
  destruct (ydl_extract_flat _ channel_url (world st)) as [[[| |entries]|e] w'];
    cbn [fst snd]; intros H; inversion H; subst; cbn [stats calls];
    (split; [|split; reflexivity]); try (intros Hne; now contradiction Hne).
  intros _. exists entries. split; [reflexivity | apply collect_urls_capped].
Qed.

End EnumerationMore.

Lemma get_channel_videos_closed_form_witness :
  get_channel_videos (Demo.downloader Demo.fine) (lit "https://x/channel/A")
                     (Some (-1)%Z) (Demo.start Demo.fine)
  = (Ok [Demo.watch1],
     @MkState (Demo.scripted Demo.fine) init_stats tt
              [CallEnumerate (lit "https://x/channel/A")])
  /\ collect_urls (Some (-1)%Z) [EntryNoId; EntryId Demo.vid2; EntryId Demo.vid1] []
     = capped (Some (-1)%Z)
         (map watch_url (entry_ids [EntryNoId; EntryId Demo.vid2;
                                    EntryId Demo.vid1]))
  /\ ([Demo.watch1] <> [] ->
      exists entries,
        fst (@ydl_extract_flat (Demo.scripted Demo.fine)
               (cookies_in_use (Demo.downloader Demo.fine)
                               (world (Demo.start Demo.fine)))
               (lit "https://x/channel/A") (world (Demo.start Demo.fine)))
        = Ok (FlatEntries entries)
        /\ [Demo.watch1]
           = capped (Some (-1)%Z) (map watch_url (entry_ids entries)))
  /\ init_stats = stats (Demo.start Demo.fine)
  /\ [CallEnumerate (lit "https://x/channel/A")]
     = calls (Demo.start Demo.fine) ++ [CallEnumerate (lit "https://x/channel/A")].
Proof.
  split; [reflexivity|].
  apply (@get_channel_videos_closed_form (Demo.scripted Demo.fine)
           (Demo.downloader Demo.fine) (lit "https://x/channel/A")
           (Some (-1)%Z) (Demo.start Demo.fine)
           (@MkState (Demo.scripted Demo.fine) init_stats tt
                     [CallEnumerate (lit "https://x/channel/A")])
           [Demo.watch1] [EntryNoId; EntryId Demo.vid2; EntryId Demo.vid1]).
  reflexivity.
Defined.

(** ** Downloader: one video *)

Section DownloadMore.
Context {E : External}.

Ltac unfold_monad :=
  unfold bind, try_except, io, ask, update_stats, trace, ret, raise in *;
  cbn [fst snd stats world calls] in *.

Ltac pair_eq :=
  match goal with
  | |- (_, _) = (_, _) -> _ =>
      let H := fresh in intros H; inversion H; subst; clear H
  end.

(** What a returning call did, read off its result. *)
Lemma download_step (self : YTDownloader) (u channel_name : str)
    (st st' : state) (r : VideoResult) :
  download_video_audio self u channel_name st = (Ok r, st') ->
  result_url r = u
  /\ calls st' = calls st ++ library_calls_of r
  /\ total_videos (stats st') = total_videos (stats st)
  /\ successful (stats st') = successful (stats st) + count_status "success" [r]
  /\ failed (stats st') + count_invalid [r]
     = failed (stats st) + count_status "failed" [r].
Proof.
  unfold download_video_audio.
  destruct (_extract_video_id u) as [vid|].
  2:{ unfold ret. pair_eq. cbn. rewrite app_nil_r. repeat split; lia. }
  unfold_monad.
  destruct (mkdir true _ (world st)) as [[[]|e0] w1]; [|discriminate].
  unfold_monad.
  destruct (ydl_download _ u w1) as [[[[|item items]|]|e1] w2]; unfold_monad.
  1,3,4: pair_eq; cbn; repeat split; lia.
  unfold _extract_metadata. unfold_monad.
  destruct (write_text _ _ w2) as [[[]|e2] w3]; unfold_monad;
    pair_eq; cbn; repeat split; lia.
Qed.

Lemma metadata_returns (i : info) (channel_name url : str) (st : state) :
  exists md, _extract_metadata i channel_name url st = (Ok md, st).
Proof. eexists. reflexivity. Qed.

(** X8: what stands behind a success result. When [download_video_audio]
    returns a result with status [success], the URL had an ID, the
    directory [<base>/<channel>/<id>] was created, the library was asked
    once and gave an info dict that is not empty, and the metadata the
    result carries was written to [<dir>/<id>.json]; [successful] is one
    more and [failed] as before. *)
Theorem download_success
    (self : YTDownloader) (url channel_name : str) (st st' : state)
    (u vid c dir mf : str) (md : json) :
  download_video_audio self url channel_name st
  = (Ok (Success u vid c dir mf md), st') ->
  u = url /\ c = channel_name
  /\ _extract_video_id url = Some vid
  /\ dir = video_dir self channel_name vid
  /\ mf = joinpath dir (vid ++ lit ".json")
  /\ (exists w1 w2 w3 item items,
        mkdir true dir (world st) = (Ok tt, w1)
        /\ ydl_download (_get_ydl_opts self dir w1) url w1
           = (Ok (Some (item :: items)), w2)
        /\ fst (_extract_metadata (item :: items) channel_name url
                  (MkState (stats st) w2 (calls st ++ [CallDownload url])))
           = Ok md
        /\ write_text mf (dumps md) w2 = (Ok tt, w3))
  /\ stats st' = add_successful (stats st)
  /\ calls st' = calls st ++ [CallDownload url].
Proof.
  unfold download_video_audio.
  destruct (_extract_video_id url) as [v|] eqn:Hid; [|discriminate].
  unfold_monad.
  destruct (mkdir true _ (world st)) as [[[]|e0] w1] eqn:Hmk; [|discriminate].
  unfold_monad.
  destruct (ydl_download _ url w1) as [[[[|item items]|]|e1] w2] eqn:Hlib;
    unfold_monad; try discriminate.
  unfold _extract_metadata. unfold_monad.
  destruct (write_text _ _ w2) as [[[]|e2] w3] eqn:Hwr; unfold_monad;
    [|discriminate].
  intros H. injection H as -> -> -> <- <- <- <-.
  repeat split.
  exists w1, w2, w3, item, items.
  split; [exact Hmk|]. split; [exact Hlib|]. split; [reflexivity | exact Hwr].
Qed.

(** X9: the download works and the metadata file cannot be written. The
    library has been called, and the call still returns a failure result
    with the text of the write error, and adds one to [failed]. *)
Theorem metadata_write_failure_is_a_failed_download
    (self : YTDownloader) (url channel_name vid : str) (st : state)
    (w1 w2 w3 : World) (item : str * json) (items : info) (metadata : json)
    (e : exn) :
  _extract_video_id url = Some vid ->
  mkdir true (video_dir self channel_name vid) (world st) = (Ok tt, w1) ->
  ydl_download (_get_ydl_opts self (video_dir self channel_name vid) w1) url w1
  = (Ok (Some (item :: items)), w2) ->
  fst (_extract_metadata (item :: items) channel_name url
         (MkState (stats st) w2 (calls st ++ [CallDownload url])))
  = Ok metadata ->
  write_text (joinpath (video_dir self channel_name vid) (vid ++ lit ".json"))
             (dumps metadata) w2
  = (Raise e, w3) ->
  download_video_audio self url channel_name st
  = (Ok (Failure url vid channel_name (exn_msg e)),
     MkState (add_failed (stats st)) w3 (calls st ++ [CallDownload url])).
Proof.
  intros Hid Hmk Hlib Hmd Hwr.
  destruct (metadata_returns (item :: items) channel_name url
              (MkState (stats st) w2 (calls st ++ [CallDownload url])))
    as [md Hm].
  rewrite Hm in Hmd. injection Hmd as Hmd. subst md.
  unfold download_video_audio. rewrite Hid.
  unfold bind at 1, io at 1. rewrite Hmk.
  unfold try_except, bind at 1, ask at 1. cbn [world].
  unfold bind at 1, trace at 1. unfold bind at 1, io at 1.
  cbn [world stats calls]. rewrite Hlib.
  unfold bind at 1. rewrite Hm.
  unfold bind at 1, io at 1. cbn [world stats calls]. rewrite Hwr.
  reflexivity.
Qed.

(** X10: a falsy answer of the library, [None] or an empty dict, is a
    failure with the error "No info returned from yt-dlp"; nothing is
    written and [failed] grows by one. *)
Theorem falsy_info_is_a_failed_download
    (self : YTDownloader) (url channel_name vid : str) (st : state)
    (w1 w2 : World) (i : option info) :
  _extract_video_id url = Some vid ->
  mkdir true (video_dir self channel_name vid) (world st) = (Ok tt, w1) ->
  ydl_download (_get_ydl_opts self (video_dir self channel_name vid) w1) url w1
  = (Ok i, w2) ->
  i = None \/ i = Some [] ->
  download_video_audio self url channel_name st
  = (Ok (Failure url vid channel_name (lit "No info returned from yt-dlp")),
     MkState (add_failed (stats st)) w2 (calls st ++ [CallDownload url])).
Proof.
  intros Hid Hmk Hlib Hi. unfold download_video_audio. rewrite Hid.
  unfold_monad. rewrite Hmk. unfold_monad. rewrite Hlib.
  destruct Hi as [-> | ->]; reflexivity.
Qed.

End DownloadMore.

Lemma download_success_witness :
  Demo.watch1 = Demo.watch1 /\ lit "leon" = lit "leon"
  /\ _extract_video_id Demo.watch1 = Some Demo.vid1
  /\ lit "downloads/leon/BFudEmWtgAc"
     = video_dir (Demo.downloader Demo.fine) (lit "leon") Demo.vid1
  /\ lit "downloads/leon/BFudEmWtgAc/BFudEmWtgAc.json"
     = @joinpath (Demo.scripted Demo.fine) (lit "downloads/leon/BFudEmWtgAc")
                 (Demo.vid1 ++ lit ".json")
  /\ (exists w1 w2 w3 item items,
        @mkdir (Demo.scripted Demo.fine) true (lit "downloads/leon/BFudEmWtgAc")
               (world (Demo.start Demo.fine)) = (Ok tt, w1)
        /\ ydl_download (_get_ydl_opts (Demo.downloader Demo.fine)
                                       (lit "downloads/leon/BFudEmWtgAc") w1)
                        Demo.watch1 w1
           = (Ok (Some (item :: items)), w2)
        /\ fst (_extract_metadata (item :: items) (lit "leon") Demo.watch1
                  (MkState (stats (Demo.start Demo.fine)) w2
                           (calls (Demo.start Demo.fine)
                            ++ [CallDownload Demo.watch1])))
           = Ok Demo2.fine_metadata
        /\ write_text (lit "downloads/leon/BFudEmWtgAc/BFudEmWtgAc.json")
                      (dumps Demo2.fine_metadata) w2 = (Ok tt, w3))
  /\ MkStats 0 1 0 0 = add_successful (stats (Demo.start Demo.fine))
  /\ [CallDownload Demo.watch1]
     = calls (Demo.start Demo.fine) ++ [CallDownload Demo.watch1].
Proof.
  apply (@download_success (Demo.scripted Demo.fine) (Demo.downloader Demo.fine)
           Demo.watch1 (lit "leon") (Demo.start Demo.fine)
           (@MkState (Demo.scripted Demo.fine) (MkStats 0 1 0 0) tt
                     [CallDownload Demo.watch1])
           Demo.watch1 Demo.vid1 (lit "leon")
           (lit "downloads/leon/BFudEmWtgAc")
           (lit "downloads/leon/BFudEmWtgAc/BFudEmWtgAc.json")
           Demo2.fine_metadata).
  reflexivity.
Defined.

Lemma metadata_write_failure_is_a_failed_download_witness :
  download_video_audio (Demo.downloader Demo2.disk_full) Demo.watch1 (lit "leon")
                       (Demo.start Demo2.disk_full)
  = (Ok (Failure Demo.watch1 Demo.vid1 (lit "leon")
                 (lit "[Errno 28] No space left on device")),
     @MkState (Demo.scripted Demo2.disk_full) (MkStats 0 0 1 0) tt
              [CallDownload Demo.watch1]).
Proof.
  apply (@metadata_write_failure_is_a_failed_download
           (Demo.scripted Demo2.disk_full) (Demo.downloader Demo2.disk_full)
           Demo.watch1 (lit "leon") Demo.vid1 (Demo.start Demo2.disk_full)
           tt tt tt (lit "id", JStr Demo.vid1) []
           (match fst (_extract_metadata [(lit "id", JStr Demo.vid1)]
                         (lit "leon") Demo.watch1 (Demo.start Demo2.disk_full)) with
            | Ok m => m
            | Raise _ => JNull
            end)
           (Exn (lit "[Errno 28] No space left on device")));
    reflexivity.
Defined.

Lemma falsy_info_is_a_failed_download_witness :
  download_video_audio (Demo.downloader Demo2.no_info) Demo.watch1 (lit "leon")
                       (Demo.start Demo2.no_info)
  = (Ok (Failure Demo.watch1 Demo.vid1 (lit "leon")
                 (lit "No info returned from yt-dlp")),
     @MkState (Demo.scripted Demo2.no_info) (MkStats 0 0 1 0) tt
              [CallDownload Demo.watch1]).
Proof.
  apply (@falsy_info_is_a_failed_download
           (Demo.scripted Demo2.no_info) (Demo.downloader Demo2.no_info)
           Demo.watch1 (lit "leon") Demo.vid1 (Demo.start Demo2.no_info)
           tt tt (Some [])).
  - reflexivity.
  - reflexivity.
  - reflexivity.
  - right. reflexivity.
Defined.


(** ** Downloader: one channel *)

Section ChannelMore.
Context {E : External}.

Lemma count_status_app (s : string) (a b : list VideoResult) :
  count_status s (a ++ b) = count_status s a + count_status s b.
Proof. unfold count_status. now rewrite filter_app, length_app. Qed.

Lemma count_invalid_app (a b : list VideoResult) :
  count_invalid (a ++ b) = count_invalid a + count_invalid b.
Proof. unfold count_invalid. now rewrite filter_app, length_app. Qed.

Lemma get_channel_videos_state (self : YTDownloader) (channel_url : str)
    (max_videos : option Z) (st : state) :
  exists urls w',
    get_channel_videos self channel_url max_videos st
    = (Ok urls, MkState (stats st) w' (calls st ++ [CallEnumerate channel_url])).
Proof.
  unfold get_channel_videos, bind, try_except, io, ask, trace, ret, raise.
  cbn [world stats calls].
  destruct (ydl_extract_flat _ channel_url (world st)) as [[[| |entries]|e] w'];
    eexists; eexists; reflexivity.
Qed.

(** The loop over the URLs, when it runs to its end. *)
Lemma download_each_spec (self : YTDownloader) (channel_name : str)
    (urls : list str) (n idx : nat) (results rs : list VideoResult)
    (st st' : state) :
  download_each self channel_name n idx urls results st = (Ok rs, st') ->
  exists new,
    rs = results ++ new
    /\ map result_url new = urls
    /\ calls st' = calls st ++ flat_map library_calls_of new
    /\ total_videos (stats st') = total_videos (stats st)
    /\ successful (stats st') = successful (stats st) + count_status "success" new
    /\ failed (stats st') + count_invalid new
       = failed (stats st) + count_status "failed" new.
Proof.
  revert idx results st.
  induction urls as [|u urls IH]; intros idx results st; cbn [download_each].
  - unfold ret. intros H. inversion H; subst. exists [].
    rewrite !app_nil_r. cbn. repeat split; lia.
  - unfold bind at 1.
    destruct (download_video_audio self u channel_name st) as [[r|e] st1] eqn:Hd;
      [|discriminate].
    destruct (download_step _ _ _ _ _ _ Hd) as (Hu & Hc & Ht & Hs & Hf).
    unfold bind at 1.
    assert (Hnext : forall st2,
               stats st2 = stats st1 -> calls st2 = calls st1 ->
               download_each self channel_name n (S idx) urls (results ++ [r]) st2
               = (Ok rs, st') ->
               exists new,
                 rs = results ++ new
                 /\ map result_url new = u :: urls
                 /\ calls st' = calls st ++ flat_map library_calls_of new
                 /\ total_videos (stats st') = total_videos (stats st)
                 /\ successful (stats st')
                    = successful (stats st) + count_status "success" new
                 /\ failed (stats st') + count_invalid new
                    = failed (stats st) + count_status "failed" new).
    { intros st2 Hs2 Hc2 Hrun. apply IH in Hrun.
      destruct Hrun as (new & -> & Hm & Hc' & Ht' & Hs' & Hf').
      exists (r :: new). rewrite <- app_assoc. split; [reflexivity|].
      split; [cbn [map]; now rewrite Hu, Hm|].
      rewrite Hs2 in *. rewrite Hc2 in Hc'.
      split; [cbn [flat_map]; now rewrite Hc', Hc, <- app_assoc|].
      change (r :: new) with ([r] ++ new).
      rewrite !count_status_app, count_invalid_app.
      repeat split; lia. }
    destruct (idx <? n).
    + unfold io at 1.
      destruct (random_sleep _ _ (world st1)) as [[[]|e] w2]; [|discriminate].
      apply Hnext; reflexivity.
    + unfold ret at 1. apply Hnext; reflexivity.
Qed.

Lemma download_from_channel_spec (self : YTDownloader)
    (channel_url channel_name : str) (max_videos : option Z)
    (st st' : state) (rs : list VideoResult) :
  download_from_channel self channel_url channel_name max_videos st = (Ok rs, st') ->
  exists urls st1,
    get_channel_videos self channel_url max_videos st = (Ok urls, st1)
    /\ map result_url rs = urls
    /\ calls st' = calls st ++ CallEnumerate channel_url
                               :: flat_map library_calls_of rs
    /\ total_videos (stats st') = total_videos (stats st) + length rs
    /\ successful (stats st') = successful (stats st) + count_status "success" rs
    /\ failed (stats st') + count_invalid rs
       = failed (stats st) + count_status "failed" rs.
Proof.
  unfold download_from_channel. unfold bind at 1.
  destruct (get_channel_videos_state self channel_url max_videos st)
    as (urls & w' & Hg).
  rewrite Hg. intros H. exists urls. eexists. split; [reflexivity|].
  destruct urls as [|u urls].
  - unfold ret in H. inversion H; subst. cbn.
    repeat split; lia.
  - unfold bind at 1, update_stats at 1 in H.
    apply download_each_spec in H.
    destruct H as (new & -> & Hm & Hc & Ht & Hs & Hf).
    assert (Hlen : length new = S (length urls))
      by (rewrite <- (length_map result_url), Hm; reflexivity).
    cbn [app stats calls world add_total total_videos successful failed length]
      in *.
    split; [exact Hm|].
    split; [now rewrite Hc, <- app_assoc|].
    repeat split; lia.
Qed.

(** X12: when [download_from_channel] returns, its results are the
    enumerated URLs one for one: the [video_url] of the i-th result is the
    i-th URL [get_channel_videos] gave. *)
Theorem results_follow_the_enumeration
    (self : YTDownloader) (channel_url channel_name : str)
    (max_videos : option Z) (st st' : state) (rs : list VideoResult) :
  download_from_channel self channel_url channel_name max_videos st = (Ok rs, st') ->
  exists urls st1,
    get_channel_videos self channel_url max_videos st = (Ok urls, st1)
    /\ map result_url rs = urls.
Proof.
  intros H. destruct (download_from_channel_spec _ _ _ _ _ _ _ H)
    as (urls & st1 & Hg & Hm & _).
  now exists urls, st1.
Qed.

(** X14: the counters after a channel call that returns. [total_videos]
    grew by the number of results; [failed] grew by the number of failed
    results less the "Invalid video URL" ones, which no counter but
    [total_videos] sees; and [successful] grew by no less than the number
    of success results. *)
Theorem counters_after_a_channel
    (self : YTDownloader) (channel_url channel_name : str)
    (max_videos : option Z) (st st' : state) (rs : list VideoResult) :
  download_from_channel self channel_url channel_name max_videos st = (Ok rs, st') ->
  total_videos (stats st') = total_videos (stats st) + length rs
  /\ failed (stats st') + count_invalid rs
     = failed (stats st) + count_status "failed" rs
  /\ successful (stats st) + count_status "success" rs <= successful (stats st').
Proof.
  intros H. destruct (download_from_channel_spec _ _ _ _ _ _ _ H)
    as (urls & st1 & _ & _ & _ & Ht & Hs & Hf).
  repeat split; try assumption. lia.
Qed.

End ChannelMore.

Lemma results_follow_the_enumeration_witness :
  exists urls st1,
    get_channel_videos (Demo.downloader Demo.fine) (lit "https://x/channel/A")
                       None (Demo.start Demo.fine) = (Ok urls, st1)
    /\ map result_url Demo2.fine_results = urls.
Proof.
  apply (@results_follow_the_enumeration (Demo.scripted Demo.fine)
           (Demo.downloader Demo.fine) (lit "https://x/channel/A") (lit "leon")
           None (Demo.start Demo.fine) Demo2.fine_state Demo2.fine_results).
  vm_compute. reflexivity.
Defined.

Lemma counters_after_a_channel_witness :
  total_videos (stats Demo2.short_state)
  = total_videos (stats (Demo.start Demo.short_id))
    + length [InvalidUrl (lit "https://www.youtube.com/watch?v=abc")]
  /\ failed (stats Demo2.short_state)
     + count_invalid [InvalidUrl (lit "https://www.youtube.com/watch?v=abc")]
     = failed (stats (Demo.start Demo.short_id))
       + count_status "failed"
           [InvalidUrl (lit "https://www.youtube.com/watch?v=abc")]
  /\ successful (stats (Demo.start Demo.short_id))
     + count_status "success"
         [InvalidUrl (lit "https://www.youtube.com/watch?v=abc")]
     <= successful (stats Demo2.short_state).
Proof.
  apply (@counters_after_a_channel (Demo.scripted Demo.short_id)
           (Demo.downloader Demo.short_id) (lit "https://x/channel/A")
           (lit "leon") None (Demo.start Demo.short_id) Demo2.short_state
           [InvalidUrl (lit "https://www.youtube.com/watch?v=abc")]).
  vm_compute. reflexivity.
Defined.

(** ** Sleeps between downloads *)

Section Sleeps.
Variable E0 : External.

Ltac unfold_counted :=
  unfold bind, try_except, io, ask, update_stats, trace, ret, raise in *;
  cbn [counting mkdir ydl_download write_text random_sleep ydl_extract_flat
       fst snd stats world calls] in *.

Lemma counted_download (self : @YTDownloader (counting E0))
    (u channel_name : str) (st st' : @state (counting E0))
    (out : res VideoResult) :
  download_video_audio self u channel_name st = (out, st') ->
  snd (world st') = snd (world st).
Proof.
  unfold download_video_audio.
  destruct (_extract_video_id u) as [vid|].
  2:{ unfold ret. intros H. now inversion H. }
  unfold_counted.
  destruct (@mkdir E0 true _ (fst (world st))) as [[[]|e0] w1].
  2:{ intros H. now inversion H. }
  unfold_counted.
  destruct (@ydl_download E0 _ u w1) as [[[[|item items]|]|e1] w2];
    unfold_counted; try (intros H; now inversion H).
  unfold _extract_metadata. unfold_counted.
  destruct (@write_text E0 _ _ w2) as [[[]|e2] w3]; unfold_counted;
    intros H; now inversion H.
Qed.

Lemma counted_enumeration (self : @YTDownloader (counting E0))
    (channel_url : str) (max_videos : option Z) (st : @state (counting E0)) :
  exists urls st',
    get_channel_videos self channel_url max_videos st = (Ok urls, st')
    /\ snd (world st') = snd (world st) /\ stats st' = stats st.
Proof.
  unfold get_channel_videos. unfold_counted.
  destruct (@ydl_extract_flat E0 _ channel_url (fst (world st)))
    as [[[| |entries]|e] w'];
    unfold_counted; eexists; eexists; (split; [reflexivity|]); now split.
Qed.

Lemma counted_each (self : @YTDownloader (counting E0)) (channel_name : str)
    (urls : list str) (n idx : nat) (results rs : list VideoResult)
    (st st' : @state (counting E0)) :
  idx + length urls = S n ->
  download_each self channel_name n idx urls results st = (Ok rs, st') ->
  snd (world st') = snd (world st) + (length urls - 1).
Proof.
  revert idx results st.
  induction urls as [|u urls IH]; intros idx results st Hidx;
    cbn [download_each].
  - unfold ret. intros H. inversion H; subst. cbn. lia.
  - unfold bind at 1.
    destruct (download_video_audio self u channel_name st) as [[r|e] st1] eqn:Hd;
      [|discriminate].
    apply counted_download in Hd.
    unfold bind at 1. cbn [length] in *.
    destruct (Nat.ltb_spec idx n) as [Hlt | Hge].
    + unfold io at 1.
      cbn [counting random_sleep].
      destruct (@random_sleep E0 _ _ (fst (world st1))) as [[[]|e] w2];
        [|discriminate].
      intros H. apply IH in H; [|lia].
      cbn [world snd] in H. destruct urls as [|u2 urls]; cbn [length] in *; lia.
    + unfold ret at 1. intros H.
      destruct urls as [|u2 urls]; [|cbn [length] in Hidx; lia].
      cbn [download_each] in H. unfold ret in H. inversion H; subst.
      cbn. lia.
Qed.

(** X17: between the downloads of one channel the program sleeps once
    after each video but the last. In any world with its sleeps counted, a
    channel call that returns [n] results has slept [n - 1] times, and not
    at all for an empty channel. *)
Theorem sleeps_between_downloads
    (self : @YTDownloader (counting E0)) (channel_url channel_name : str)
    (max_videos : option Z) (st st' : @state (counting E0))
    (rs : list VideoResult) :
  download_from_channel self channel_url channel_name max_videos st = (Ok rs, st') ->
  snd (world st') = snd (world st) + (length rs - 1).
Proof.
  intros Hrun.
  pose proof (download_from_channel_length _ _ _ _ _ _ _ Hrun) as Hlen.
  revert Hrun. unfold download_from_channel. unfold bind at 1.
  destruct (counted_enumeration self channel_url max_videos st)
    as (urls & st1 & Hg & Hw & Hs).
  rewrite Hg in *. destruct Hlen as (urls' & st1' & Heq & Hlen).
  inversion Heq; subst urls' st1'. clear Heq.
  destruct urls as [|u urls].
  - unfold ret. intros H. inversion H; subst. cbn. lia.
  - unfold bind at 1, update_stats at 1. intros H.
    apply counted_each in H; [|cbn [length]; lia].
    cbn [world] in H. rewrite Hlen. lia.
Qed.

End Sleeps.

Lemma sleeps_between_downloads_witness :
  snd (world Demo2.counted_state)
  = snd (world (Demo2.counted_start Demo.fine))
    + (length Demo2.counted_results - 1).
Proof.
  apply (@sleeps_between_downloads (Demo.scripted Demo.fine)
           (Demo2.counted_downloader Demo.fine) (lit "https://x/channel/A")
           (lit "leon") None (Demo2.counted_start Demo.fine)
           Demo2.counted_state Demo2.counted_results).
  vm_compute. reflexivity.
Defined.

Example two_videos_one_sleep :
  length Demo2.counted_results = 2 /\ snd (world Demo2.counted_state) = 1.
Proof. split; vm_compute; reflexivity. Qed.

(** ** Batch Orchestrator: the results mapping *)

Section MappingMore.
Context {E : External}.

Lemma dict_set_keys {V} (d : dict V) (k : str) (v : V) :
  (In k (map fst d) -> map fst (dict_set d k v) = map fst d)
  /\ (~ In k (map fst d) -> dict_set d k v = d ++ [(k, v)]).
Proof.
  induction d as [|[k0 v0] d [IH1 IH2]]; simpl.
  - split; [contradiction | reflexivity].
  - destruct (str_eqb k0 k) eqn:Hk.
    + apply str_eqb_eq in Hk. subst k0. split; [reflexivity|].
      intros H. exfalso. apply H. now left.
    + assert (Hne : k0 <> k)
        by (intros ->; rewrite (proj2 (str_eqb_eq k k) eq_refl) in Hk;
            discriminate).
      split.
      * intros [H | H]; [contradiction|]. simpl. now rewrite IH1.
      * intros H. rewrite IH2; [reflexivity|]. intros Hin. apply H. now right.
Qed.

Lemma dict_set_keys_cases {V} (d : dict V) (k : str) (v : V) :
  map fst (dict_set d k v) = map fst d
  \/ (~ In k (map fst d) /\ map fst (dict_set d k v) = map fst d ++ [k]).
Proof.
  destruct (in_dec (list_eq_dec N.eq_dec) k (map fst d)) as [Hin | Hnin].
  - left. now apply dict_set_keys.
  - right. split; [exact Hnin|].
    rewrite (proj2 (dict_set_keys d k v) Hnin), map_app. reflexivity.
Qed.

Lemma dict_set_in_keys {V} (d : dict V) (k : str) (v : V) (name : str) :
  In name (map fst (dict_set d k v)) <-> In name (map fst d) \/ name = k.
Proof.
  destruct (in_dec (list_eq_dec N.eq_dec) k (map fst d)) as [Hin | Hnin].
  - rewrite (proj1 (dict_set_keys d k v) Hin). split; [now left|].
    intros [H | ->]; assumption.
  - rewrite (proj2 (dict_set_keys d k v) Hnin), map_app, in_app_iff. simpl.
    split; intros [H | H]; auto.
    + destruct H as [H | []]. now right.
Qed.

Lemma dict_set_nodup {V} (d : dict V) (k : str) (v : V) :
  NoDup (map fst d) -> NoDup (map fst (dict_set d k v)).
Proof.
  intros Hd. destruct (dict_set_keys_cases d k v) as [-> | [Hnin ->]];
    [exact Hd|].
  apply NoDup_app; [exact Hd | repeat constructor; intros [] |].
  intros x Hx [<- | []]. contradiction.
Qed.

Lemma process_channel_results (downloader : YTDownloader)
    (max_videos : option Z) (name url : str) (b : batch) (st : state) :
  exists v,
    all_results (fst (process_channel downloader max_videos (name, url) (b, st)))
    = dict_set (all_results b) name v.
Proof.
  unfold process_channel.
  destruct (download_from_channel downloader url name max_videos st)
    as [[rs|e] st']; eexists; reflexivity.
Qed.

Lemma process_channels_keys (downloader : YTDownloader) (max_videos : option Z)
    (channels : list (str * str)) (b : batch) (st : state) :
  NoDup (map fst (all_results b)) ->
  let b' := fst (process_channels downloader max_videos channels (b, st)) in
  NoDup (map fst (all_results b'))
  /\ forall name,
       In name (map fst (all_results b'))
       <-> In name (map fst (all_results b)) \/ In name (map fst channels).
Proof.
  unfold process_channels. revert b st.
  induction channels as [|[name url] channels IH]; intros b st Hb; cbn [fold_left].
  - split; [exact Hb|]. intros name. simpl. tauto.
  - destruct (process_channel_results downloader max_videos name url b st)
      as [v Hv].
    destruct (process_channel downloader max_videos (name, url) (b, st))
      as [b1 st1].
    cbn [fst] in Hv.
    destruct (IH b1 st1) as [Hn Hk].
    { rewrite Hv. now apply dict_set_nodup. }
    split; [exact Hn|]. intros x. rewrite Hk, Hv, dict_set_in_keys.
    simpl. split; intros H; intuition (subst; auto).
Qed.

(** X18: every channel handed to the loop has an entry in [all_results],
    whatever the library did, no other name has one, and no name has two: a
    repeated channel name keeps one entry. *)
Theorem every_channel_has_one_entry
    (downloader : YTDownloader) (max_videos : option Z)
    (channels : list (str * str)) (fs : store) (st : state) :
  let b := fst (process_channels downloader max_videos channels
                                 (MkBatch [] [] fs, st)) in
  NoDup (map fst (all_results b))
  /\ (forall name,
         In name (map fst (all_results b)) <-> In name (map fst channels))
  /\ length (all_results b) <= length channels.
Proof.
  intros b.
  destruct (process_channels_keys downloader max_videos channels
              (MkBatch [] [] fs) st (NoDup_nil _)) as [Hn Hk].
  fold b in Hn, Hk.
  split; [exact Hn|]. split.
  - intros name. rewrite Hk. simpl. tauto.
  - rewrite <- (length_map fst (all_results b)), <- (length_map fst channels).
    apply NoDup_incl_length; [exact Hn|].
    intros x Hx. apply Hk in Hx. destruct Hx as [[] | Hx]. exact Hx.
Qed.

Lemma errors_of_app (a b : dict ChannelResult) :
  errors_of (a ++ b) = errors_of a ++ errors_of b.
Proof. unfold errors_of. apply flat_map_app. Qed.

Lemma process_channels_fresh (downloader : YTDownloader)
    (max_videos : option Z) (channels : list (str * str)) (b : batch)
    (st : state) :
  NoDup (map fst channels) ->
  (forall name, In name (map fst channels) ->
                ~ In name (map fst (all_results b))) ->
  failed_channels b = errors_of (all_results b) ->
  let b' := fst (process_channels downloader max_videos channels (b, st)) in
  map fst (all_results b') = map fst (all_results b) ++ map fst channels
  /\ failed_channels b' = errors_of (all_results b').
Proof.
  unfold process_channels. revert b st.
  induction channels as [|[name url] channels IH]; intros b st Hnd Hfresh Hf;
    cbn [fold_left].
  - simpl. now rewrite app_nil_r.
  - cbn [map fst] in Hnd. inversion Hnd as [|x l Hx Hl]; subst.
    assert (Hname : ~ In name (map fst (all_results b)))
      by (apply Hfresh; now left).
    assert (Hstep :
      let b1 := fst (process_channel downloader max_videos (name, url) (b, st)) in
      map fst (all_results b1) = map fst (all_results b) ++ [name]
      /\ failed_channels b1 = errors_of (all_results b1)).
    { unfold process_channel.
      destruct (download_from_channel downloader url name max_videos st)
        as [[rs|e] st']; cbn [fst all_results failed_channels];
        rewrite (proj2 (dict_set_keys _ name _) Hname), map_app, errors_of_app;
        cbn; rewrite Hf, ?app_nil_r; split; reflexivity. }
    destruct (process_channel downloader max_videos (name, url) (b, st))
      as [b1 st1].
    cbn [fst] in Hstep. destruct Hstep as [Hk1 Hf1].
    destruct (IH b1 st1 Hl) as [Hk Hfc]; [|exact Hf1|].
    + intros y Hy. rewrite Hk1, in_app_iff. intros [H | [<- | []]].
      * apply (Hfresh y); [now right | exact H].
      * contradiction.
    + split; [|exact Hfc].
      rewrite Hk, Hk1, <- app_assoc. reflexivity.
Qed.

(** X19: when the channel names are all different, the keys of
    [all_results] are the names in processing order, and [failed_channels]
    is exactly the list of its error entries, name and message, in that
    order. *)
Theorem failed_channels_are_the_error_entries
    (downloader : YTDownloader) (max_videos : option Z)
    (channels : list (str * str)) (fs : store) (st : state) :
  NoDup (map fst channels) ->
  let b := fst (process_channels downloader max_videos channels
                                 (MkBatch [] [] fs, st)) in
  map fst (all_results b) = map fst channels
  /\ failed_channels b = errors_of (all_results b).
Proof.
  intros Hnd.
  apply (process_channels_fresh downloader max_videos channels
           (MkBatch [] [] fs) st Hnd).
  - intros name _ [].
  - reflexivity.
Qed.

End MappingMore.

Lemma failed_channels_are_the_error_entries_witness :
  let b := fst (process_channels (Demo.downloader Demo.second_fails) None
                  [(lit "good", lit "https://x/channel/G");
                   (lit "bad", lit "https://x/channel/B")]
                  (MkBatch [] [] empty_store,
                   Demo.start Demo.second_fails)) in
  map fst (all_results b) = [lit "good"; lit "bad"]
  /\ failed_channels b = errors_of (all_results b).
Proof.
  apply (@failed_channels_are_the_error_entries (Demo.scripted Demo.second_fails)
           (Demo.downloader Demo.second_fails) None
           [(lit "good", lit "https://x/channel/G");
            (lit "bad", lit "https://x/channel/B")]
           empty_store (Demo.start Demo.second_fails)).
  repeat constructor; simpl; intuition discriminate.
Defined.

(** ** Batch Orchestrator: the files, the cap and the offset *)

Section FilesMore.
Context {E : External}.

Lemma process_channels_snoc (downloader : YTDownloader) (max_videos : option Z)
    (cs : list (str * str)) (c : str * str) (bs : batch * state) :
  process_channels downloader max_videos (cs ++ [c]) bs
  = process_channel downloader max_videos c
      (process_channels downloader max_videos cs bs).
Proof. unfold process_channels. now rewrite fold_left_app. Qed.





(** X21: when the last channel completes and the write of the checkpoint
    does not fail, the checkpoint holds the serialization of the whole
    results mapping, which is what a write of the final file that does not
    fail leaves there. *)
Theorem checkpoint_is_complete_when_last_channel_completes
    (downloader : YTDownloader) (max_videos : option Z)
    (channels : list (str * str)) (name url : str) (b0 : batch)
    (st0 st' : state) (rs : list VideoResult) :
  download_from_channel downloader url name max_videos
    (snd (process_channels downloader max_videos channels (b0, st0)))
  = (Ok rs, st') ->
  next_fault (files (fst (process_channels downloader max_videos channels
                                           (b0, st0)))) = None ->
  let b := fst (process_channels downloader max_videos
                                 (channels ++ [(name, url)]) (b0, st0)) in
  files b checkpoint_file
  = Some (written (dumps (results_json (all_results b))) None)
  /\ (next_fault (files b) = None ->
      save_batch_results (all_results b) final_file (files b) final_file
      = files b checkpoint_file).
Proof.
  intros Hrun Hok. cbv zeta. rewrite process_channels_snoc.
  destruct (process_channels downloader max_videos channels (b0, st0))
    as [b1 st1].
  cbn [snd fst] in Hrun, Hok. unfold process_channel. rewrite Hrun.
  cbn [fst files all_results]. unfold save_batch_results.
  rewrite (write_file_lands _ checkpoint_file _ Hok).
  split; [reflexivity|]. intros Hok2. now apply write_file_lands.
Qed.

Lemma channel_within_cap (downloader : YTDownloader) (N : nat)
    (url name : str) (st st' : state) (rs : list VideoResult) :
  1 <= N ->
  download_from_channel downloader url name (Some (Z.of_nat N)) st = (Ok rs, st') ->
  length rs <= N.
Proof.
  intros HN Hrun. apply download_from_channel_length in Hrun.
  destruct Hrun as (urls & st1 & Hg & ->).
  destruct (get_channel_videos_spec downloader url (Some (Z.of_nat N)) st)
    as (urls' & st2 & Hg' & _ & Hu).
  rewrite Hg in Hg'. inversion Hg'; subst urls' st2.
  destruct Hu as [-> | [entries ->]]; [simpl; lia|].
  apply collect_urls_at_most. simpl. lia.
Qed.

(** X23: with [--max-videos-per-channel N] and [N >= 1], every entry of
    [all_results] that records counts has at most [N] videos, in its list
    and in its [total_videos]. *)
Theorem per_channel_cap_holds_in_results
    (downloader : YTDownloader) (N : nat) (channels : list (str * str))
    (fs : store) (st : state) :
  1 <= N ->
  Forall (fun item => within_cap N (snd item))
         (all_results (fst (process_channels downloader (Some (Z.of_nat N))
                                             channels (MkBatch [] [] fs, st)))).
Proof.
  intros HN.
  assert (H : forall (b : batch) (s : state),
             Forall (fun item => within_cap N (snd item)) (all_results b) ->
             Forall (fun item => within_cap N (snd item))
                    (all_results (fst (process_channels downloader
                                         (Some (Z.of_nat N)) channels (b, s))))).
  { unfold process_channels.
    induction channels as [|[name url] cs IH]; intros b s Hb; [exact Hb|].
    cbn [fold_left].
    assert (H1 : Forall (fun item => within_cap N (snd item))
                   (all_results (fst (process_channel downloader
                                        (Some (Z.of_nat N)) (name, url) (b, s))))).
    { unfold process_channel.
      destruct (download_from_channel downloader url name (Some (Z.of_nat N)) s)
        as [[rs|e] s'] eqn:Hrun; cbn [fst all_results];
        apply dict_set_Forall; try exact Hb; intros k'; cbn [snd within_cap];
        [|exact I].
      pose proof (channel_within_cap _ _ _ _ _ _ _ HN Hrun). lia. }
    destruct (process_channel downloader (Some (Z.of_nat N)) (name, url) (b, s))
      as [b1 s1].
    now apply IH. }
  apply H. constructor.
Qed.

(** X24: an enumeration that raises does not make a channel-level error.
    The channel gets a counted entry with no videos, it is not listed in
    [failed_channels], the counters stay, and the checkpoint is written. *)
Theorem enumeration_failure_is_an_empty_channel
    (downloader : YTDownloader) (max_videos : option Z) (name url : str)
    (b : batch) (st : state) (e : exn) (w' : World) :
  ydl_extract_flat (cookies_in_use downloader (world st)) url (world st)
  = (Raise e, w') ->
  process_channel downloader max_videos (name, url) (b, st)
  = (MkBatch (dict_set (all_results b) name (ChannelOk url 0 0 0 []))
             (failed_channels b)
             (save_batch_results
                (dict_set (all_results b) name (ChannelOk url 0 0 0 []))
                checkpoint_file (files b)),
     MkState (stats st) w' (calls st ++ [CallEnumerate url])).
Proof.
  intros He. unfold process_channel, download_from_channel, get_channel_videos.
  unfold bind, try_except, io, ask, trace, ret, raise.
  cbn [world stats calls]. rewrite He. reflexivity.
Qed.

Lemma slice_to_length {A} (n : Z) (l : list A) : length (slice_to n l) <= length l.
Proof.
  unfold slice_to. destruct (0 <=? n)%Z; rewrite length_firstn; lia.
Qed.

(** X25: the test for an empty channel list comes before the cap and the
    offset. With a [--start-from] at or past the number of channels read,
    [main] does not exit: it processes nothing, never calls the library,
    writes no checkpoint, and saves an empty mapping to the final file,
    which then holds [{}] when that write does not fail. *)
Theorem offset_past_the_end_runs_an_empty_batch
    (args : Args) (f : ChannelList.file) (fs : store) (w : World)
    (r : ChannelList.reader) (d : YTDownloader) (st0 : state) :
  ChannelList.read_channel_list f = Returns r ->
  ChannelList.channels r <> [] ->
  (Z.of_nat (length (ChannelList.channels r)) <= start_from args)%Z ->
  __init__ (output_dir args) (sleep_min args) (sleep_max args) 1
           (arg_rate_limit args) 3 (arg_cookies_file args) w = (Ok d, st0) ->
  main args f fs w
  = Returns (Ok (MkRun (MkBatch [] [] (save_batch_results [] final_file fs))
                       st0 (print_stats (stats st0))))
  /\ calls st0 = []
  /\ save_batch_results [] final_file fs checkpoint_file = fs checkpoint_file
  /\ (next_fault fs = None ->
      save_batch_results [] final_file fs final_file
      = Some (Complete [Byte.x7b; Byte.x7d])).
Proof.
  intros Hr Hne Hs Hi. split; [|split; [|split]].
  - unfold main. rewrite Hr.
    destruct (ChannelList.channels r) as [|c0 cs] eqn:Hcs; [contradiction|].
    set (capped := match max_channels args with
                   | Some m => if (m =? 0)%Z then c0 :: cs else slice_to m (c0 :: cs)
                   | None => c0 :: cs
                   end).
    assert (Hlen : length capped <= length (c0 :: cs)).
    { subst capped. destruct (max_channels args) as [m|]; [|lia].
      destruct (m =? 0)%Z; [lia | apply slice_to_length]. }
    assert (Hpos : (0 <? start_from args)%Z = true)
      by (apply Z.ltb_lt; cbn [length] in Hs; lia).
    rewrite Hpos.
    assert (Hnil : slice_from (start_from args) capped = []).
    { unfold slice_from.
      replace (0 <=? start_from args)%Z with true
        by (symmetry; apply Z.leb_le; apply Z.ltb_lt in Hpos; lia).
      apply skipn_all2. lia. }
    rewrite Hnil, Hi. reflexivity.
  - unfold __init__ in Hi. destruct (mkdir false _ w) as [r0 w0].
    inversion Hi. reflexivity.
  - unfold save_batch_results. apply write_file_others. discriminate.
  - intros Hok. unfold save_batch_results.
    rewrite (write_file_lands _ _ _ Hok). reflexivity.
Qed.

End FilesMore.


Lemma checkpoint_is_complete_when_last_channel_completes_witness :
  let b := fst (process_channels (Demo.downloader Demo.second_fails) None
                  ([(lit "bad", lit "https://x/channel/B")]
                   ++ [(lit "good", lit "https://x/channel/G")])
                  (MkBatch [] [] empty_store, Demo.start Demo.second_fails)) in
  files b checkpoint_file
  = Some (written (dumps (results_json (all_results b))) None)
  /\ (next_fault (files b) = None ->
      save_batch_results (all_results b) final_file (files b) final_file
      = files b checkpoint_file).
Proof.
  apply (@checkpoint_is_complete_when_last_channel_completes
           (Demo.scripted Demo.second_fails) (Demo.downloader Demo.second_fails)
           None [(lit "bad", lit "https://x/channel/B")]
           (lit "good") (lit "https://x/channel/G")
           (MkBatch [] [] empty_store) (Demo.start Demo.second_fails)
           (snd (download_from_channel (Demo.downloader Demo.second_fails)
                   (lit "https://x/channel/G") (lit "good") None
                   (snd (process_channels (Demo.downloader Demo.second_fails)
                           None [(lit "bad", lit "https://x/channel/B")]
                           (MkBatch [] [] empty_store,
                            Demo.start Demo.second_fails)))))
           (match fst (download_from_channel (Demo.downloader Demo.second_fails)
                         (lit "https://x/channel/G") (lit "good") None
                         (snd (process_channels
                                 (Demo.downloader Demo.second_fails)
                                 None [(lit "bad", lit "https://x/channel/B")]
                                 (MkBatch [] [] empty_store,
                                  Demo.start Demo.second_fails)))) with
            | Ok rs => rs
            | Raise _ => []
            end)).
  - vm_compute. reflexivity.
  - reflexivity.
Defined.

Lemma per_channel_cap_holds_in_results_witness :
  Forall (fun item => within_cap 1 (snd item))
         (all_results
            (fst (process_channels (Demo.downloader Demo.fine)
                    (Some (Z.of_nat 1))
                    [(lit "leon", lit "https://x/channel/A")]
                    (MkBatch [] [] empty_store, Demo.start Demo.fine)))).
Proof.
  apply (@per_channel_cap_holds_in_results (Demo.scripted Demo.fine)
           (Demo.downloader Demo.fine) 1
           [(lit "leon", lit "https://x/channel/A")] empty_store
           (Demo.start Demo.fine)).
  lia.
Defined.

Lemma enumeration_failure_is_an_empty_channel_witness :
  process_channel (Demo.downloader Demo2.unlisted) None
                  (lit "leon", lit "https://x/channel/A")
                  (MkBatch [] [] empty_store, Demo.start Demo2.unlisted)
  = (MkBatch [(lit "leon", ChannelOk (lit "https://x/channel/A") 0 0 0 [])] []
             (save_batch_results
                [(lit "leon", ChannelOk (lit "https://x/channel/A") 0 0 0 [])]
                checkpoint_file empty_store),
     @MkState (Demo.scripted Demo2.unlisted) init_stats tt
              [CallEnumerate (lit "https://x/channel/A")]).
Proof.
  apply (@enumeration_failure_is_an_empty_channel
           (Demo.scripted Demo2.unlisted) (Demo.downloader Demo2.unlisted) None
           (lit "leon") (lit "https://x/channel/A")
           (MkBatch [] [] empty_store) (Demo.start Demo2.unlisted)
           (Exn (lit "HTTP Error 404: Not Found")) tt).
  reflexivity.
Defined.

Lemma offset_past_the_end_runs_an_empty_batch_witness :
  main (Demo2.args_from Demo.fine 2) (ChannelList.Text Demo.two_channels)
       empty_store tt
  = Returns (Ok (MkRun (MkBatch [] [] (save_batch_results [] final_file
                                                          empty_store))
                       (Demo.start Demo.fine)
                       (print_stats (stats (Demo.start Demo.fine)))))
  /\ calls (Demo.start Demo.fine) = []
  /\ save_batch_results [] final_file empty_store checkpoint_file
     = empty_store checkpoint_file
  /\ (next_fault empty_store = None ->
      save_batch_results [] final_file empty_store final_file
      = Some (Complete [Byte.x7b; Byte.x7d])).
Proof.
  apply (@offset_past_the_end_runs_an_empty_batch (Demo.scripted Demo.fine)
           (Demo2.args_from Demo.fine 2) (ChannelList.Text Demo.two_channels)
           empty_store tt
           (ChannelList.Reader [(lit "good", lit "https://x/channel/G");
                                (lit "bad", lit "https://x/channel/B")] [])
           (Demo.downloader Demo.fine) (Demo.start Demo.fine)).
  - reflexivity.
  - discriminate.
  - simpl. lia.
  - reflexivity.
Defined.

(** ** [main] without channels *)

Section NoChannels.
Context {E : External}.

(** X26: [main] exits with code 1, before it creates the output directory
    or touches a file, when the channel list is missing or unreadable, and
    also when every line of it is blank, a comment or without a comma. *)
Theorem main_exits_without_channels
    (args : Args) (f : ChannelList.file) (fs : store) (w : World) :
  f = ChannelList.Missing
  \/ (exists e, f = ChannelList.Unreadable e)
  \/ (exists text, f = ChannelList.Text text
                   /\ Forall ChannelList.skipped_line
                             (ChannelList.file_lines text)) ->
  main args f fs w = Exits 1.
Proof.
  intros [-> | [[e ->] | (text & -> & Hall)]]; try reflexivity.
  unfold main.
  destruct (ChannelListProps.read_channel_list_all_skipped text Hall)
    as (r & Hr & Hc).
  rewrite Hr, Hc. reflexivity.
Qed.

End NoChannels.

Lemma main_exits_without_channels_witness :
  main (Demo.default_args Demo.fine)
       (ChannelList.Text (lit "# nothing here" ++ [LF] ++ lit "bad-line"))
       empty_store tt
  = Exits 1.
Proof.
  apply (@main_exits_without_channels (Demo.scripted Demo.fine)).
  right. right. eexists. split; [reflexivity|].
  apply Forall_forall. intros raw Hin. vm_compute in Hin.
  destruct Hin as [<- | [<- | []]].
  - right. left. reflexivity.
  - right. right. right. reflexivity.
Defined.

(** ** The test drivers *)

Section DriversMore.
Context {E : External}.




Lemma test_channel_entry (downloader : YTDownloader) (name url : str)
    (all all' : dict ChannelResult) (st st' : state) :
  test_channel downloader (name, url) (all, st) = (all', st') ->
  exists v, all' = dict_set all name v /\ within_cap 3 v /\ counts_agree v.
Proof.
  unfold test_channel.
  destruct (download_from_channel downloader url name (Some 3%Z) st)
    as [[rs|e] st1] eqn:Hrun; intros H; inversion H; subst;
    eexists; (split; [reflexivity|]);
    cbn [within_cap counts_agree]; [|now split].
  pose proof (channel_within_cap downloader 3 url name st st' rs
                (le_S _ _ (le_S _ _ (le_n 1))) Hrun) as Hcap.
  pose proof (count_status_total rs). repeat split; lia.
Qed.

(** X28: the test driver returns one entry for each of its two channels,
    in order, in every world; an entry that records counts has at most
    three videos and counts that add up; and the flag it reports is the 403
    check of that mapping. *)
Theorem test_driver_results (five ten : seconds) (w : World) :
  match test_sample_channels five ten w with
  | (Ok (all, flag), _) =>
      map fst all = map fst test_channels
      /\ Forall (fun item => within_cap 3 (snd item)) all
      /\ Forall (fun item => counts_agree (snd item)) all
      /\ flag = has_403 all
  | (Raise _, _) => True
  end.
Proof.
  unfold test_sample_channels.
  destruct (__init__ _ _ _ _ _ _ _ w) as [[d|e] st0]; [|exact I].
  unfold test_channels. cbn [fold_left].
  destruct (test_channel d _ ([], st0)) as [all1 st1] eqn:H1.
  apply test_channel_entry in H1. destruct H1 as (v1 & -> & Hc1 & Ha1).
  destruct (test_channel d _ (dict_set [] (lit "leon") v1, st1))
    as [all2 st2] eqn:H2.
  apply test_channel_entry in H2. destruct H2 as (v2 & -> & Hc2 & Ha2).
  change (dict_set (dict_set [] (lit "leon") v1)
                   ([0x8A69; 0x8A69]%N ++ lit "fly") v2)
    with [(lit "leon", v1); ([0x8A69; 0x8A69]%N ++ lit "fly", v2)].
  repeat split; repeat constructor; assumption.
Qed.

(** X29: the single-video test of [yt_downloader.py]. Whenever it
    finishes, the library was called exactly once, for the test URL; one of
    [successful] and [failed] is 1 and the other 0; and the log says
    "Total videos: 0", for a single download never adds to
    [total_videos]. *)
Theorem single_download_run (five ten : seconds) (w : World) :
  match downloader_main five ten w with
  | (Ok (_, log), st') =>
      (stats st' = MkStats 0 1 0 0 \/ stats st' = MkStats 0 0 1 0)
      /\ calls st' = [CallDownload test_url]
      /\ nth_error log 3 = Some (lit "Total videos: 0")
  | (Raise _, _) => True
  end.
Proof.
  unfold downloader_main, __init__.
  destruct (mkdir false (lit "downloads") w) as [[[]|e] w0]; [|exact I].
  match goal with
  | |- context [download_video_audio ?d ?u ?c ?s] =>
      pose proof (download_outcome d u c s) as Ho;
      destruct (download_video_audio d u c s) as [[r|e] st'] eqn:Hrun
  end; [|exact I].
  destruct (download_step _ _ _ _ _ _ Hrun) as (Hu & Hc & Ht & _).
  cbn [stats calls app init_stats total_videos] in *.
  assert (Hlog : nth_error (print_stats (stats st')) 3
                 = Some (lit "Total videos: 0")).
  { unfold print_stats. cbn [nth_error]. now rewrite Ht. }
  destruct r as [u | u v c d0 m j | u v c er]; cbn in Hu; subst u.
  - destruct Ho as [_ Ho]. discriminate.
  - destruct Ho as [Ho _]. split; [left; exact Ho|].
    split; [exact Hc | exact Hlog].
  - destruct Ho as [Ho _]. split; [right; exact Ho|].
    split; [exact Hc | exact Hlog].
Qed.

End DriversMore.
